(** * Query translation service of the Jaeger UI: embedding and verification

    Source: packages/jaeger-ui/src/services/AITranslationService.ts
    (class [AITranslationService]: [fetchServices],
    [fetchServiceOperations], [translateQuery], [validateQuery]), and
    packages/jaeger-ui/src/components/SearchTracePage/AISearchForm.jsx
    (the component [AISearchFormImpl], which calls the service, and the
    earlier version of the class that follows it in that file).

    The embedding is shallow.  JavaScript strings are sequences of UTF-16
    code units, values are the values [JSON.parse] can produce, exceptions
    are an error monad, the two cached fields of the service object and the
    log of network and console effects are threaded as explicit state. *)

From Stdlib Require Import ZArith NArith List String Ascii Bool Lia.
From stdpp Require Import gmap.

Import ListNotations.
Local Open Scope N_scope.

(** ** The part of the JavaScript runtime that the service relies on *)

Module JS.

(** *** Strings *)

(** A string is the list of its UTF-16 code units. *)
Abbreviation jsstring := (list N).

(** [js "abc"] is the JavaScript string literal ['abc'] (ASCII text). *)
Definition js (s : string) : jsstring :=
  List.map N_of_ascii (list_ascii_of_string s).

(** [jsq] is [js] for texts that contain double quotes: a back quote in the
    argument stands for the double quote character (code unit 34). *)
Definition jsq (s : string) : jsstring :=
  List.map (fun c => if c =? 96 then 34 else c) (js s).

Definition str_eqb (a b : jsstring) : bool := bool_decide (a = b).

Definition isDigit (c : N) : bool := (48 <=? c) && (c <=? 57).
Definition isLower (c : N) : bool := (97 <=? c) && (c <=? 122).
Definition isUpper (c : N) : bool := (65 <=? c) && (c <=? 90).

(** [String.prototype.split(sep)] for a separator of one code unit. *)
Fixpoint split (sep : N) (s : jsstring) : list jsstring :=
  match s with
  | [] => [[]]
  | c :: s' =>
      if c =? sep then [] :: split sep s'
      else match split sep s' with
           | [] => [[c]]
           | w :: ws => (c :: w) :: ws
           end
  end.

(** [Array.prototype.join(sep)] on an array of strings. *)
Fixpoint join (sep : jsstring) (l : list jsstring) : jsstring :=
  match l with
  | [] => []
  | [x] => x
  | x :: rest => x ++ sep ++ join sep rest
  end.

(** [Array.prototype.includes] on an array of strings. *)
Definition includes (l : list jsstring) (x : jsstring) : bool :=
  existsb (str_eqb x) l.

Fixpoint isPrefix (p s : jsstring) : bool :=
  match p, s with
  | [], _ => true
  | a :: p', b :: s' => (a =? b) && isPrefix p' s'
  | _ :: _, [] => false
  end.

(** First occurrence of [pat] in [s]: the text before it and the text
    after it. *)
Fixpoint findFirst (pat s : jsstring) : option (jsstring * jsstring) :=
  if isPrefix pat s then Some ([], drop (length pat) s)
  else match s with
       | [] => None
       | c :: s' =>
           match findFirst pat s' with
           | Some (before, after) => Some (c :: before, after)
           | None => None
           end
       end.

(** [GetSubstitution] of ECMA-262 for a string pattern (no capture groups):
    in the replacement text [$$] stands for a dollar sign, [$&] for the
    matched text, [$`] for the text before the match and [$'] for the text
    after it; every other character stands for itself. *)
Fixpoint GetSubstitution (matched before after templ : jsstring) : jsstring :=
  match templ with
  | [] => []
  | c :: r =>
      if c =? 36 then
        match r with
        | d :: r' =>
            if d =? 36 then 36 :: GetSubstitution matched before after r'
            else if d =? 38 then matched ++ GetSubstitution matched before after r'
            else if d =? 96 then before ++ GetSubstitution matched before after r'
            else if d =? 39 then after ++ GetSubstitution matched before after r'
            else c :: GetSubstitution matched before after r
        | [] => [c]
        end
      else c :: GetSubstitution matched before after r
  end.

(** [String.prototype.replace(pattern, replacement)] with two strings:
    only the first occurrence is replaced. *)
Definition replace (s pat replacement : jsstring) : jsstring :=
  match findFirst pat s with
  | None => s
  | Some (before, after) =>
      before ++ GetSubstitution pat before after replacement ++ after
  end.

(** *** Numbers and values *)

(** Numbers are kept as exact decimals: an integer, or [m / 10^e] with [m]
    not a multiple of ten.  The rounding of IEEE-754 doubles is not
    modelled; on the integers of magnitude below [2^53] both agree. *)
Inductive number :=
| NaN
| Integer (z : Z)
| Fraction (m : Z) (e : positive).

#[local] Set Warnings "-register-all".

Inductive value :=
| VUndefined
| VNull
| VBool (b : bool)
| VNum (n : number)
| VStr (s : jsstring)
| VArr (elems : list value)
| VObj (props : list (jsstring * value)).

Inductive exn :=
| Error (message : jsstring)
| TypeError
| SyntaxError
| URIError
| TimeoutError.

(** Outcome of an evaluation that may throw. *)
Inductive completion (A : Type) :=
| Normal (a : A)
| Throw (e : exn).
Arguments Normal {A} a.
Arguments Throw {A} e.

Definition cbind {A B} (c : completion A) (k : A -> completion B) : completion B :=
  match c with
  | Normal a => k a
  | Throw e => Throw e
  end.

Definition isNumber (v : value) : bool :=
  match v with VNum _ => true | _ => false end.

Definition ToBoolean (v : value) : bool :=
  match v with
  | VUndefined | VNull => false
  | VBool b => b
  | VNum NaN => false
  | VNum (Integer z) => negb (z =? 0)%Z
  | VNum (Fraction m _) => negb (m =? 0)%Z
  | VStr s => match s with [] => false | _ => true end
  | VArr _ | VObj _ => true
  end.

(** Own properties of an object, in insertion order. *)
Abbreviation props := (list (jsstring * value)).

Fixpoint hasOwn (o : props) (k : jsstring) : bool :=
  match o with
  | [] => false
  | (k', _) :: o' => str_eqb k k' || hasOwn o' k
  end.

(** Reading a property that is not there gives [undefined]. *)
Fixpoint get (o : props) (k : jsstring) : value :=
  match o with
  | [] => VUndefined
  | (k', v) :: o' => if str_eqb k k' then v else get o' k
  end.

(** Assignment [o[k] = v]: overwrite in place, or add at the end. *)
Fixpoint set (o : props) (k : jsstring) (v : value) : props :=
  match o with
  | [] => [(k, v)]
  | (k', v') :: o' =>
      if str_eqb k k' then (k', v) :: o' else (k', v') :: set o' k v
  end.

(** [delete o[k]]. *)
Fixpoint remove (o : props) (k : jsstring) : props :=
  match o with
  | [] => []
  | (k', v') :: o' =>
      if str_eqb k k' then remove o' k else (k', v') :: remove o' k
  end.

(** Decimal digits of a natural number, most significant first. *)
Fixpoint uintDigits (u : Decimal.uint) : jsstring :=
  match u with
  | Decimal.Nil => []
  | Decimal.D0 u' => 48 :: uintDigits u'
  | Decimal.D1 u' => 49 :: uintDigits u'
  | Decimal.D2 u' => 50 :: uintDigits u'
  | Decimal.D3 u' => 51 :: uintDigits u'
  | Decimal.D4 u' => 52 :: uintDigits u'
  | Decimal.D5 u' => 53 :: uintDigits u'
  | Decimal.D6 u' => 54 :: uintDigits u'
  | Decimal.D7 u' => 55 :: uintDigits u'
  | Decimal.D8 u' => 56 :: uintDigits u'
  | Decimal.D9 u' => 57 :: uintDigits u'
  end.

Definition digitsOf (n : N) : jsstring := uintDigits (N.to_uint n).

Fixpoint stripZerosRev (rev : jsstring) : jsstring :=
  match rev with
  | c :: r => if c =? 48 then stripZerosRev r else rev
  | [] => []
  end.

(** The significant digits: the decimal digits without trailing zeros. *)
Definition significant (ds : jsstring) : jsstring :=
  rev (stripZerosRev (rev ds)).

Definition zeros (n : nat) : jsstring := repeat 48 n.

(** [Number::toString] (radix 10) from the digits [ds] (there are [k] of
    them) and the position [n] of the decimal point: the value is
    [0.ds * 10^n]. *)
Definition formatDecimal (ds : jsstring) (n : Z) : jsstring :=
  let k := Z.of_nat (length ds) in
  if ((k <=? n) && (n <=? 21))%Z then
    ds ++ zeros (Z.to_nat (n - k))
  else if ((0 <? n) && (n <=? 21))%Z then
    take (Z.to_nat n) ds ++ js "." ++ drop (Z.to_nat n) ds
  else if ((-6 <? n) && (n <=? 0))%Z then
    js "0." ++ zeros (Z.to_nat (- n)) ++ ds
  else
    let e := (n - 1)%Z in
    let expo := (if (0 <=? e)%Z then js "+" else js "-") ++ digitsOf (Z.abs_N e) in
    match ds with
    | [d] => [d] ++ js "e" ++ expo
    | d :: more => [d] ++ js "." ++ more ++ js "e" ++ expo
    | [] => []
    end.

Definition NumberToString (x : number) : jsstring :=
  match x with
  | NaN => js "NaN"
  | Integer z =>
      if (z =? 0)%Z then js "0"
      else
        let all := digitsOf (Z.abs_N z) in
        (if (z <? 0)%Z then js "-" else []) ++
        formatDecimal (significant all) (Z.of_nat (length all))
  | Fraction m e =>
      if (m =? 0)%Z then js "0"
      else
        let all := digitsOf (Z.abs_N m) in
        (if (m <? 0)%Z then js "-" else []) ++
        formatDecimal all (Z.of_nat (length all) - Z.pos e)
  end.

(** [ToString] on a value produced by [JSON.parse].  An array prints its
    elements separated by commas ([null] prints as nothing there); a plain
    object prints as [[object Object]], unless it has an own property
    [toString]: that property hides [Object.prototype.toString] and is
    not callable, nor is the result of [valueOf] a primitive. *)
Fixpoint ToString (v : value) : completion jsstring :=
  match v with
  | VUndefined => Normal (js "undefined")
  | VNull => Normal (js "null")
  | VBool true => Normal (js "true")
  | VBool false => Normal (js "false")
  | VNum n => Normal (NumberToString n)
  | VStr s => Normal s
  | VArr elems =>
      let element (x : value) : completion jsstring :=
        match x with
        | VUndefined | VNull => Normal []
        | _ => ToString x
        end in
      (fix joinElements (l : list value) : completion jsstring :=
         match l with
         | [] => Normal []
         | [x] => element x
         | x :: rest =>
             cbind (element x) (fun a =>
             cbind (joinElements rest) (fun b =>
             Normal (a ++ js "," ++ b)))
         end) elems
  | VObj o =>
      if hasOwn o (js "toString") then Throw TypeError
      else Normal (js "[object Object]")
  end.

(** White space and line terminators skipped by [parseInt]. *)
Definition isStrWhiteSpaceChar (c : N) : bool :=
  (9 <=? c) && (c <=? 13) || (c =? 32) || (c =? 160) || (c =? 5760) ||
  (8192 <=? c) && (c <=? 8202) || (c =? 8232) || (c =? 8233) ||
  (c =? 8239) || (c =? 8287) || (c =? 12288) || (c =? 65279).

Fixpoint trimStart (s : jsstring) : jsstring :=
  match s with
  | c :: s' => if isStrWhiteSpaceChar c then trimStart s' else s
  | [] => []
  end.

(** Value of the longest prefix of decimal digits read after [acc]; [None]
    when that prefix is empty. *)
Fixpoint leadingDigits (s : jsstring) (acc : option Z) : option Z :=
  match s with
  | c :: s' =>
      if isDigit c
      then leadingDigits s' (Some (10 * default 0%Z acc + Z.of_N (c - 48))%Z)
      else acc
  | [] => acc
  end.

(** [parseInt(s, 10)].  The value is the exact integer; the code has the
    nearest number to it, which is the same integer up to
    [Number.MAX_SAFE_INTEGER] (2^53 - 1). *)
Definition parseInt (s : jsstring) : number :=
  let t := trimStart s in
  let '(sign, t) :=
    match t with
    | c :: t' =>
        if c =? 45 then ((-1)%Z, t')
        else if c =? 43 then (1%Z, t')
        else (1%Z, t)
    | [] => (1%Z, t)
    end in
  match leadingDigits t None with
  | Some z => Integer (sign * z)
  | None => NaN
  end.

(** *** Regular expressions *)

(** The fragment of the regular expression syntax used by the service.
    [Star p] is a greedy [[...]*] over a character class. *)
Inductive regex :=
| Chr (p : N -> bool)
| Seq (r1 r2 : regex)
| Opt (r : regex)
| Star (p : N -> bool)
| Eol.

Definition Plus (p : N -> bool) : regex := Seq (Chr p) (Star p).
Definition Lit (c : N) : regex := Chr (N.eqb c).

(** Backtracking matcher: match [r] at the start of [s] and hand the rest
    of the text to [k]; alternatives are tried in the priority order of
    ECMA-262 (a greedy quantifier takes as much as it can and gives back
    one character at a time). *)
Fixpoint matchHere {A} (r : regex) (s : jsstring)
    (k : jsstring -> option A) : option A :=
  match r with
  | Chr p =>
      match s with
      | c :: s' => if p c then k s' else None
      | [] => None
      end
  | Seq r1 r2 => matchHere r1 s (fun s' => matchHere r2 s' k)
  | Opt r1 =>
      match matchHere r1 s k with
      | Some x => Some x
      | None => k s
      end
  | Star p =>
      (fix star (s : jsstring) : option A :=
         match s with
         | c :: s' =>
             if p c
             then match star s' with
                  | Some x => Some x
                  | None => k s
                  end
             else k s
         | [] => k []
         end) s
  | Eol =>
      match s with
      | [] => k []
      | _ :: _ => None
      end
  end.

(** The text matched at the start of [s], if any. *)
Definition matchAt (r : regex) (s : jsstring) : option jsstring :=
  match matchHere r s Some with
  | Some rest => Some (take (length s - length rest) s)
  | None => None
  end.

(** The leftmost match. *)
Fixpoint search (r : regex) (s : jsstring) : option jsstring :=
  match matchAt r s with
  | Some m => Some m
  | None =>
      match s with
      | [] => None
      | _ :: s' => search r s'
      end
  end.

(** A regular expression literal without flags; [anchored] says that the
    pattern starts with [^]. *)
Record RegExp := { anchored : bool; body : regex }.

(** [String.prototype.match(re)]: the matched text ([result[0]]), or
    [None] for [null]. *)
Definition strMatch (s : jsstring) (re : RegExp) : option jsstring :=
  if anchored re then matchAt (body re) s else search (body re) s.

(** [RegExp.prototype.test] on a string. *)
Definition test (re : RegExp) (s : jsstring) : bool :=
  match strMatch s re with Some _ => true | None => false end.

(** *** JSON.parse *)

Definition isJsonWhiteSpace (c : N) : bool :=
  (c =? 9) || (c =? 10) || (c =? 13) || (c =? 32).

Fixpoint skipWhiteSpace (s : jsstring) : jsstring :=
  match s with
  | c :: s' => if isJsonWhiteSpace c then skipWhiteSpace s' else s
  | [] => []
  end.

Definition hexValue (c : N) : option N :=
  if isDigit c then Some (c - 48)
  else if (97 <=? c) && (c <=? 102) then Some (c - 87)
  else if (65 <=? c) && (c <=? 70) then Some (c - 55)
  else None.

Definition hex4 (a b c d : N) : option N :=
  match hexValue a, hexValue b, hexValue c, hexValue d with
  | Some x, Some y, Some z, Some w => Some (((x * 16 + y) * 16 + z) * 16 + w)
  | _, _, _, _ => None
  end.

(** The character written by a one-letter escape. *)
Definition escaped (c : N) : option N :=
  if c =? 34 then Some 34          (* quote *)
  else if c =? 92 then Some 92     (* backslash *)
  else if c =? 47 then Some 47     (* slash *)
  else if c =? 98 then Some 8      (* b *)
  else if c =? 102 then Some 12    (* f *)
  else if c =? 110 then Some 10    (* n *)
  else if c =? 114 then Some 13    (* r *)
  else if c =? 116 then Some 9     (* t *)
  else None.

Definition consChar (c : N) (r : option (jsstring * jsstring)) :
    option (jsstring * jsstring) :=
  match r with
  | Some (cs, rest) => Some (c :: cs, rest)
  | None => None
  end.

(** The characters of a string literal after its opening quote, up to the
    closing quote, and the text after it. *)
Fixpoint parseChars (s : jsstring) : option (jsstring * jsstring) :=
  match s with
  | [] => None
  | c :: r =>
      if c =? 34 then Some ([], r)
      else if c =? 92 then
        match r with
        | [] => None
        | e :: r1 =>
            if e =? 117 then
              match r1 with
              | a :: b :: c' :: d :: r2 =>
                  match hex4 a b c' d with
                  | Some u => consChar u (parseChars r2)
                  | None => None
                  end
              | _ => None
              end
            else
              match escaped e with
              | Some x => consChar x (parseChars r1)
              | None => None
              end
        end
      else if c <? 32 then None
      else consChar c (parseChars r)
  end.

(** The longest prefix of decimal digits and the text after it. *)
Fixpoint spanDigits (s : jsstring) : jsstring * jsstring :=
  match s with
  | c :: s' =>
      if isDigit c
      then let '(ds, rest) := spanDigits s' in (c :: ds, rest)
      else ([], s)
  | [] => ([], [])
  end.

Definition digitsValue (ds : jsstring) : Z :=
  fold_left (fun acc c => (10 * acc + Z.of_N (c - 48))%Z) ds 0%Z.

(** [m / 10^d] as a number in normal form. *)
Fixpoint scaleDown (d : nat) (m : Z) : number :=
  match d with
  | O => Integer m
  | S d' =>
      if (m mod 10 =? 0)%Z then scaleDown d' (m / 10)
      else Fraction m (Pos.of_nat d)
  end.

(** The number [m * 10^e]. *)
Definition decimal (m e : Z) : number :=
  if (m =? 0)%Z then Integer 0
  else if (0 <=? e)%Z then Integer (m * 10 ^ e)
  else scaleDown (Z.to_nat (- e)) m.

(** The digits after [c], when [c] starts them; at least one is needed. *)
Definition someDigits (s : jsstring) : option (jsstring * jsstring) :=
  match spanDigits s with
  | ([], _) => None
  | (ds, rest) => Some (ds, rest)
  end.

(** The integer part: a single [0], or digits that do not start with [0]. *)
Definition parseInt10 (s : jsstring) : option (jsstring * jsstring) :=
  match s with
  | c :: r => if c =? 48 then Some ([c], r) else someDigits s
  | [] => None
  end.

Definition parseFraction (s : jsstring) : option (jsstring * jsstring) :=
  match s with
  | c :: r => if c =? 46 then someDigits r else Some ([], s)
  | [] => Some ([], s)
  end.

Definition parseExponent (s : jsstring) : option (Z * jsstring) :=
  match s with
  | c :: r =>
      if (c =? 101) || (c =? 69) then
        let '(esign, r1) :=
          match r with
          | d :: r' =>
              if d =? 45 then ((-1)%Z, r')
              else if d =? 43 then (1%Z, r')
              else (1%Z, r)
          | [] => (1%Z, r)
          end in
        match someDigits r1 with
        | Some (es, r2) => Some ((esign * digitsValue es)%Z, r2)
        | None => None
        end
      else Some (0%Z, s)
  | [] => Some (0%Z, s)
  end.

(** A JSON number: [-? int frac? exp?]. *)
Definition parseNumber (s : jsstring) : option (number * jsstring) :=
  let '(negative, s1) :=
    match s with
    | c :: r => if c =? 45 then (true, r) else (false, s)
    | [] => (false, s)
    end in
  match parseInt10 s1 with
  | None => None
  | Some (ints, s2) =>
      match parseFraction s2 with
      | None => None
      | Some (fracs, s3) =>
          match parseExponent s3 with
          | None => None
          | Some (e, s4) =>
              let m := digitsValue (ints ++ fracs) in
              let m := if negative then (- m)%Z else m in
              Some (decimal m (e - Z.of_nat (length fracs)), s4)
          end
      end
  end.

Inductive parsed (A : Type) :=
| Parsed (a : A) (rest : jsstring)
| Unexpected      (* the text is not JSON *)
| Exhausted.      (* the recursion budget ran out *)
Arguments Parsed {A} a rest.
Arguments Unexpected {A}.
Arguments Exhausted {A}.

(** Recursive descent over the JSON grammar.  [parseValue] skips the white
    space around the value; [parseElements] and [parseMembers] read what
    follows [[] and [{] up to the closing bracket.  A repeated key keeps
    its first position and takes the last value. *)
Fixpoint parseValue (budget : nat) (s : jsstring) : parsed value :=
  match budget with
  | O => Exhausted
  | S budget' =>
      match skipWhiteSpace s with
      | [] => Unexpected
      | (c :: r) as t =>
          if c =? 123 then          (* { *)
            match skipWhiteSpace r with
            | [] => Unexpected
            | (d :: r') as inner =>
                if d =? 125 then Parsed (VObj []) (skipWhiteSpace r')
                else parseMembers budget' inner []
            end
          else if c =? 91 then      (* [ *)
            match skipWhiteSpace r with
            | [] => Unexpected
            | (d :: r') as inner =>
                if d =? 93 then Parsed (VArr []) (skipWhiteSpace r')
                else parseElements budget' inner []
            end
          else if c =? 34 then      (* string *)
            match parseChars r with
            | Some (cs, r') => Parsed (VStr cs) (skipWhiteSpace r')
            | None => Unexpected
            end
          else if isPrefix (js "true") t then
            Parsed (VBool true) (skipWhiteSpace (drop 4 t))
          else if isPrefix (js "false") t then
            Parsed (VBool false) (skipWhiteSpace (drop 5 t))
          else if isPrefix (js "null") t then
            Parsed VNull (skipWhiteSpace (drop 4 t))
          else
            match parseNumber t with
            | Some (n, r') => Parsed (VNum n) (skipWhiteSpace r')
            | None => Unexpected
            end
      end
  end
with parseElements (budget : nat) (s : jsstring) (acc : list value) : parsed value :=
  match budget with
  | O => Exhausted
  | S budget' =>
      match parseValue budget' s with
      | Parsed v [] => Unexpected
      | Parsed v (c :: r) =>
          if c =? 44 then parseElements budget' r (acc ++ [v])
          else if c =? 93 then Parsed (VArr (acc ++ [v])) (skipWhiteSpace r)
          else Unexpected
      | Unexpected => Unexpected
      | Exhausted => Exhausted
      end
  end
with parseMembers (budget : nat) (s : jsstring) (acc : props) : parsed value :=
  match budget with
  | O => Exhausted
  | S budget' =>
      match skipWhiteSpace s with
      | [] => Unexpected
      | q :: r =>
          if q =? 34 then
            match parseChars r with
            | Some (key, r1) =>
                match skipWhiteSpace r1 with
                | [] => Unexpected
                | colon :: r2 =>
                    if colon =? 58 then
                      match parseValue budget' r2 with
                      | Parsed v [] => Unexpected
                      | Parsed v (c :: r3) =>
                          if c =? 44 then parseMembers budget' r3 (set acc key v)
                          else if c =? 125 then
                            Parsed (VObj (set acc key v)) (skipWhiteSpace r3)
                          else Unexpected
                      | Unexpected => Unexpected
                      | Exhausted => Exhausted
                      end
                    else Unexpected
                end
            | None => Unexpected
            end
          else Unexpected
      end
  end.

(** [JSON.parse(text)]: the whole text must be one JSON value.  Numbers
    are kept exact, where the code has the nearest number, and the
    members of an object are kept in the order of the text, where the
    code lists names that are array indices first; the service reads
    the members by name. *)
Definition JSON_parse (text : jsstring) : completion value :=
  match parseValue (2 * length text + 2) text with
  | Parsed v [] => Normal v
  | _ => Throw SyntaxError
  end.

End JS.

(** ** The translation service *)

Import JS.

(** A JavaScript object as [validateQuery] sees it: named own properties
    and, when the object is an array, its elements.  The properties read
    and written by the service are never array indices. *)
Record jsobject := { elements : option (list value); properties : props }.

Definition getField (o : jsobject) (k : string) : value :=
  get (properties o) (js k).

Definition setField (o : jsobject) (k : string) (v : value) : jsobject :=
  {| elements := elements o; properties := set (properties o) (js k) v |}.

Definition deleteField (o : jsobject) (k : string) : jsobject :=
  {| elements := elements o; properties := remove (properties o) (js k) |}.

(** The two cached fields of the class: [services] and [serviceRoutes]
    (an object used as a map from service name to routes).  An assignment
    to the name [__proto__] replaces the prototype of that object and the
    name reads back as the assigned routes, as in the map; what other
    missing names read afterwards is not modelled. *)
Record service := {
  services : list jsstring;
  serviceRoutes : gmap jsstring (list jsstring)
}.

(** Names that every object inherits from [Object.prototype]: reading one
    of them from [serviceRoutes] gives a function or an object, not
    [undefined], when there is no own entry of that name. *)
Definition objectPrototypeMembers : list jsstring :=
  List.map js ["constructor"; "__defineGetter__"; "__defineSetter__";
    "hasOwnProperty"; "__lookupGetter__"; "__lookupSetter__";
    "isPrototypeOf"; "propertyIsEnumerable"; "toString"; "valueOf";
    "__proto__"; "toLocaleString"]%string.

(** The class [[hdms]]. *)
Definition isUnit (c : N) : bool :=
  (c =? 104) || (c =? 100) || (c =? 109) || (c =? 115).

(** The class [[a-zA-Z0-9._-]]. *)
Definition isKeyChar (c : N) : bool :=
  isLower c || isUpper c || isDigit c || (c =? 46) || (c =? 95) || (c =? 45).

Definition lookbackRegex : RegExp :=   (* /^\d+[hdms]$/ *)
  {| anchored := true;
     body := Seq (Plus isDigit) (Seq (Chr isUnit) Eol) |}.

Definition durationRegex : RegExp :=   (* /^\d+(\.\d+)?[hdms]$/ *)
  {| anchored := true;
     body := Seq (Plus isDigit)
            (Seq (Opt (Seq (Lit 46) (Plus isDigit)))
            (Seq (Chr isUnit) Eol)) |}.

Definition tagRegex : RegExp :=   (* /^[a-zA-Z0-9._-]+=/ *)
  {| anchored := true;
     body := Seq (Plus isKeyChar) (Lit 61) |}.

Definition jsonRegex : RegExp :=   (* /\{[\s\S]*\}/ *)
  {| anchored := false;
     body := Seq (Lit 123) (Seq (Star (fun _ => true)) (Lit 125)) |}.

Notation "'letc' x := c 'in' k" := (cbind c (fun x => k))
  (at level 10, x name, c at level 100, k at level 200).

(** [this.services.includes(v)]: the cached names are strings, so only a
    string can be equal to one of them. *)
Definition includesValue (l : list jsstring) (v : value) : bool :=
  match v with
  | VStr s => includes l s
  | _ => false
  end.

Definition invalidServiceMessage (name : jsstring) (known : list jsstring) : jsstring :=
  jsq "Invalid service `" ++ name ++ jsq "`. Available services are: " ++
  join (js ", ") known.

(** The callback of [tagPairs.filter] in [validateQuery]. *)
Definition validTag (this : service) (query : jsobject) (pair : jsstring) : completion bool :=
  let parts := split 61 pair in
  let key := nth 0 parts [] in
  let value := nth 1 parts [] in   (* [undefined] and the empty string are both falsy *)
  if str_eqb key [] || str_eqb value [] then Normal false
  else if str_eqb key (js "http.route") && ToBoolean (getField query "service") then
    letc name := ToString (getField query "service") in
    match serviceRoutes this !! name with
    | Some routes => Normal (includes routes value)
    | None =>
        if includes objectPrototypeMembers name
        then Throw TypeError    (* an inherited member has no [includes] *)
        else Normal false       (* [undefined?.includes(...) || false] *)
    end
  else Normal (test tagRegex pair).

Fixpoint filterC {A} (f : A -> completion bool) (l : list A) : completion (list A) :=
  match l with
  | [] => Normal []
  | x :: rest =>
      letc keep := f x in
      letc rest' := filterC f rest in
      Normal (if keep then x :: rest' else rest')
  end.

(** The blocks of [validateQuery], in the order of the source.  The
    object is updated in place there; here every block returns the
    updated object. *)

(** Lines 223 to 228: [limit]. *)
Definition normalizeLimit (query : jsobject) : completion jsobject :=
  letc query :=
    (let limit := getField query "limit" in
     if ToBoolean limit && negb (isNumber limit) then
       letc text := ToString limit in    (* the argument of [parseInt] *)
       let parsed := parseInt text in
       Normal (setField query "limit"
                 (VNum (if ToBoolean (VNum parsed) then parsed else Integer 100)))
     else Normal query) in
  Normal (if negb (ToBoolean (getField query "limit"))
          then setField query "limit" (VNum (Integer 100))
          else query).

(** Lines 231 to 233: [service]. *)
Definition checkService (this : service) (query : jsobject) : completion unit :=
  let name := getField query "service" in
  if ToBoolean name && negb (includesValue (services this) name) then
    letc text := ToString name in        (* the template literal *)
    Throw (Error (invalidServiceMessage text (services this)))
  else Normal tt.

(** Lines 236 to 238: [lookback]. *)
Definition normalizeLookback (query : jsobject) : completion jsobject :=
  let lookback := getField query "lookback" in
  if ToBoolean lookback then
    letc text := ToString lookback in    (* the argument of [test] *)
    Normal (if negb (test lookbackRegex text)
            then setField query "lookback" (VStr (js "1h"))
            else query)
  else Normal query.

(** Lines 242 to 247: [minDuration] and [maxDuration]. *)
Definition normalizeDuration (field : string) (query : jsobject) : completion jsobject :=
  let duration := getField query field in
  if ToBoolean duration then
    letc text := ToString duration in
    Normal (if negb (test durationRegex text)
            then deleteField query field
            else query)
  else Normal query.

(** Lines 250 to 264: [tags]. *)
Definition normalizeTags (this : service) (query : jsobject) : completion jsobject :=
  let tags := getField query "tags" in
  if ToBoolean tags then
    match tags with
    | VStr text =>
        let tagPairs := split 32 text in
        letc validTags := filterC (validTag this query) tagPairs in
        let joined := join (js " ") validTags in
        Normal (setField query "tags"
                  (if ToBoolean (VStr joined) then VStr joined else VUndefined))
    | _ => Throw TypeError    (* [query.tags.split] is not a function *)
    end
  else Normal query.

Definition validateQuery (this : service) (query : jsobject) : completion jsobject :=
  letc query := normalizeLimit query in
  letc _ := checkService this query in
  letc query := normalizeLookback query in
  letc query := normalizeDuration "minDuration" query in
  letc query := normalizeDuration "maxDuration" query in
  normalizeTags this query.

(** The argument of [validateQuery] as an object.  Reading a property of
    [null] throws; a primitive has none of the properties, and the
    assignment of [limit] to it throws in strict code. *)
Definition toObject (result : value) : completion jsobject :=
  match result with
  | VObj o => Normal {| elements := None; properties := o |}
  | VArr l => Normal {| elements := Some l; properties := [] |}
  | _ => Throw TypeError
  end.

(** Lines 199 to 210 of the source: the JSON object in the text of the
    model. *)
Definition extractJson (response : jsstring) : completion value :=
  match JSON_parse response with
  | Normal result => Normal result
  | Throw _ =>
      match strMatch response jsonRegex with
      | None => Throw (Error (js "No valid JSON object found in the response"))
      | Some jsonMatch => JSON_parse jsonMatch
      end
  end.

Definition SYSTEM_PROMPT : jsstring := jsq "
### Instructions:
Your task is to convert a natural language question into a Jaeger trace search query, formatted as a JSON object that adheres to the following interface:
- **Fields**:
  - service: string (must be one of the available services listed below)
  - tags: string (logfmt format, e.g., `error=true http.status_code=500 http.method=GET http.route=/v1/login`)
  - lookback: string (time window, e.g., `1h`, `24h`, `7d`)
  - limit: number (integer, e.g., 100, 20)
  - minDuration: string (e.g., `100ms`, `1s`, `2m`)
  - maxDuration: string (e.g., `5s`, `1m`, `10m`)

### Available Services and Routes:
{services}

### Rules:
- Analyze the question carefully, word by word, to map terms to the correct fields.
- Use only the fields listed above; do not invent new fields like `outcome` or `status`.
- For tags, use common HTTP or error-related keys (e.g., `error`, `http.status_code`, `http.method`, `http.route`) when applicable.
- When specifying routes, use the exact route from the available routes list in the format `http.route=/exact/route`.
- If a term doesn't clearly map to a field, omit it or include it in `tags` if it fits logfmt format.
- If no limit is specified, default to 100.
- The service field MUST be one of the available services listed above.
- IMPORTANT: Respond with ONLY the JSON object. Do not include any explanatory text, notes, or comments.
- The response must be a valid JSON object that can be parsed directly.

### Examples:

#### Input: `What are the slowest traces for the payment service in the last 2 hours?`
#### Output:
{
  `service`: `payment`,
  `lookback`: `2h`,
  `minDuration`: `1s`,
  `limit`: 100
}

#### Input: `Show me traces for the auth-service with route /v1/login over the past 24 hours.`
#### Output:
{
  `service`: `auth-service`,
  `tags`: `http.route=/v1/login`,
  `lookback`: `24h`,
  `limit`: 100
}

#### Input: `Find traces for the order service that failed with status 500 in the last 1 hour.`
#### Output:
{
  `service`: `order`,
  `tags`: `error=true http.status_code=500`,
  `lookback`: `1h`,
  `limit`: 100
}

#### Input: `What traces in the payment service took between 500ms and 2s in the last 3 days?`
#### Output:
{
  `service`: `payment`,
  `lookback`: `3d`,
  `minDuration`: `500ms`,
  `maxDuration`: `2s`,
  `limit`: 100
}

#### Input: `Show traces for the checkout service with GET requests that failed yesterday.`
#### Output:
{
  `service`: `checkout`,
  `tags`: `http.method=GET error=true`,
  `lookback`: `24h`,
  `limit`: 100
}

#### Input: `Give me the 50 slowest traces for the boatcruize-backend service.`
#### Output:
{
  `service`: `boatcruize-backend`,
  `minDuration`: `1s`,
  `limit`: 50
}

### Input:
`{query}`
### Output:
".

(** The prompt for a metadata text and a query. *)
Definition renderPrompt (template servicesInfo query : jsstring) : jsstring :=
  replace (replace template (js "{services}") servicesInfo) (js "{query}") query.

(** *** Network, console and the cached state *)

(** What [fetch] resolves to.  [json] is the parsed body, [None] when the
    body is not JSON ([response.json()] rejects). *)
Record httpResponse (A : Type) := {
  status : N;
  statusText : jsstring;
  json : option A
}.
Arguments status {A} h.
Arguments statusText {A} h.
Arguments json {A} h.

(** [response.ok]: the status is in the range 200 to 299. *)
Definition ok {A} (h : httpResponse A) : bool :=
  (200 <=? status h) && (status h <=? 299).

Inductive fetched (A : Type) :=
| Unreachable                       (* [fetch] rejects: no connection *)
| TimedOut                          (* the [AbortSignal.timeout] fired first *)
| Responded (r : httpResponse A).
Arguments Unreachable {A}.
Arguments TimedOut {A}.
Arguments Responded {A} r.

(** Body of the metadata API, [{ data: string[] }]; [data] may be missing. *)
Record metadata := { data : option (list jsstring) }.

(** Body of the generation API, [{ response: string }]. *)
Record generation := { response : jsstring }.

(** The requests of the service.
    - [GetVersion]: [GET this.healthEndpoint], time limit 5000 ms;
    - [GetServices]: [GET ${DEFAULT_API_ROOT}services];
    - [GetOperations s]: [GET ${DEFAULT_API_ROOT}services/${encodeURIComponent(s)}/operations];
    - [PostGenerate]: [POST this.endpoint] with the JSON of the request
      body, time limit 30000 ms. *)
Inductive request :=
| GetVersion
| GetServices
| GetOperations (name : jsstring)
| PostGenerate (model prompt : jsstring) (stream : bool).

Definition healthEndpoint : jsstring := js "http://localhost:11434/api/version".
Definition endpoint : jsstring := js "http://localhost:11434/api/generate".

Definition timeLimit (r : request) : option N :=
  match r with
  | GetVersion => Some 5000
  | PostGenerate _ _ _ => Some 30000
  | GetServices | GetOperations _ => None
  end.

(** The answers of the two collaborators during one call. *)
Record network := {
  versionApi : fetched unit;
  servicesApi : fetched metadata;
  operationsApi : jsstring -> fetched metadata;
  generateApi : jsstring -> fetched generation
}.

(** Observable effects, in the order in which they happen.  The label of
    a console line is its first argument. *)
Inductive effect :=
| Fetch (r : request)
| ConsoleLog (label : jsstring)
| ConsoleError (label : jsstring).

Record world := { this : service; effects : list effect }.

(** Computations of the service: they read and update the cached fields,
    append effects, and return or throw. *)
Definition M (A : Type) : Type := world -> completion A * world.

Definition ret {A} (a : A) : M A := fun w => (Normal a, w).

Definition throw {A} (e : exn) : M A := fun w => (Throw e, w).

Definition bind {A B} (c : M A) (k : A -> M B) : M B :=
  fun w =>
    match c w with
    | (Normal a, w') => k a w'
    | (Throw e, w') => (Throw e, w')
    end.

(** [try { c } catch (error) { handler error }]. *)
Definition tryCatch {A} (c : M A) (handler : exn -> M A) : M A :=
  fun w =>
    match c w with
    | (Normal a, w') => (Normal a, w')
    | (Throw e, w') => handler e w'
    end.

Definition perform (e : effect) : M unit :=
  fun w => (Normal tt, {| this := this w; effects := effects w ++ [e] |}).

Definition getThis : M service := fun w => (Normal (this w), w).

Definition setThis (s : service) : M unit :=
  fun w => (Normal tt, {| this := s; effects := effects w |}).

Definition lift {A} (c : completion A) : M A := fun w => (c, w).

Notation "'letm' x := c 'in' k" := (bind c (fun x => k))
  (at level 10, x name, c at level 100, k at level 200).
Notation "c ';;' k" := (bind c (fun _ => k))
  (at level 100, k at level 200, right associativity, only parsing).

(** [await fetch(...)]. *)
Definition fetch {A} (r : request) (answer : fetched A) : M (httpResponse A) :=
  perform (Fetch r) ;;
  match answer with
  | Unreachable => throw TypeError
  | TimedOut => throw TimeoutError
  | Responded h => ret h
  end.

(** [await response.json()]. *)
Definition readJson {A} (h : httpResponse A) : M A :=
  match json h with
  | Some body => ret body
  | None => throw SyntaxError
  end.

Definition isHighSurrogate (c : N) : bool := (55296 <=? c) && (c <=? 56319).
Definition isLowSurrogate (c : N) : bool := (56320 <=? c) && (c <=? 57343).

(** [encodeURIComponent] throws a [URIError] on a string with a lone
    surrogate; this is the test that it does not. *)
Fixpoint isWellFormed (s : jsstring) : bool :=
  match s with
  | [] => true
  | c :: r =>
      if isHighSurrogate c then
        match r with
        | d :: r' => isLowSurrogate d && isWellFormed r'
        | [] => false
        end
      else if isLowSurrogate c then false
      else isWellFormed r
  end.

Fixpoint forEach {A} (l : list A) (f : A -> M unit) : M unit :=
  match l with
  | [] => ret tt
  | x :: rest => f x ;; forEach rest f
  end.

Definition setRoutes (name : jsstring) (routes : list jsstring) : M unit :=
  letm self := getThis in
  setThis {| services := services self;
             serviceRoutes := <[name := routes]> (serviceRoutes self) |}.

Definition fetchServiceOperations (net : network) (name : jsstring) : M unit :=
  tryCatch
    ((if isWellFormed name then ret tt else throw URIError) ;;
     letm response := fetch (GetOperations name) (operationsApi net name) in
     if negb (ok response) then
       throw (Error (js "Failed to fetch operations for " ++ name ++ js ": " ++
                     statusText response))
     else
       letm body := readJson response in
       setRoutes name (default [] (data body)))
    (fun error =>
       perform (ConsoleError (js "Failed to fetch operations for " ++ name ++ js ":")) ;;
       setRoutes name []).

Definition metadataFetchError : exn :=
  Error (js "Failed to fetch available services. Please try again later.").

(** [Promise.all] over the operations fetches: each of them writes the
    entry of its own service only and never rejects, so they are run one
    after the other.  The code sends every request before it handles an
    answer: in its log the effects of different services may come in
    another order than here. *)
Definition fetchServices (net : network) : M (list jsstring) :=
  tryCatch
    (letm response := fetch GetServices (servicesApi net) in
     if negb (ok response) then
       throw (Error (js "Failed to fetch services: " ++ statusText response))
     else
       letm body := readJson response in
       letm self := getThis in
       setThis {| services := default [] (data body);
                  serviceRoutes := serviceRoutes self |} ;;
       letm self := getThis in
       forEach (services self) (fetchServiceOperations net) ;;
       letm self := getThis in
       ret (services self))
    (fun error =>
       perform (ConsoleError (js "Failed to fetch services:")) ;;
       throw metadataFetchError).

Definition backendUnavailableError : exn :=
  Error (js "Ollama service is not available. Please ensure Ollama is installed and running on port 11434. " ++
         js "Visit https://ollama.ai for installation instructions.").

(** The optional second argument of [translateQuery]. *)
Record context := { selectedService : option jsstring }.

(** [context?.selectedService] as a condition: a non-empty string. *)
Definition selected (ctx : option context) : option jsstring :=
  match ctx with
  | Some {| selectedService := Some (c :: name) |} => Some (c :: name)
  | _ => None
  end.

(** [this.serviceRoutes[name].join(', ')]: without an own entry the value
    read is [undefined] or an inherited member, and neither has [join]. *)
Definition joinedRoutes (self : service) (name : jsstring) : completion jsstring :=
  match serviceRoutes self !! name with
  | Some routes => Normal (join (js ", ") routes)
  | None => Throw TypeError
  end.

Fixpoint mapC {A B} (f : A -> completion B) (l : list A) : completion (list B) :=
  match l with
  | [] => Normal []
  | x :: rest =>
      letc y := f x in
      letc rest' := mapC f rest in
      Normal (y :: rest')
  end.

Definition servicesInfo (self : service) (ctx : option context) : completion jsstring :=
  match selected ctx with
  | Some name =>
      letc routes := joinedRoutes self name in
      Normal (js "Selected service: " ++ name ++ [10] ++ js "Available routes: " ++ routes)
  | None =>
      letc lines :=
        mapC (fun name =>
                letc routes := joinedRoutes self name in
                Normal (name ++ js " (routes: " ++ routes ++ js ")"))
             (services self) in
      Normal (join [10] lines)
  end.

(** Lines 146 to 159: the health check. *)
Definition checkHealth (net : network) : M unit :=
  tryCatch
    (letm healthCheck := fetch GetVersion (versionApi net) in
     if negb (ok healthCheck) then
       throw (Error (js "Ollama service returned status " ++
                     NumberToString (Integer (Z.of_N (status healthCheck)))))
     else ret tt)
    (fun error => throw backendUnavailableError).

(** Lines 162 to 164: fetch services and their operations if not already
    loaded. *)
Definition ensureLoaded (net : network) : M unit :=
  letm self := getThis in
  if (length (services self) =? 0)%nat
  then fetchServices net ;; ret tt
  else ret tt.

Definition translateQuery (net : network) (query : jsstring)
    (ctx : option context) : M jsobject :=
  perform (ConsoleLog (js "Starting translation for query:")) ;;
  tryCatch
    (checkHealth net ;;
     ensureLoaded net ;;
     letm self := getThis in
     letm info := lift (servicesInfo self ctx) in
     let prompt := renderPrompt SYSTEM_PROMPT info query in
     perform (ConsoleLog (js "Request body:")) ;;
     letm reply :=
       fetch (PostGenerate (js "llama3.1") prompt false) (generateApi net prompt) in
     if negb (ok reply) then
       throw (Error (js "API request failed: " ++ statusText reply))
     else
       letm body := readJson reply in
       perform (ConsoleLog (js "Raw response data:")) ;;
       letm result := lift (extractJson (response body)) in
       perform (ConsoleLog (js "Parsed result:")) ;;
       letm self := getThis in
       lift (letc query := toObject result in validateQuery self query))
    (fun error =>
       perform (ConsoleError (js "AI translation failed:")) ;;
       throw error).

(** ** The search form that calls the service (AISearchForm.jsx) *)

Module AISearchForm.

(** [this.state] of the component. *)
Record state := {
  query : jsstring;
  selectedService : option jsstring;     (* [undefined], or the name chosen *)
  isTranslating : bool;
  translatedQuery : option jsobject;     (* [null], or the query on display *)
  error : option jsstring                (* [null], or the message on display *)
}.

(** [v[k]] for a value that is not [null] or [undefined]: only an object
    has named properties of its own. *)
Definition property (v : value) (k : string) : value :=
  match v with
  | VObj o => get o (js k)
  | _ => VUndefined
  end.

(** [v === s] for a string [s]. *)
Definition strictEquals (v : value) (s : jsstring) : bool :=
  match v with
  | VStr t => str_eqb t s
  | _ => false
  end.

(** Lines 26 to 32: the service of the last search, when the form offers
    it.  [lastSearch] is what the local store holds under that name and
    [services] are the names in [props.services]. *)
Definition lastSearchService (lastSearch : value) (services : list jsstring) :
    option jsstring :=
  let service := property lastSearch "service" in
  if ToBoolean lastSearch && ToBoolean service && negb (strictEquals service (js "-")) then
    if existsb (strictEquals service) services then
      match service with
      | VStr name => Some name
      | _ => None
      end
    else None
  else None.

(** Lines 34 to 40: the state set by the constructor. *)
Definition initialState (lastSearch : value) (services : list jsstring) : state :=
  {| query := [];
     selectedService := lastSearchService lastSearch services;
     isTranslating := false;
     translatedQuery := None;
     error := None |}.

Definition handleQueryChange (text : jsstring) (s : state) : state :=
  {| query := text;
     selectedService := selectedService s;
     isTranslating := isTranslating s;
     translatedQuery := translatedQuery s;
     error := error s |}.

Definition handleServiceChange (name : option jsstring) (s : state) : state :=
  {| query := query s;
     selectedService := name;
     isTranslating := isTranslating s;
     translatedQuery := translatedQuery s;
     error := error s |}.

(** The selected service as a value. *)
Definition undefinedOr (name : option jsstring) : value :=
  match name with
  | Some text => VStr text
  | None => VUndefined
  end.

(** [String.prototype.trim]: white space and line terminators are removed
    at both ends. *)
Definition trim (s : jsstring) : jsstring :=
  rev (trimStart (rev (trimStart s))).

(** Line 168: the condition under which the submit button is disabled. *)
Definition submitDisabled (s : state) : bool :=
  negb (ToBoolean (VStr (trim (query s)))) ||
  negb (ToBoolean (undefinedOr (selectedService s))).

Section Component.

(** [error.message] of an error raised by the runtime: the engine chooses
    its text.  [this.props.submitFormHandler] is a property of the
    component: it returns or throws. *)
Variable runtimeMessage : exn -> jsstring.
Variable submitFormHandler : jsobject -> completion unit.

Definition message (e : exn) : jsstring :=
  match e with
  | Error text => text
  | _ => runtimeMessage e
  end.

(** Lines 55 to 80.  The result is the state of the component when the
    handler is done, the world of the service, and the argument of
    [submitFormHandler] when it was called.  The state read at the start
    is the one that the later [setState] calls update; the state in
    between, with [isTranslating] set, is not part of the result. *)
Definition handleSubmit (net : network) (s : state) (w : world) :
    state * world * option jsobject :=
  match translateQuery net (query s) (Some (Build_context (selectedService s))) w with
  | (Normal translatedQuery', w') =>
      let translated :=
        setField translatedQuery' "service" (undefinedOr (selectedService s)) in
      match submitFormHandler translated with
      | Normal _ =>
          ({| query := query s;
              selectedService := selectedService s;
              isTranslating := false;
              translatedQuery := Some translated;
              error := None |}, w', Some translated)
      | Throw e =>
          ({| query := query s;
              selectedService := selectedService s;
              isTranslating := false;
              translatedQuery := Some translated;
              error := Some (message e) |}, w', Some translated)
      end
  | (Throw e, w') =>
      ({| query := query s;
          selectedService := selectedService s;
          isTranslating := false;
          translatedQuery := translatedQuery s;
          error := Some (message e) |}, w', None)
  end.

End Component.

End AISearchForm.

(** ** The service before it knew the routes

    The text of AISearchForm.jsx goes on, after the component, with an
    earlier version of the class: it caches the service names only, and
    its [validateQuery] differs from the one above in the callback of the
    filter of the tags. *)

Module Earlier.

(** The callback of [tagPairs.filter]: [key && value && regex.test(pair)]. *)
Definition validTag (pair : jsstring) : bool :=
  let parts := split 61 pair in
  let key := nth 0 parts [] in
  let value := nth 1 parts [] in   (* [undefined] and the empty string are both falsy *)
  if str_eqb key [] then false
  else if str_eqb value [] then false
  else test tagRegex pair.

Definition normalizeTags (query : jsobject) : completion jsobject :=
  let tags := getField query "tags" in
  if ToBoolean tags then
    match tags with
    | VStr text =>
        let tagPairs := split 32 text in
        let validTags := List.filter validTag tagPairs in
        let joined := join (js " ") validTags in
        Normal (setField query "tags"
                  (if ToBoolean (VStr joined) then VStr joined else VUndefined))
    | _ => Throw TypeError    (* [query.tags.split] is not a function *)
    end
  else Normal query.

(** [known] is the field [services] of the class, its only cache. *)
Definition validateQuery (known : list jsstring) (query : jsobject) : completion jsobject :=
  letc query := normalizeLimit query in
  letc _ := checkService {| services := known; serviceRoutes := ∅ |} query in
  letc query := normalizeLookback query in
  letc query := normalizeDuration "minDuration" query in
  letc query := normalizeDuration "maxDuration" query in
  normalizeTags query.

End Earlier.


(** ** Vocabulary of the properties *)

(** Two objects agree outside the field [f]. *)
Definition agreeOutside (f : jsstring) (q q' : jsobject) : Prop :=
  elements q' = elements q /\
  forall k, k <> f ->
    get (properties q') k = get (properties q) k /\
    hasOwn (properties q') k = hasOwn (properties q) k.

(** What [normalizeLimit] stores: [parseInt(limit, 10) || 100] when the
    limit is truthy and not a number, the limit itself when it is a
    truthy number, and 100 otherwise. *)
Definition coercedLimit (limit : value) (text : jsstring) : number :=
  match limit with
  | VNum n => if ToBoolean limit then n else Integer 100
  | _ =>
      if ToBoolean limit
      then (if ToBoolean (VNum (parseInt text)) then parseInt text else Integer 100)
      else Integer 100
  end.


(** The empty catalog and an object with the given own properties. *)
Definition noServices : service := {| services := []; serviceRoutes := ∅ |}.

Definition object (o : props) : jsobject := {| elements := None; properties := o |}.

(** The longest prefix in a character class, and what follows it. *)
Fixpoint takeWhile (p : N -> bool) (s : jsstring) : jsstring :=
  match s with
  | c :: s' => if p c then c :: takeWhile p s' else []
  | [] => []
  end.

Fixpoint dropWhile (p : N -> bool) (s : jsstring) : jsstring :=
  match s with
  | c :: s' => if p c then dropWhile p s' else s
  | [] => []
  end.

(** One or more decimal digits. *)
Definition digits (ds : jsstring) : Prop :=
  ds <> [] /\ Forall (fun c => isDigit c = true) ds.

(** [^\d+[hdms]$]: digits and a unit. *)
Definition lookbackShape (text : jsstring) : Prop :=
  exists ds u, digits ds /\ isUnit u = true /\ text = ds ++ [u].

(** [^\d+(\.\d+)?[hdms]$]: digits, possibly a point and digits, a unit. *)
Definition durationShape (text : jsstring) : Prop :=
  exists ds frac u,
    digits ds /\
    (frac = [] \/ exists fs, digits fs /\ frac = 46 :: fs) /\
    isUnit u = true /\
    text = ds ++ frac ++ [u].

(** Matching what [lookbackRegex] has after the digits: a unit and the
    end of the text. *)
Definition unitAtEnd (s : jsstring) : option jsstring :=
  matchHere (Seq (Chr isUnit) Eol) s Some.

(** Matching what [durationRegex] has after its first digits. *)
Definition fractionAndUnit (s : jsstring) : option jsstring :=
  matchHere (Seq (Opt (Seq (Lit 46) (Plus isDigit))) (Seq (Chr isUnit) Eol)) s Some.


(** The outcome of a block, with a change to the object it returns. *)
Definition cmap {A B} (f : A -> B) (c : completion A) : completion B :=
  cbind c (fun a => Normal (f a)).




(** The tag rule in the words of the specification.  The key of a pair is
    its text before the first [=]; the value is the text between the
    first [=] and the next one (or the end). *)
Definition notEquals (c : N) : bool := negb (c =? 61).

Definition tagKey (pair : jsstring) : jsstring := takeWhile notEquals pair.

Definition tagValue (pair : jsstring) : jsstring :=
  takeWhile notEquals (drop 1 (dropWhile notEquals pair)).

(** The routes against which [http.route] is checked: those cached for
    the service of the query, when the query has a service. *)
Definition routesFor (this : service) (query : jsobject) : option (list jsstring) :=
  match getField query "service" with
  | VStr (c :: name) => Some (default [] (serviceRoutes this !! (c :: name)))
  | _ => None
  end.

(** A pair is kept when its key and its value are not empty and
    - the query has a service, the key is [http.route] and the value is
      one of the routes of the service, or
    - the query has no service or the key is another one, and the key is
      made of letters, digits, points, underscores and hyphens. *)
Definition keepsTag (routes : option (list jsstring)) (pair : jsstring) : bool :=
  negb (str_eqb (tagKey pair) []) && negb (str_eqb (tagValue pair) []) &&
  match routes with
  | Some known =>
      if str_eqb (tagKey pair) (js "http.route")
      then includes known (tagValue pair)
      else forallb isKeyChar (tagKey pair)
  | None => forallb isKeyChar (tagKey pair)
  end.

(** The value of [tags] for the pairs that are kept. *)
Definition tagsOf (kept : list jsstring) : value :=
  match kept with
  | [] => VUndefined
  | _ :: _ => VStr (join (js " ") kept)
  end.

(** Matching what [tagRegex] has after the key. *)
Definition equalsSign (s : jsstring) : option jsstring :=
  matchHere (Lit 61) s Some.

(** A catalog with one service and its routes. *)
Definition catalog (name : string) (routes : list string) : service :=
  {| services := [js name];
     serviceRoutes := {[ js name := List.map js routes ]} |}.

(** Matching what [jsonRegex] has after [[\s\S]*]: a closing brace. *)
Definition closingBrace (s : jsstring) : option jsstring :=
  matchHere (Lit 125) s Some.

(** *** Vocabulary for the effects *)

(** The health check fails: no connection, no answer within the time
    limit, or a status outside 200 to 299. *)
Definition healthFails (net : network) : bool :=
  match versionApi net with
  | Unreachable | TimedOut => true
  | Responded h => negb (ok h)
  end.

(** The body of a successful answer of the metadata API: [data.data || []]. *)
Definition listOf (answer : fetched metadata) : option (list jsstring) :=
  match answer with
  | Responded h =>
      if ok h then
        match json h with
        | Some body => Some (default [] (data body))
        | None => None
        end
      else None
  | Unreachable | TimedOut => None
  end.

(** The service names of the metadata API, [None] when the fetch of the
    list fails. *)
Definition listed (net : network) : option (list jsstring) :=
  listOf (servicesApi net).

(** The operations of a service, [None] when their fetch fails. *)
Definition operationsOf (net : network) (name : jsstring) : option (list jsstring) :=
  if isWellFormed name then listOf (operationsApi net name) else None.

Definition operationsFailure (name : jsstring) : effect :=
  ConsoleError (js "Failed to fetch operations for " ++ name ++ js ":").

(** The effects of [fetchServiceOperations]. *)
Definition operationsEffects (net : network) (name : jsstring) : list effect :=
  (if isWellFormed name then [Fetch (GetOperations name)] else []) ++
  match operationsOf net name with
  | Some _ => []
  | None => [operationsFailure name]
  end.

(** The routes object after the operations of [names] were fetched. *)
Definition routesAfter (net : network) (names : list jsstring)
    (routes : gmap jsstring (list jsstring)) : gmap jsstring (list jsstring) :=
  fold_left (fun m name => <[name := default [] (operationsOf net name)]> m) names routes.

(** The computation only adds effects to the log. *)
Definition appendOnly {A} (c : M A) : Prop :=
  forall w, exists added, effects (snd (c w)) = effects w ++ added.

Definition isGenerate (e : effect) : bool :=
  match e with
  | Fetch (PostGenerate _ _ _) => true
  | _ => false
  end.

(** A network that answers every request with status 200. *)
Definition answer {A} (body : A) : fetched A :=
  Responded {| status := 200; statusText := js "OK"; json := Some body |}.

Definition healthyNetwork (names : list jsstring) (text : jsstring) : network :=
  {| versionApi := answer tt;
     servicesApi := answer {| data := Some names |};
     operationsApi := fun _ => answer {| data := Some [] |};
     generateApi := fun _ => answer {| response := text |} |}.

Definition unreachableNetwork : network :=
  {| versionApi := Unreachable;
     servicesApi := Unreachable;
     operationsApi := fun _ => Unreachable;
     generateApi := fun _ => Unreachable |}.

Definition freshWorld : world := {| this := noServices; effects := [] |}.

(** The world with more effects in its log. *)
Definition logged (w : world) (added : list effect) : world :=
  {| this := this w; effects := effects w ++ added |}.

(** The world after the catalog was populated with [names]. *)
Definition populated (net : network) (names : list jsstring) (w : world) : world :=
  {| this := {| services := names;
                serviceRoutes := routesAfter net names (serviceRoutes (this w)) |};
     effects := effects w ++ Fetch GetServices ::
                concat (List.map (operationsEffects net) names) |}.

Definition translationStarted : effect :=
  ConsoleLog (js "Starting translation for query:").

Definition translationFailed : effect :=
  ConsoleError (js "AI translation failed:").

(** The world in which the steps after the health check start. *)
Definition afterHealthCheck (w : world) : world :=
  logged w [translationStarted; Fetch GetVersion].

(** An effect that is neither the generation request nor the console line
    that shows the rendered prompt. *)
Definition silent (e : effect) : Prop :=
  isGenerate e = false /\ e <> ConsoleLog (js "Request body:").


(** *** The prompt as the specification describes it *)

(** The parts of the template around its two placeholders. *)
Definition promptParts : jsstring * jsstring * jsstring :=
  match findFirst (js "{services}") SYSTEM_PROMPT with
  | Some (before, rest) =>
      match findFirst (js "{query}") rest with
      | Some (between, after) => (before, between, after)
      | None => (before, rest, [])
      end
  | None => (SYSTEM_PROMPT, [], [])
  end.

Definition promptBefore : jsstring := fst (fst promptParts).
Definition promptBetween : jsstring := snd (fst promptParts).
Definition promptAfter : jsstring := snd promptParts.

(** The template with [{services}] replaced by the metadata view and
    [{query}] by the text of the user, both as they are. *)
Definition verbatimPrompt (info query : jsstring) : jsstring :=
  promptBefore ++ info ++ promptBetween ++ query ++ promptAfter.

(** *** Vocabulary for the cache and the generation step *)

(** Every cached service name has an entry in the routes object. *)
Definition cataloged (self : service) : Prop :=
  forall name, In name (services self) -> is_Some (serviceRoutes self !! name).

(** A request to the metadata API. *)
Definition isMetadataFetch (e : effect) : bool :=
  match e with
  | Fetch GetServices | Fetch (GetOperations _) => true
  | _ => false
  end.

(** The error of the generation step for an answer of the generation API:
    no connection, no answer within the time limit, a status outside 200
    to 299, or a body that is not JSON. *)
Definition generationFailure (answer : fetched generation) : option exn :=
  match answer with
  | Unreachable => Some TypeError
  | TimedOut => Some TimeoutError
  | Responded reply =>
      if ok reply then
        match json reply with
        | Some _ => None
        | None => Some SyntaxError
        end
      else Some (Error (js "API request failed: " ++ statusText reply))
  end.

(** The console line and the request that carry the prompt. *)
Definition promptSent (prompt : jsstring) : list effect :=
  [ConsoleLog (js "Request body:"); Fetch (PostGenerate (js "llama3.1") prompt false)].

(** The five fields that [validateQuery] may write. *)
Definition normalizedFields : list jsstring :=
  List.map js ["limit"; "lookback"; "minDuration"; "maxDuration"; "tags"]%string.

(** A query that names no route: its tags, when they are a string, have
    no pair with the key [http.route]. *)
Definition noRouteTag (query : jsobject) : Prop :=
  forall text, getField query "tags" = VStr text ->
    Forall (fun pair => tagKey pair <> js "http.route") (split 32 text).

(** A field that is falsy, or whose text has the given shape. *)
Definition falsyOr (shape : jsstring -> Prop) (v : value) : Prop :=
  ToBoolean v = false \/ exists text, ToString v = Normal text /\ shape text.

(** *** The limit in the words of the specification *)

(** The text after its leading white space. *)
Definition afterWhiteSpace (text : jsstring) : jsstring :=
  dropWhile isStrWhiteSpaceChar text.

(** The sign of the numeral at the start of a text: a minus sign right
    after the white space makes it negative. *)
Definition numeralSign (text : jsstring) : Z :=
  match afterWhiteSpace text with
  | c :: _ => if c =? 45 then (-1)%Z else 1%Z
  | [] => 1%Z
  end.

(** The digits of the numeral at the start of a text: the decimal digits
    that follow the white space and at most one sign.  What comes after
    them is not read. *)
Definition numeralDigits (text : jsstring) : jsstring :=
  match afterWhiteSpace text with
  | c :: rest => takeWhile isDigit (if (c =? 45) || (c =? 43) then rest else c :: rest)
  | [] => []
  end.

(** The limit that a text stands for: the value of its numeral, and 100
    when the text has no numeral or the value is zero. *)
Definition limitOfText (text : jsstring) : number :=
  match numeralDigits text with
  | [] => Integer 100
  | ds =>
      if (digitsValue ds =? 0)%Z then Integer 100
      else Integer (numeralSign text * digitsValue ds)
  end.


(** * Properties *)

Arguments getField : simpl never.
Arguments setField : simpl never.
Arguments deleteField : simpl never.
Arguments ToBoolean : simpl never.
Arguments ToString : simpl never.
Arguments parseInt : simpl never.
Arguments test : simpl never.
Arguments js : simpl never.
Arguments jsq : simpl never.

(** ** Own properties *)

Lemma str_eqb_eq (a b : jsstring) : str_eqb a b = true <-> a = b.
Proof. unfold str_eqb. apply bool_decide_eq_true. Qed.

Lemma str_eqb_refl (a : jsstring) : str_eqb a a = true.
Proof. now apply str_eqb_eq. Qed.

Lemma str_eqb_ne (a b : jsstring) : a <> b -> str_eqb a b = false.
Proof.
  intros H. destruct (str_eqb a b) eqn:E; [|reflexivity].
  apply str_eqb_eq in E. contradiction.
Qed.

Lemma get_set_eq (o : props) k v : get (set o k v) k = v.
Proof.
  induction o as [|[k' v'] o IH]; simpl.
  - now rewrite str_eqb_refl.
  - destruct (str_eqb k k') eqn:E; simpl; rewrite E; [reflexivity | exact IH].
Qed.

Lemma get_set_ne (o : props) k k' v : k <> k' -> get (set o k v) k' = get o k'.
Proof.
  intros Hne. induction o as [|[k0 v0] o IH]; simpl.
  - rewrite (str_eqb_ne k' k); [reflexivity | congruence].
  - destruct (str_eqb k k0) eqn:E; simpl.
    + apply str_eqb_eq in E. subst k0.
      rewrite (str_eqb_ne k' k); [reflexivity | congruence].
    + now rewrite IH.
Qed.

Lemma hasOwn_set_eq (o : props) k v : hasOwn (set o k v) k = true.
Proof.
  induction o as [|[k' v'] o IH]; simpl.
  - now rewrite str_eqb_refl.
  - destruct (str_eqb k k') eqn:E; simpl; rewrite E; [reflexivity | exact IH].
Qed.

Lemma hasOwn_set_ne (o : props) k k' v : k <> k' -> hasOwn (set o k v) k' = hasOwn o k'.
Proof.
  intros Hne. induction o as [|[k0 v0] o IH]; simpl.
  - rewrite (str_eqb_ne k' k); [reflexivity | congruence].
  - destruct (str_eqb k k0) eqn:E; simpl.
    + reflexivity.
    + now rewrite IH.
Qed.

Lemma get_remove_eq (o : props) k : get (remove o k) k = VUndefined.
Proof.
  induction o as [|[k' v'] o IH]; simpl; [reflexivity|].
  destruct (str_eqb k k') eqn:E; simpl; [exact IH | now rewrite E].
Qed.

Lemma hasOwn_remove_eq (o : props) k : hasOwn (remove o k) k = false.
Proof.
  induction o as [|[k' v'] o IH]; simpl; [reflexivity|].
  destruct (str_eqb k k') eqn:E; simpl; [exact IH | now rewrite E].
Qed.

Lemma get_remove_ne (o : props) k k' : k <> k' -> get (remove o k) k' = get o k'.
Proof.
  intros Hne. induction o as [|[k0 v0] o IH]; simpl; [reflexivity|].
  destruct (str_eqb k k0) eqn:E; simpl.
  - apply str_eqb_eq in E. subst k0.
    rewrite (str_eqb_ne k' k); [exact IH | congruence].
  - now rewrite IH.
Qed.

Lemma hasOwn_remove_ne (o : props) k k' : k <> k' -> hasOwn (remove o k) k' = hasOwn o k'.
Proof.
  intros Hne. induction o as [|[k0 v0] o IH]; simpl; [reflexivity|].
  destruct (str_eqb k k0) eqn:E; simpl.
  - apply str_eqb_eq in E. subst k0.
    rewrite (str_eqb_ne k' k); [exact IH | congruence].
  - now rewrite IH.
Qed.

(** A property that reads as something else than [undefined] is an own
    property. *)
Lemma get_hasOwn (o : props) k : get o k <> VUndefined -> hasOwn o k = true.
Proof.
  induction o as [|[k' v'] o IH]; simpl; [congruence|].
  destruct (str_eqb k k'); simpl; auto.
Qed.

(** Overwriting an own property commutes with an assignment to another
    name: the order of the properties does not change. *)
Lemma set_set_comm (o : props) k k' v v' :
  k <> k' -> hasOwn o k = true ->
  set (set o k v) k' v' = set (set o k' v') k v.
Proof.
  intros Hne. induction o as [|[k0 v0] o IH]; simpl; [discriminate|].
  intros Hown.
  destruct (str_eqb k k0) eqn:E; simpl.
  - apply str_eqb_eq in E. subst k0.
    rewrite (str_eqb_ne k' k) by congruence. simpl.
    now rewrite str_eqb_refl.
  - destruct (str_eqb k' k0) eqn:E'; simpl; rewrite E; [reflexivity|].
    f_equal. apply IH. exact Hown.
Qed.

Lemma remove_set_comm (o : props) k k' v' :
  k <> k' -> remove (set o k' v') k = set (remove o k) k' v'.
Proof.
  intros Hne. induction o as [|[k0 v0] o IH]; simpl.
  - now rewrite (str_eqb_ne k k').
  - destruct (str_eqb k' k0) eqn:E'; destruct (str_eqb k k0) eqn:E; simpl;
      rewrite ?E, ?E'; try reflexivity.
    + apply str_eqb_eq in E, E'. congruence.
    + exact IH.
    + now rewrite IH.
Qed.

Lemma remove_remove_comm (o : props) k k' :
  remove (remove o k) k' = remove (remove o k') k.
Proof.
  induction o as [|[k0 v0] o IH]; simpl; [reflexivity|].
  destruct (str_eqb k k0) eqn:E; destruct (str_eqb k' k0) eqn:E'; simpl;
    rewrite ?E, ?E'; try exact IH.
  now rewrite IH.
Qed.

(** ** Fields of the query object *)

Lemma agreeOutside_refl f q : agreeOutside f q q.
Proof. split; [reflexivity | intros; split; reflexivity]. Qed.

Lemma agreeOutside_trans f q1 q2 q3 :
  agreeOutside f q1 q2 -> agreeOutside f q2 q3 -> agreeOutside f q1 q3.
Proof.
  intros [E1 H1] [E2 H2]. split; [congruence|].
  intros k Hk. destruct (H1 k Hk), (H2 k Hk). split; congruence.
Qed.

Lemma agreeOutside_setField f q v : agreeOutside (js f) q (setField q f v).
Proof.
  split; [reflexivity|]. intros k Hk. unfold setField; simpl. split.
  - apply get_set_ne. congruence.
  - apply hasOwn_set_ne. congruence.
Qed.

Lemma agreeOutside_deleteField f q : agreeOutside (js f) q (deleteField q f).
Proof.
  split; [reflexivity|]. intros k Hk. unfold deleteField; simpl. split.
  - apply get_remove_ne. congruence.
  - apply hasOwn_remove_ne. congruence.
Qed.

Lemma agreeOutside_get f g q q' :
  agreeOutside (js f) q q' -> js g <> js f -> getField q' g = getField q g.
Proof. intros [_ H] Hne. apply (H (js g) Hne). Qed.

Lemma agreeOutside_hasOwn f g q q' :
  agreeOutside (js f) q q' -> js g <> js f ->
  hasOwn (properties q') (js g) = hasOwn (properties q) (js g).
Proof. intros [_ H] Hne. apply (H (js g) Hne). Qed.

Lemma getField_setField_eq q f v : getField (setField q f v) f = v.
Proof. apply get_set_eq. Qed.

Lemma getField_setField_ne q f g v :
  js f <> js g -> getField (setField q f v) g = getField q g.
Proof. intros H. apply get_set_ne. exact H. Qed.

Lemma getField_deleteField_ne q f g :
  js f <> js g -> getField (deleteField q f) g = getField q g.
Proof. intros H. apply get_remove_ne. exact H. Qed.

(** Distinct field names are distinct strings. *)
Ltac names := let H := fresh in intro H; vm_compute in H; discriminate H.

(** Case analysis on the outcome of the first step in the hypothesis [H]. *)
Ltac step H :=
  match type of H with
  | cbind ?c _ = _ =>
      let E := fresh "E" in
      destruct c eqn:E; cbn [cbind] in H; [|discriminate H]
  end.

(** ** The blocks of validateQuery *)

Lemma validateQuery_inv this q q' :
  validateQuery this q = Normal q' ->
  exists q1 q2 q3 q4,
    normalizeLimit q = Normal q1 /\
    checkService this q1 = Normal tt /\
    normalizeLookback q1 = Normal q2 /\
    normalizeDuration "minDuration" q2 = Normal q3 /\
    normalizeDuration "maxDuration" q3 = Normal q4 /\
    normalizeTags this q4 = Normal q'.
Proof.
  unfold validateQuery. intros H.
  step H. step H. step H. step H. step H.
  destruct a0. eauto 10.
Qed.

Lemma coercedLimit_truthy limit text : ToBoolean (VNum (coercedLimit limit text)) = true.
Proof.
  unfold coercedLimit. destruct limit;
    repeat match goal with
           | |- context [if ?b then _ else _] => destruct b eqn:?
           end; auto.
Qed.

Lemma normalizeLimit_spec q q' :
  normalizeLimit q = Normal q' ->
  agreeOutside (js "limit") q q' /\
  exists text,
    (ToBoolean (getField q "limit") && negb (isNumber (getField q "limit")) = true ->
     ToString (getField q "limit") = Normal text) /\
    getField q' "limit" = VNum (coercedLimit (getField q "limit") text).
Proof.
  unfold normalizeLimit. intros H.
  destruct (ToBoolean (getField q "limit") && negb (isNumber (getField q "limit"))) eqn:Hc.
  - step H. step E. rename a0 into text. injection E as <-.
    rewrite getField_setField_eq in H.
    apply andb_true_iff in Hc. destruct Hc as [Ht Hn].
    assert (Hv : coercedLimit (getField q "limit") text =
                 if ToBoolean (VNum (parseInt text)) then parseInt text else Integer 100).
    { unfold coercedLimit. rewrite Ht.
      destruct (getField q "limit"); try reflexivity. discriminate Hn. }
    assert (Htr : ToBoolean (VNum (if ToBoolean (VNum (parseInt text))
                                   then parseInt text else Integer 100)) = true).
    { rewrite <- Hv. apply coercedLimit_truthy. }
    rewrite Htr in H. simpl in H. injection H as <-.
    split; [apply agreeOutside_setField|].
    exists text. split; [reflexivity|].
    rewrite getField_setField_eq. now rewrite Hv.
  - cbn [cbind] in H. injection H as <-.
    apply andb_false_iff in Hc.
    destruct (ToBoolean (getField q "limit")) eqn:Ht; simpl.
    + destruct Hc as [Hc|Hc]; [discriminate|].
      apply negb_false_iff in Hc.
      split; [apply agreeOutside_refl|]. exists [].
      split; [intros; discriminate|].
      destruct (getField q "limit") eqn:Hl; try discriminate Hc.
      unfold coercedLimit. now rewrite Ht.
    + split; [apply agreeOutside_setField|]. exists [].
      split; [intros; discriminate|].
      rewrite getField_setField_eq. unfold coercedLimit. rewrite Ht.
      now destruct (getField q "limit").
Qed.

Lemma checkService_Normal this q :
  checkService this q = Normal tt <->
  ToBoolean (getField q "service") = false \/
  includesValue (services this) (getField q "service") = true.
Proof.
  unfold checkService.
  destruct (ToBoolean (getField q "service")) eqn:Ht; simpl.
  - destruct (includesValue (services this) (getField q "service")) eqn:Hi; simpl.
    + split; auto.
    + split.
      * destruct (ToString (getField q "service")); discriminate.
      * intros [H|H]; discriminate.
  - split; auto.
Qed.

Lemma normalizeLookback_falsy q :
  ToBoolean (getField q "lookback") = false -> normalizeLookback q = Normal q.
Proof. unfold normalizeLookback. now intros ->. Qed.

Lemma normalizeLookback_truthy q text :
  ToBoolean (getField q "lookback") = true ->
  ToString (getField q "lookback") = Normal text ->
  normalizeLookback q =
  Normal (if test lookbackRegex text then q
          else setField q "lookback" (VStr (js "1h"))).
Proof.
  unfold normalizeLookback. intros -> ->. cbn [cbind].
  now destruct (test lookbackRegex text).
Qed.

Lemma normalizeLookback_frame q q' :
  normalizeLookback q = Normal q' -> agreeOutside (js "lookback") q q'.
Proof.
  unfold normalizeLookback. intros H.
  destruct (ToBoolean (getField q "lookback")).
  - step H. injection H as <-.
    destruct (test lookbackRegex a); simpl.
    + apply agreeOutside_refl.
    + apply agreeOutside_setField.
  - injection H as <-. apply agreeOutside_refl.
Qed.

Lemma normalizeDuration_falsy f q :
  ToBoolean (getField q f) = false -> normalizeDuration f q = Normal q.
Proof. unfold normalizeDuration. now intros ->. Qed.

Lemma normalizeDuration_truthy f q text :
  ToBoolean (getField q f) = true ->
  ToString (getField q f) = Normal text ->
  normalizeDuration f q =
  Normal (if test durationRegex text then q else deleteField q f).
Proof.
  unfold normalizeDuration. intros -> ->. cbn [cbind].
  now destruct (test durationRegex text).
Qed.

Lemma normalizeDuration_frame f q q' :
  normalizeDuration f q = Normal q' -> agreeOutside (js f) q q'.
Proof.
  unfold normalizeDuration. intros H.
  destruct (ToBoolean (getField q f)).
  - step H. injection H as <-.
    destruct (test durationRegex a); simpl.
    + apply agreeOutside_refl.
    + apply agreeOutside_deleteField.
  - injection H as <-. apply agreeOutside_refl.
Qed.

Lemma normalizeTags_frame this q q' :
  normalizeTags this q = Normal q' -> agreeOutside (js "tags") q q'.
Proof.
  unfold normalizeTags. intros H.
  destruct (ToBoolean (getField q "tags")).
  - destruct (getField q "tags"); try discriminate H.
    step H. injection H as <-. apply agreeOutside_setField.
  - injection H as <-. apply agreeOutside_refl.
Qed.


(** ** parseInt *)






(** ** C3: the limit *)



(** What the coercion reads from some texts, and from limits that are
    not strings. *)
Example limit_of_texts :
  List.map limitOfText
    [js "50"; js "50abc"; js " 50"; js "+50"; js "-5"; js "2.5"; js "1e3";
     js " abc"; js "0abc"; js "-0"; js "true"; js "[object Object]"; js "- 5"] =
  List.map Integer [50; 50; 50; 50; -5; 2; 1; 100; 100; 100; 100; 100; 100]%Z.
Proof. vm_compute. reflexivity. Qed.

Example limit_of_candidates :
  List.map (fun limit =>
              cmap (fun q => getField q "limit")
                   (validateQuery noServices (object [(js "limit", limit)])))
    [VStr (js "50abc"); VStr (js " 50"); VStr (js "abc"); VStr (js "0abc");
     VBool true; VArr [VNum (Integer 20)]; VArr [VStr (js "7"); VStr (js "8")];
     VObj []; VNum (Fraction 25 1); VNull] =
  List.map (fun z => Normal (VNum z))
    [Integer 50; Integer 50; Integer 100; Integer 100;
     Integer 100; Integer 20; Integer 7;
     Integer 100; Fraction 25 1; Integer 100].
Proof. vm_compute. reflexivity. Qed.


(** ** The regular expressions *)

Lemma takeWhile_dropWhile p s : takeWhile p s ++ dropWhile p s = s.
Proof.
  induction s as [|c s IH]; simpl; [reflexivity|].
  destruct (p c); simpl; [now rewrite IH | reflexivity].
Qed.

Lemma takeWhile_Forall p s : Forall (fun c => p c = true) (takeWhile p s).
Proof.
  induction s as [|c s IH]; simpl; [constructor|].
  destruct (p c) eqn:E; constructor; assumption.
Qed.

Lemma dropWhile_app p ds r :
  Forall (fun c => p c = true) ds ->
  dropWhile p (ds ++ r) = dropWhile p r.
Proof.
  induction 1 as [|c ds Hc _ IH]; simpl; [reflexivity|]. now rewrite Hc.
Qed.

Lemma dropWhile_head p s c r : dropWhile p s = c :: r -> p c = false.
Proof.
  induction s as [|d s IH]; simpl; [discriminate|].
  destruct (p d) eqn:E; [exact IH|]. intros H. injection H as -> _. exact E.
Qed.

Lemma matchHere_Star_cons {A} p c s (k : jsstring -> option A) :
  matchHere (Star p) (c :: s) k =
  if p c
  then match matchHere (Star p) s k with
       | Some x => Some x
       | None => k (c :: s)
       end
  else k (c :: s).
Proof. reflexivity. Qed.

Lemma matchHere_Star_nil {A} p (k : jsstring -> option A) :
  matchHere (Star p) [] k = k [].
Proof. reflexivity. Qed.

(** When what follows a greedy class cannot start inside the class, the
    class takes all it can and nothing is given back. *)
Lemma matchHere_Star_committed {A} p (k : jsstring -> option A) s :
  (forall c s', p c = true -> k (c :: s') = None) ->
  matchHere (Star p) s k = k (dropWhile p s).
Proof.
  intros Hk. induction s as [|c s IH]; [reflexivity|].
  rewrite matchHere_Star_cons. cbn [dropWhile]. destruct (p c) eqn:E; [|reflexivity].
  rewrite IH. destruct (k (dropWhile p s)) eqn:Ek; [reflexivity|].
  now apply Hk.
Qed.

Lemma test_anchored re s :
  anchored re = true ->
  test re s = match matchHere (body re) s Some with Some _ => true | None => false end.
Proof.
  intros Ha. unfold test, strMatch, matchAt. rewrite Ha.
  now destruct (matchHere (body re) s Some).
Qed.

Lemma isDigit_not_unit c : isDigit c = true -> isUnit c = false.
Proof.
  unfold isDigit, isUnit. intros H.
  apply andb_true_iff in H. destruct H as [H1 H2]. apply N.leb_le in H1, H2.
  repeat (apply orb_false_iff; split); apply N.eqb_neq; lia.
Qed.

Lemma isDigit_not_point c : isDigit c = true -> (46 =? c) = false.
Proof.
  unfold isDigit. intros H.
  apply andb_true_iff in H. destruct H as [H1 H2]. apply N.leb_le in H1, H2.
  apply N.eqb_neq; lia.
Qed.

Lemma isUnit_not_digit c : isUnit c = true -> isDigit c = false.
Proof.
  intros H. destruct (isDigit c) eqn:E; [|reflexivity].
  apply isDigit_not_unit in E. congruence.
Qed.

Lemma unitAtEnd_Some s x :
  unitAtEnd s = Some x <-> exists u, isUnit u = true /\ s = [u] /\ x = [].
Proof.
  unfold unitAtEnd. simpl. split.
  - destruct s as [|u [|c r]]; try discriminate.
    + destruct (isUnit u) eqn:E; [|discriminate]. intros H. injection H as <-. eauto.
    + destruct (isUnit u); discriminate.
  - intros (u & Hu & -> & ->). now rewrite Hu.
Qed.

Lemma unitAtEnd_digit c s : isDigit c = true -> unitAtEnd (c :: s) = None.
Proof.
  intros H. unfold unitAtEnd. simpl. now rewrite (isDigit_not_unit c H).
Qed.

Lemma digits_split ds :
  digits ds -> exists d ds', ds = d :: ds' /\ isDigit d = true /\
                             Forall (fun c => isDigit c = true) ds'.
Proof.
  intros [Hne H]. destruct ds as [|d ds']; [congruence|].
  exists d, ds'. split; [reflexivity|]. split; [apply (Forall_inv H) | apply (Forall_inv_tail H)].
Qed.

Lemma test_lookbackRegex text :
  test lookbackRegex text = true <-> lookbackShape text.
Proof.
  rewrite test_anchored by reflexivity.
  change (body lookbackRegex) with (Seq (Plus isDigit) (Seq (Chr isUnit) Eol)).
  change (matchHere (Seq (Plus isDigit) (Seq (Chr isUnit) Eol)) text Some)
    with (match text with
          | c :: s' => if isDigit c then matchHere (Star isDigit) s' unitAtEnd else None
          | [] => None
          end).
  split.
  - destruct text as [|c s']; [discriminate|].
    destruct (isDigit c) eqn:Hc; [|discriminate].
    rewrite matchHere_Star_committed by (intros; now apply unitAtEnd_digit).
    destruct (unitAtEnd (dropWhile isDigit s')) eqn:E; [|discriminate]. intros _.
    apply unitAtEnd_Some in E. destruct E as (u & Hu & Hs & _).
    exists (c :: takeWhile isDigit s'), u. repeat split.
    + discriminate.
    + constructor; [exact Hc | apply takeWhile_Forall].
    + exact Hu.
    + simpl. rewrite <- Hs. now rewrite takeWhile_dropWhile.
  - intros (ds & u & Hds & Hu & ->).
    destruct (digits_split ds Hds) as (d & ds' & -> & Hd & Hds').
    cbn [app]. rewrite Hd.
    rewrite matchHere_Star_committed by (intros; now apply unitAtEnd_digit).
    rewrite dropWhile_app by assumption. cbn [dropWhile].
    rewrite (isUnit_not_digit u Hu).
    assert (E : unitAtEnd [u] = Some []) by (apply unitAtEnd_Some; eauto).
    now rewrite E.
Qed.

Lemma fractionAndUnit_unfold s :
  fractionAndUnit s =
  match (match s with
         | c :: s1 =>
             if 46 =? c then
               match s1 with
               | d :: s2 => if isDigit d then matchHere (Star isDigit) s2 unitAtEnd else None
               | [] => None
               end
             else None
         | [] => None
         end) with
  | Some x => Some x
  | None => unitAtEnd s
  end.
Proof. destruct s as [|c [|d s2]]; reflexivity. Qed.

Lemma fractionAndUnit_digit c s : isDigit c = true -> fractionAndUnit (c :: s) = None.
Proof.
  intros H. rewrite fractionAndUnit_unfold.
  rewrite (isDigit_not_point c H). now apply unitAtEnd_digit.
Qed.

Lemma isUnit_not_point u : isUnit u = true -> (46 =? u) = false.
Proof.
  unfold isUnit. intros H. apply N.eqb_neq. intros <-. discriminate H.
Qed.

Lemma fractionAndUnit_Some s :
  (exists x, fractionAndUnit s = Some x) <->
  exists frac u,
    (frac = [] \/ exists fs, digits fs /\ frac = 46 :: fs) /\
    isUnit u = true /\ s = frac ++ [u].
Proof.
  rewrite fractionAndUnit_unfold. split.
  - intros [x H].
    destruct s as [|c s1].
    + simpl in H. discriminate.
    + destruct (46 =? c) eqn:Ep.
      * apply N.eqb_eq in Ep. subst c.
        destruct s1 as [|d s2].
        -- simpl in H. discriminate.
        -- destruct (isDigit d) eqn:Hd.
           ++ rewrite matchHere_Star_committed in H
                by (intros; now apply unitAtEnd_digit).
              destruct (unitAtEnd (dropWhile isDigit s2)) eqn:E.
              ** apply unitAtEnd_Some in E. destruct E as (u & Hu & Hs & _).
                 exists (46 :: d :: takeWhile isDigit s2), u. split; [right|split].
                 --- exists (d :: takeWhile isDigit s2). split; [|reflexivity].
                     split; [discriminate|].
                     constructor; [exact Hd | apply takeWhile_Forall].
                 --- exact Hu.
                 --- simpl. rewrite <- Hs. now rewrite takeWhile_dropWhile.
              ** simpl in H. discriminate.
           ++ simpl in H. destruct (isUnit 46) eqn:E; discriminate.
      * apply unitAtEnd_Some in H. destruct H as (u & Hu & Hs & _).
        exists [], u. split; [now left|]. split; [exact Hu | exact Hs].
  - intros (frac & u & [->|(fs & Hfs & ->)] & Hu & ->).
    + cbn [app]. rewrite (isUnit_not_point u Hu).
      exists []. apply unitAtEnd_Some. eauto.
    + destruct (digits_split fs Hfs) as (d & fs' & -> & Hd & Hfs').
      cbn [app]. change (46 =? 46) with true. cbv iota. rewrite Hd.
      rewrite matchHere_Star_committed by (intros; now apply unitAtEnd_digit).
      rewrite dropWhile_app by assumption. cbn [dropWhile].
      rewrite (isUnit_not_digit u Hu).
      assert (E : unitAtEnd [u] = Some []) by (apply unitAtEnd_Some; eauto).
      rewrite E. eauto.
Qed.

Lemma test_durationRegex text :
  test durationRegex text = true <-> durationShape text.
Proof.
  rewrite test_anchored by reflexivity.
  change (matchHere (body durationRegex) text Some)
    with (match text with
          | c :: s' => if isDigit c then matchHere (Star isDigit) s' fractionAndUnit else None
          | [] => None
          end).
  split.
  - destruct text as [|c s']; [discriminate|].
    destruct (isDigit c) eqn:Hc; [|discriminate].
    rewrite matchHere_Star_committed by (intros; now apply fractionAndUnit_digit).
    destruct (fractionAndUnit (dropWhile isDigit s')) eqn:E; [|discriminate]. intros _.
    assert (E' : exists x, fractionAndUnit (dropWhile isDigit s') = Some x) by eauto.
    apply fractionAndUnit_Some in E'. destruct E' as (frac & u & Hfrac & Hu & Hs).
    exists (c :: takeWhile isDigit s'), frac, u. repeat split.
    + discriminate.
    + constructor; [exact Hc | apply takeWhile_Forall].
    + exact Hfrac.
    + exact Hu.
    + simpl. rewrite <- Hs. now rewrite takeWhile_dropWhile.
  - intros (ds & frac & u & Hds & Hfrac & Hu & ->).
    destruct (digits_split ds Hds) as (d & ds' & -> & Hd & Hds').
    cbn [app]. rewrite Hd.
    rewrite matchHere_Star_committed by (intros; now apply fractionAndUnit_digit).
    rewrite dropWhile_app by assumption.
    assert (Hdrop : dropWhile isDigit (frac ++ [u]) = frac ++ [u]).
    { destruct Hfrac as [->|(fs & _ & ->)]; cbn [app dropWhile].
      - now rewrite (isUnit_not_digit u Hu).
      - reflexivity. }
    rewrite Hdrop.
    assert (E : exists x, fractionAndUnit (frac ++ [u]) = Some x).
    { apply fractionAndUnit_Some. eauto. }
    destruct E as [x ->]. reflexivity.
Qed.

(** ** Blocks and fields they do not read *)

Lemma setField_comm q f g v w :
  js f <> js g -> hasOwn (properties q) (js f) = true ->
  setField (setField q f v) g w = setField (setField q g w) f v.
Proof.
  intros Hne Hown. unfold setField. simpl. f_equal.
  now apply set_set_comm.
Qed.

Lemma deleteField_setField_comm q f g w :
  js f <> js g ->
  deleteField (setField q g w) f = setField (deleteField q f) g w.
Proof.
  intros Hne. unfold setField, deleteField. simpl. f_equal.
  now apply remove_set_comm.
Qed.

Lemma deleteField_comm q f g :
  deleteField (deleteField q f) g = deleteField (deleteField q g) f.
Proof.
  unfold deleteField. simpl. f_equal. apply remove_remove_comm.
Qed.

Lemma hasOwn_setField_ne q f g v :
  js f <> js g ->
  hasOwn (properties (setField q f v)) (js g) = hasOwn (properties q) (js g).
Proof. intros H. unfold setField. simpl. now apply hasOwn_set_ne. Qed.

Lemma getField_hasOwn q f :
  ToBoolean (getField q f) = true -> hasOwn (properties q) (js f) = true.
Proof.
  intros H. apply get_hasOwn. unfold getField in H.
  intros E. rewrite E in H. discriminate H.
Qed.

Lemma normalizeLimit_setField q f v :
  js f <> js "limit" -> hasOwn (properties q) (js f) = true ->
  normalizeLimit (setField q f v) =
  cmap (fun x => setField x f v) (normalizeLimit q).
Proof.
  intros Hne Hown. unfold normalizeLimit, cmap.
  rewrite getField_setField_ne by exact Hne.
  destruct (ToBoolean (getField q "limit") && negb (isNumber (getField q "limit"))).
  - destruct (ToString (getField q "limit")) as [text|e]; cbn [cbind]; [|reflexivity].
    rewrite setField_comm by assumption.
    rewrite getField_setField_ne by exact Hne.
    destruct (negb (ToBoolean (getField (setField q "limit" _) "limit"))); [|reflexivity].
    rewrite setField_comm; [reflexivity | exact Hne |].
    rewrite hasOwn_setField_ne; [exact Hown | congruence].
  - cbn [cbind]. rewrite getField_setField_ne by exact Hne.
    destruct (negb (ToBoolean (getField q "limit"))); [|reflexivity].
    now rewrite setField_comm.
Qed.

Lemma normalizeLimit_deleteField q f :
  js f <> js "limit" ->
  normalizeLimit (deleteField q f) =
  cmap (fun x => deleteField x f) (normalizeLimit q).
Proof.
  intros Hne. unfold normalizeLimit, cmap.
  rewrite getField_deleteField_ne by exact Hne.
  destruct (ToBoolean (getField q "limit") && negb (isNumber (getField q "limit"))).
  - destruct (ToString (getField q "limit")) as [text|e]; cbn [cbind]; [|reflexivity].
    rewrite <- deleteField_setField_comm by exact Hne.
    rewrite getField_deleteField_ne by exact Hne.
    destruct (negb (ToBoolean (getField (setField q "limit" _) "limit"))); [|reflexivity].
    now rewrite !deleteField_setField_comm by exact Hne.
  - cbn [cbind]. rewrite getField_deleteField_ne by exact Hne.
    destruct (negb (ToBoolean (getField q "limit"))); [|reflexivity].
    now rewrite deleteField_setField_comm.
Qed.

Lemma checkService_setField this q f v :
  js f <> js "service" ->
  checkService this (setField q f v) = checkService this q.
Proof.
  intros Hne. unfold checkService. now rewrite getField_setField_ne.
Qed.

Lemma checkService_deleteField this q f :
  js f <> js "service" ->
  checkService this (deleteField q f) = checkService this q.
Proof.
  intros Hne. unfold checkService. now rewrite getField_deleteField_ne.
Qed.

Lemma normalizeLookback_deleteField q f :
  js f <> js "lookback" ->
  normalizeLookback (deleteField q f) =
  cmap (fun x => deleteField x f) (normalizeLookback q).
Proof.
  intros Hne. unfold normalizeLookback, cmap.
  rewrite getField_deleteField_ne by exact Hne.
  destruct (ToBoolean (getField q "lookback")); [|reflexivity].
  destruct (ToString (getField q "lookback")) as [text|e]; cbn [cbind]; [|reflexivity].
  destruct (negb (test lookbackRegex text)); [|reflexivity].
  now rewrite deleteField_setField_comm.
Qed.

Lemma normalizeDuration_deleteField g q f :
  js f <> js g ->
  normalizeDuration g (deleteField q f) =
  cmap (fun x => deleteField x f) (normalizeDuration g q).
Proof.
  intros Hne. unfold normalizeDuration, cmap.
  rewrite getField_deleteField_ne by exact Hne.
  destruct (ToBoolean (getField q g)); [|reflexivity].
  destruct (ToString (getField q g)) as [text|e]; cbn [cbind]; [|reflexivity].
  destruct (negb (test durationRegex text)); [|reflexivity].
  now rewrite deleteField_comm.
Qed.

Lemma test_false re s P : (test re s = true <-> P) -> ~ P -> test re s = false.
Proof.
  intros H Hn. destruct (test re s); [|reflexivity]. exfalso. apply Hn, H. reflexivity.
Qed.

(** ** C4: lookback *)

(** C4, as the code has it.  A lookback that is present and truthy (a
    non-empty string in particular) and whose text is not digits followed
    by one of h, d, m, s is overwritten with "1h", and the query is
    validated exactly as if it had been sent with "1h"; a lookback of
    that form is preserved.  An empty lookback is left as it is. *)
Theorem lookback_overwritten_or_kept this query lookback text :
  getField query "lookback" = lookback ->
  ToBoolean lookback = true ->
  ToString lookback = Normal text ->
  (~ lookbackShape text ->
     validateQuery this query =
       validateQuery this (setField query "lookback" (VStr (js "1h"))) /\
     forall query', validateQuery this query = Normal query' ->
       getField query' "lookback" = VStr (js "1h")) /\
  (lookbackShape text ->
     forall query', validateQuery this query = Normal query' ->
       getField query' "lookback" = lookback).
Proof.
  intros Hget Htruthy Htext.
  assert (Hown : hasOwn (properties query) (js "lookback") = true).
  { apply getField_hasOwn. now rewrite Hget. }
  assert (Hresult : forall query', validateQuery this query = Normal query' ->
            getField query' "lookback" =
            if test lookbackRegex text then lookback else VStr (js "1h")).
  { intros query' H. apply validateQuery_inv in H.
    destruct H as (q1 & q2 & q3 & q4 & E1 & _ & E2 & E3 & E4 & E5).
    rewrite (agreeOutside_get _ "lookback" _ _ (normalizeTags_frame _ _ _ E5)) by names.
    rewrite (agreeOutside_get _ "lookback" _ _ (normalizeDuration_frame _ _ _ E4)) by names.
    rewrite (agreeOutside_get _ "lookback" _ _ (normalizeDuration_frame _ _ _ E3)) by names.
    destruct (normalizeLimit_spec _ _ E1) as [Hframe _].
    assert (H1 : getField q1 "lookback" = lookback).
    { rewrite (agreeOutside_get _ "lookback" _ _ Hframe) by names. exact Hget. }
    rewrite (normalizeLookback_truthy q1 text) in E2 by (rewrite H1; assumption).
    injection E2 as <-.
    destruct (test lookbackRegex text); [exact H1 | apply getField_setField_eq]. }
  split.
  - intros Hshape.
    pose proof (test_false _ _ _ (test_lookbackRegex text) Hshape) as Htest.
    split.
    + unfold validateQuery.
      rewrite normalizeLimit_setField by (assumption || names).
      unfold cmap.
      destruct (normalizeLimit query) as [q1|e] eqn:E1; cbn [cbind]; [|reflexivity].
      rewrite checkService_setField by names.
      destruct (checkService this q1); cbn [cbind]; [|reflexivity].
      destruct (normalizeLimit_spec _ _ E1) as [Hframe _].
      assert (H1 : getField q1 "lookback" = lookback).
      { rewrite (agreeOutside_get _ "lookback" _ _ Hframe) by names. exact Hget. }
      rewrite (normalizeLookback_truthy q1 text) by (rewrite H1; assumption).
      rewrite Htest.
      rewrite (normalizeLookback_truthy (setField q1 "lookback" (VStr (js "1h"))) (js "1h"))
        by (rewrite getField_setField_eq; reflexivity).
      reflexivity.
    + intros query' H. rewrite (Hresult query' H). now rewrite Htest.
  - intros Hshape query' H. rewrite (Hresult query' H).
    apply test_lookbackRegex in Hshape. now rewrite Hshape.
Qed.

Lemma lookback_overwritten_or_kept_witness :
  getField (object [(js "lookback", VStr (js "soon"))]) "lookback" = VStr (js "soon") /\
  validateQuery noServices (object [(js "lookback", VStr (js "soon"))]) =
    validateQuery noServices (object [(js "lookback", VStr (js "1h"))]).
Proof.
  split; [reflexivity|].
  destruct (lookback_overwritten_or_kept noServices
              (object [(js "lookback", VStr (js "soon"))])
              (VStr (js "soon")) (js "soon") eq_refl eq_refl eq_refl) as [H _].
  apply H. intros (ds & u & [_ Hds] & _ & E).
  destruct ds as [|d ds]; [discriminate E|].
  injection E as <- _. apply Forall_inv in Hds. discriminate Hds.
Defined.

(** C4 as stated fails: an empty lookback is present and does not match
    the pattern, and it is returned as it is. *)
Lemma lookback_empty_kept :
  validateQuery noServices (object [(js "lookback", VStr [])]) =
    Normal (object [(js "lookback", VStr []); (js "limit", VNum (Integer 100))]) /\
  test lookbackRegex [] = false.
Proof. split; reflexivity. Qed.

(** ** C5: minDuration and maxDuration *)

Lemma getField_deleteField_eq q f : getField (deleteField q f) f = VUndefined.
Proof. apply get_remove_eq. Qed.

Lemma hasOwn_deleteField_eq q f : hasOwn (properties (deleteField q f)) (js f) = false.
Proof. apply hasOwn_remove_eq. Qed.

Lemma normalizeDuration_deleted f q :
  normalizeDuration f (deleteField q f) = Normal (deleteField q f).
Proof.
  apply normalizeDuration_falsy. now rewrite getField_deleteField_eq.
Qed.

(** The field [f] after validation, in terms of what its block finds. *)
Lemma validateQuery_minDuration this q q' :
  validateQuery this q = Normal q' ->
  exists q2 q3,
    getField q2 "minDuration" = getField q "minDuration" /\
    normalizeDuration "minDuration" q2 = Normal q3 /\
    getField q' "minDuration" = getField q3 "minDuration" /\
    hasOwn (properties q') (js "minDuration") = hasOwn (properties q3) (js "minDuration").
Proof.
  intros H. apply validateQuery_inv in H.
  destruct H as (q1 & q2 & q3 & q4 & E1 & _ & E2 & E3 & E4 & E5).
  exists q2, q3. destruct (normalizeLimit_spec _ _ E1) as [F1 _].
  pose proof (normalizeLookback_frame _ _ E2) as F2.
  pose proof (normalizeDuration_frame _ _ _ E4) as F4.
  pose proof (normalizeTags_frame _ _ _ E5) as F5.
  repeat split.
  - rewrite (agreeOutside_get _ "minDuration" _ _ F2) by names.
    now rewrite (agreeOutside_get _ "minDuration" _ _ F1) by names.
  - exact E3.
  - rewrite (agreeOutside_get _ "minDuration" _ _ F5) by names.
    now rewrite (agreeOutside_get _ "minDuration" _ _ F4) by names.
  - rewrite (agreeOutside_hasOwn _ "minDuration" _ _ F5) by names.
    now rewrite (agreeOutside_hasOwn _ "minDuration" _ _ F4) by names.
Qed.

Lemma validateQuery_maxDuration this q q' :
  validateQuery this q = Normal q' ->
  exists q3 q4,
    getField q3 "maxDuration" = getField q "maxDuration" /\
    normalizeDuration "maxDuration" q3 = Normal q4 /\
    getField q' "maxDuration" = getField q4 "maxDuration" /\
    hasOwn (properties q') (js "maxDuration") = hasOwn (properties q4) (js "maxDuration").
Proof.
  intros H. apply validateQuery_inv in H.
  destruct H as (q1 & q2 & q3 & q4 & E1 & _ & E2 & E3 & E4 & E5).
  exists q3, q4. destruct (normalizeLimit_spec _ _ E1) as [F1 _].
  pose proof (normalizeLookback_frame _ _ E2) as F2.
  pose proof (normalizeDuration_frame _ _ _ E3) as F3.
  pose proof (normalizeTags_frame _ _ _ E5) as F5.
  repeat split.
  - rewrite (agreeOutside_get _ "maxDuration" _ _ F3) by names.
    rewrite (agreeOutside_get _ "maxDuration" _ _ F2) by names.
    now rewrite (agreeOutside_get _ "maxDuration" _ _ F1) by names.
  - exact E4.
  - now rewrite (agreeOutside_get _ "maxDuration" _ _ F5) by names.
  - now rewrite (agreeOutside_hasOwn _ "maxDuration" _ _ F5) by names.
Qed.

Lemma validateQuery_delete_minDuration this q text :
  ToBoolean (getField q "minDuration") = true ->
  ToString (getField q "minDuration") = Normal text ->
  test durationRegex text = false ->
  validateQuery this q = validateQuery this (deleteField q "minDuration").
Proof.
  intros Ht Hs Htest. unfold validateQuery.
  rewrite normalizeLimit_deleteField by names. unfold cmap.
  destruct (normalizeLimit q) as [q1|e] eqn:E1; cbn [cbind]; [|reflexivity].
  rewrite checkService_deleteField by names.
  destruct (checkService this q1); cbn [cbind]; [|reflexivity].
  rewrite normalizeLookback_deleteField by names. unfold cmap.
  destruct (normalizeLookback q1) as [q2|e] eqn:E2; cbn [cbind]; [|reflexivity].
  destruct (normalizeLimit_spec _ _ E1) as [F1 _].
  pose proof (normalizeLookback_frame _ _ E2) as F2.
  assert (H2 : getField q2 "minDuration" = getField q "minDuration").
  { rewrite (agreeOutside_get _ "minDuration" _ _ F2) by names.
    now rewrite (agreeOutside_get _ "minDuration" _ _ F1) by names. }
  rewrite (normalizeDuration_truthy "minDuration" q2 text) by (rewrite H2; assumption).
  rewrite Htest. now rewrite normalizeDuration_deleted.
Qed.

Lemma validateQuery_delete_maxDuration this q text :
  ToBoolean (getField q "maxDuration") = true ->
  ToString (getField q "maxDuration") = Normal text ->
  test durationRegex text = false ->
  validateQuery this q = validateQuery this (deleteField q "maxDuration").
Proof.
  intros Ht Hs Htest. unfold validateQuery.
  rewrite normalizeLimit_deleteField by names. unfold cmap.
  destruct (normalizeLimit q) as [q1|e] eqn:E1; cbn [cbind]; [|reflexivity].
  rewrite checkService_deleteField by names.
  destruct (checkService this q1); cbn [cbind]; [|reflexivity].
  rewrite normalizeLookback_deleteField by names. unfold cmap.
  destruct (normalizeLookback q1) as [q2|e] eqn:E2; cbn [cbind]; [|reflexivity].
  rewrite normalizeDuration_deleteField by names. unfold cmap.
  destruct (normalizeDuration "minDuration" q2) as [q3|e] eqn:E3; cbn [cbind]; [|reflexivity].
  destruct (normalizeLimit_spec _ _ E1) as [F1 _].
  pose proof (normalizeLookback_frame _ _ E2) as F2.
  pose proof (normalizeDuration_frame _ _ _ E3) as F3.
  assert (H3 : getField q3 "maxDuration" = getField q "maxDuration").
  { rewrite (agreeOutside_get _ "maxDuration" _ _ F3) by names.
    rewrite (agreeOutside_get _ "maxDuration" _ _ F2) by names.
    now rewrite (agreeOutside_get _ "maxDuration" _ _ F1) by names. }
  rewrite (normalizeDuration_truthy "maxDuration" q3 text) by (rewrite H3; assumption).
  rewrite Htest. now rewrite normalizeDuration_deleted.
Qed.

(** C5, as the code has it.  A [minDuration] (a [maxDuration]) that is
    present and truthy (a non-empty string in particular) and whose text
    is not digits, possibly a point and digits, and one of h, d, m, s is
    removed: the returned object has no such property, and the query is
    validated exactly as if it had been sent without it; a duration of
    that form is preserved.  An empty duration is left as it is. *)
Theorem duration_removed_or_kept this query field duration text :
  field = "minDuration"%string \/ field = "maxDuration"%string ->
  getField query field = duration ->
  ToBoolean duration = true ->
  ToString duration = Normal text ->
  (~ durationShape text ->
     validateQuery this query = validateQuery this (deleteField query field) /\
     forall query', validateQuery this query = Normal query' ->
       hasOwn (properties query') (js field) = false /\
       getField query' field = VUndefined) /\
  (durationShape text ->
     forall query', validateQuery this query = Normal query' ->
       getField query' field = duration).
Proof.
  intros Hfield Hget Htruthy Htext. subst duration. split.
  - intros Hshape.
    pose proof (test_false _ _ _ (test_durationRegex text) Hshape) as Htest.
    destruct Hfield as [-> | ->].
    + split; [now apply (validateQuery_delete_minDuration this query text)|].
      intros query' H.
      destruct (validateQuery_minDuration _ _ _ H) as (q2 & q3 & H2 & E3 & Hg & Ho).
      rewrite (normalizeDuration_truthy "minDuration" q2 text) in E3
        by (rewrite H2; assumption).
      rewrite Htest in E3. injection E3 as <-.
      rewrite Hg, Ho. split; [apply hasOwn_deleteField_eq | apply getField_deleteField_eq].
    + split; [now apply (validateQuery_delete_maxDuration this query text)|].
      intros query' H.
      destruct (validateQuery_maxDuration _ _ _ H) as (q3 & q4 & H3 & E4 & Hg & Ho).
      rewrite (normalizeDuration_truthy "maxDuration" q3 text) in E4
        by (rewrite H3; assumption).
      rewrite Htest in E4. injection E4 as <-.
      rewrite Hg, Ho. split; [apply hasOwn_deleteField_eq | apply getField_deleteField_eq].
  - intros Hshape query' H. apply test_durationRegex in Hshape.
    destruct Hfield as [-> | ->].
    + destruct (validateQuery_minDuration _ _ _ H) as (q2 & q3 & H2 & E3 & Hg & _).
      rewrite (normalizeDuration_truthy "minDuration" q2 text) in E3
        by (rewrite H2; assumption).
      rewrite Hshape in E3. injection E3 as <-. now rewrite Hg.
    + destruct (validateQuery_maxDuration _ _ _ H) as (q3 & q4 & H3 & E4 & Hg & _).
      rewrite (normalizeDuration_truthy "maxDuration" q3 text) in E4
        by (rewrite H3; assumption).
      rewrite Hshape in E4. injection E4 as <-. now rewrite Hg.
Qed.

Lemma duration_removed_or_kept_witness :
  getField (object [(js "minDuration", VStr (js "fast"))]) "minDuration" = VStr (js "fast") /\
  validateQuery noServices (object [(js "minDuration", VStr (js "fast"))]) =
    validateQuery noServices (object []).
Proof.
  split; [reflexivity|].
  destruct (duration_removed_or_kept noServices
              (object [(js "minDuration", VStr (js "fast"))]) "minDuration"
              (VStr (js "fast")) (js "fast") (or_introl eq_refl) eq_refl eq_refl eq_refl)
    as [H _].
  apply H. intros (ds & frac & u & [Hne Hds] & _ & _ & E).
  destruct ds as [|d ds]; [congruence|].
  injection E as <- _. apply Forall_inv in Hds. discriminate Hds.
Defined.

(** C5 as stated fails: an empty [minDuration] is present and does not
    match the pattern, and the returned object still has it. *)
Lemma duration_empty_kept :
  validateQuery noServices (object [(js "minDuration", VStr [])]) =
    Normal (object [(js "minDuration", VStr []); (js "limit", VNum (Integer 100))]) /\
  test durationRegex [] = false /\
  hasOwn [(js "minDuration", VStr []); (js "limit", VNum (Integer 100))]
         (js "minDuration") = true.
Proof. repeat split; reflexivity. Qed.

(** ** What validateQuery can throw *)








Lemma includes_In l x : includes l x = true <-> In x l.
Proof.
  unfold includes. rewrite existsb_exists. split.
  - intros (y & Hy & E). apply str_eqb_eq in E. now subst.
  - intros H. exists x. split; [exact H | apply str_eqb_refl].
Qed.


(** ** split and join *)

Lemma split_not_nil sep s : split sep s <> [].
Proof.
  destruct s as [|c s]; simpl; [discriminate|].
  destruct (c =? sep); [discriminate|]. destruct (split sep s); discriminate.
Qed.

(** Joining the pieces with the separator gives the text back. *)
Lemma join_split sep s : join [sep] (split sep s) = s.
Proof.
  induction s as [|c s IH]; [reflexivity|]. cbn [split].
  destruct (split sep s) as [|w ws] eqn:E; [now apply split_not_nil in E|].
  destruct (N.eqb_spec c sep) as [->|Hne].
  - change (join [sep] ([] :: w :: ws)) with ([] ++ [sep] ++ join [sep] (w :: ws)).
    now rewrite IH.
  - destruct ws as [|w' ws'].
    + cbn [join] in *. now rewrite IH.
    + change (join [sep] ((c :: w) :: w' :: ws'))
        with ((c :: w) ++ [sep] ++ join [sep] (w' :: ws')).
      change (join [sep] (w :: w' :: ws'))
        with (w ++ [sep] ++ join [sep] (w' :: ws')) in IH.
      now rewrite <- IH.
Qed.

(** No piece contains the separator. *)
Lemma split_pieces sep s : Forall (fun piece => ~ In sep piece) (split sep s).
Proof.
  induction s as [|c s IH]; simpl.
  - constructor; [intros [] | constructor].
  - destruct (N.eqb_spec c sep) as [->|Hne].
    + constructor; [intros [] | exact IH].
    + destruct (split sep s) as [|w ws]; [constructor; [|constructor]|].
      * intros [H|[]]. congruence.
      * inversion IH as [|? ? Hw Hws]; subst. constructor; [|exact Hws].
        intros [H|H]; [congruence | contradiction].
Qed.

Lemma split_key pair : nth 0 (split 61 pair) [] = tagKey pair.
Proof.
  unfold tagKey. induction pair as [|c s IH]; [reflexivity|]. simpl.
  unfold notEquals at 1. destruct (c =? 61); simpl; [reflexivity|].
  destruct (split 61 s) as [|w ws] eqn:E; [now apply split_not_nil in E|].
  simpl in *. now rewrite IH.
Qed.

Lemma split_value pair : nth 1 (split 61 pair) [] = tagValue pair.
Proof.
  unfold tagValue. induction pair as [|c s IH]; [reflexivity|]. simpl.
  unfold notEquals at 2. destruct (c =? 61) eqn:Ec; simpl.
  - apply split_key.
  - destruct (split 61 s) as [|w ws] eqn:E; [now apply split_not_nil in E|].
    simpl in *. exact IH.
Qed.

Lemma join_nil sep l :
  Forall (fun x => x <> []) l -> join sep l = [] -> l = [].
Proof.
  intros H. destruct H as [|x l Hx Hl]; [reflexivity|].
  destruct l as [|y l']; simpl.
  - intros ->. congruence.
  - intros E. apply app_eq_nil in E. destruct E as [-> _]. congruence.
Qed.

(** ** The tag pattern *)

Lemma isKeyChar_not_equals c : isKeyChar c = true -> (61 =? c) = false.
Proof.
  intros H. apply N.eqb_neq. intros <-. discriminate H.
Qed.

Lemma equalsSign_cons c s : equalsSign (c :: s) = if 61 =? c then Some s else None.
Proof. reflexivity. Qed.

Lemma equalsSign_keyChar c s : isKeyChar c = true -> equalsSign (c :: s) = None.
Proof.
  intros H. rewrite equalsSign_cons. now rewrite (isKeyChar_not_equals c H).
Qed.

(** After a key without [=] that ends at an [=], the pattern matches when
    all the characters of the key are in the class. *)
Lemma equalsSign_after_key key rest :
  Forall (fun c => notEquals c = true) key ->
  (exists x, equalsSign (dropWhile isKeyChar (key ++ 61 :: rest)) = Some x) <->
  forallb isKeyChar key = true.
Proof.
  induction 1 as [|c key Hc _ IH]; cbn [app dropWhile forallb].
  - change (isKeyChar 61) with false. cbv iota. rewrite equalsSign_cons.
    split; [reflexivity|]. intros _. exists rest. reflexivity.
  - destruct (isKeyChar c) eqn:Ek; cbn [andb].
    + exact IH.
    + split; [|discriminate]. intros [x Hx].
      rewrite equalsSign_cons in Hx.
      unfold notEquals in Hc. rewrite N.eqb_sym in Hx.
      apply negb_true_iff in Hc. rewrite Hc in Hx. discriminate.
Qed.

Lemma dropWhile_nil_or_head p s :
  dropWhile p s = [] \/ exists c r, dropWhile p s = c :: r /\ p c = false.
Proof.
  destruct (dropWhile p s) as [|c r] eqn:E; [now left|].
  right. exists c, r. split; [reflexivity|]. now apply dropWhile_head in E.
Qed.

(** A pair with a value has an [=] after its key. *)
Lemma tagValue_pair pair :
  tagValue pair <> [] -> exists rest, pair = tagKey pair ++ 61 :: rest.
Proof.
  unfold tagValue, tagKey. intros H.
  destruct (dropWhile_nil_or_head notEquals pair) as [E|(c & r & E & Hc)].
  - rewrite E in H. now contradiction H.
  - exists r. rewrite <- (takeWhile_dropWhile notEquals pair) at 1. rewrite E.
    unfold notEquals in Hc. apply negb_false_iff, N.eqb_eq in Hc. now subst.
Qed.

Lemma test_tagRegex pair :
  tagKey pair <> [] -> tagValue pair <> [] ->
  test tagRegex pair = forallb isKeyChar (tagKey pair).
Proof.
  intros Hkey Hvalue.
  destruct (tagValue_pair pair Hvalue) as [rest Hpair].
  pose proof (takeWhile_Forall notEquals pair) as Hne. fold (tagKey pair) in Hne.
  rewrite test_anchored by reflexivity.
  change (matchHere (body tagRegex) pair Some)
    with (match pair with
          | c :: s' => if isKeyChar c then matchHere (Star isKeyChar) s' equalsSign else None
          | [] => None
          end).
  rewrite Hpair at 1.
  destruct (tagKey pair) as [|c key]; [congruence|]. cbn [app forallb].
  destruct (isKeyChar c) eqn:Ec; [|reflexivity]. cbn [andb].
  rewrite matchHere_Star_committed by (intros; now apply equalsSign_keyChar).
  pose proof (equalsSign_after_key key rest (Forall_inv_tail Hne)) as Hiff.
  destruct (equalsSign (dropWhile isKeyChar (key ++ 61 :: rest))) as [x|] eqn:E.
  - symmetry. apply Hiff. eauto.
  - destruct (forallb isKeyChar key); [|reflexivity].
    destruct Hiff as [_ Hiff]. destruct (Hiff eq_refl). discriminate.
Qed.

(** ** The filter of validateQuery and the tag rule *)

Lemma str_eqb_nil s : str_eqb s [] = match s with [] => true | _ => false end.
Proof. destruct s; [apply str_eqb_refl | now apply str_eqb_ne]. Qed.

Lemma validTag_keepsTag this q pair b :
  (ToBoolean (getField q "service") = true -> exists name, getField q "service" = VStr name) ->
  validTag this q pair = Normal b ->
  b = keepsTag (routesFor this q) pair.
Proof.
  intros Hservice. unfold validTag, keepsTag.
  rewrite split_key, split_value.
  destruct (str_eqb (tagKey pair) []) eqn:Ek; cbn [orb negb andb].
  { intros H. now injection H as <-. }
  destruct (str_eqb (tagValue pair) []) eqn:Ev; cbn [orb negb andb].
  { intros H. now injection H as <-. }
  assert (Hk : tagKey pair <> []) by (intros E; rewrite E, str_eqb_refl in Ek; discriminate).
  assert (Hv : tagValue pair <> []) by (intros E; rewrite E, str_eqb_refl in Ev; discriminate).
  destruct (str_eqb (tagKey pair) (js "http.route")) eqn:Er; cbn [andb].
  - destruct (ToBoolean (getField q "service")) eqn:Ht.
    + destruct (Hservice eq_refl) as [name Hname]. unfold routesFor. rewrite Hname in *.
      destruct name as [|c name]; [discriminate Ht|].
      change (ToString (VStr (c :: name))) with (@Normal jsstring (c :: name)).
      cbn [cbind].
      destruct (serviceRoutes this !! (c :: name)) as [routes|].
      * intros H. now injection H as <-.
      * destruct (includes objectPrototypeMembers (c :: name)); [discriminate|].
        intros H. now injection H as <-.
    + intros H. injection H as <-.
      rewrite test_tagRegex by assumption.
      unfold routesFor. destruct (getField q "service") as [| | | |[|c name]| |];
        try reflexivity. discriminate Ht.
  - intros H. injection H as <-.
    rewrite test_tagRegex by assumption.
    now destruct (routesFor this q).
Qed.

Lemma filterC_filter {A} (f : A -> completion bool) (g : A -> bool) l l' :
  (forall x b, f x = Normal b -> b = g x) ->
  filterC f l = Normal l' -> l' = List.filter g l.
Proof.
  intros Hfg. revert l'. induction l as [|x l IH]; intros l' H.
  - now injection H as <-.
  - simpl in H. destruct (f x) as [b|] eqn:Ex; cbn [cbind] in H; [|discriminate].
    destruct (filterC f l) as [rest|] eqn:Er; cbn [cbind] in H; [|discriminate].
    injection H as <-. simpl. rewrite <- (Hfg x b Ex). now rewrite (IH rest eq_refl).
Qed.

Lemma keepsTag_not_nil routes pair : keepsTag routes pair = true -> pair <> [].
Proof.
  intros H ->. discriminate H.
Qed.

Lemma normalizeTags_spec this q q' text :
  (ToBoolean (getField q "service") = true -> exists name, getField q "service" = VStr name) ->
  getField q "tags" = VStr text -> text <> [] ->
  normalizeTags this q = Normal q' ->
  getField q' "tags" = tagsOf (List.filter (keepsTag (routesFor this q)) (split 32 text)).
Proof.
  intros Hservice Htags Hne. unfold normalizeTags. rewrite Htags.
  assert (Ht : ToBoolean (VStr text) = true) by (destruct text; [congruence|reflexivity]).
  rewrite Ht. intros H. step H. injection H as <-.
  rewrite getField_setField_eq.
  apply (filterC_filter _ (keepsTag (routesFor this q))) in E.
  2:{ intros x b. now apply validTag_keepsTag. }
  subst a.
  set (kept := List.filter (keepsTag (routesFor this q)) (split 32 text)).
  assert (Hkept : Forall (fun x => x <> []) kept).
  { apply List.Forall_forall. intros x Hx. apply filter_In in Hx.
    now apply (keepsTag_not_nil (routesFor this q)). }
  destruct kept as [|p kept'] eqn:Ek; [reflexivity|].
  unfold tagsOf.
  destruct (join (js " ") (p :: kept')) as [|c j] eqn:Ej; [|reflexivity].
  apply join_nil in Ej; [discriminate | exact Hkept].
Qed.

(** ** validateQuery returns on well-typed candidates *)







Lemma includesValue_VStr l v :
  includesValue l v = true -> exists name, v = VStr name /\ In name l.
Proof.
  destruct v; try discriminate. intros H. apply includes_In in H. eauto.
Qed.

(** After the service check the service of the query is falsy or the
    name of a known service. *)
Lemma checkService_shape this q :
  checkService this q = Normal tt ->
  ToBoolean (getField q "service") = true ->
  exists name, getField q "service" = VStr name.
Proof.
  intros H Ht. apply checkService_Normal in H. destruct H as [H|H]; [congruence|].
  apply includesValue_VStr in H. destruct H as (name & -> & _). eauto.
Qed.


Lemma validateQuery_service this q q' :
  validateQuery this q = Normal q' ->
  getField q' "service" = getField q "service" /\
  (ToBoolean (getField q "service") = false \/
   includesValue (services this) (getField q "service") = true).
Proof.
  intros H. apply validateQuery_inv in H.
  destruct H as (q1 & q2 & q3 & q4 & E1 & Ec & E2 & E3 & E4 & E5).
  destruct (normalizeLimit_spec _ _ E1) as [F1 _].
  split.
  - rewrite (agreeOutside_get _ "service" _ _ (normalizeTags_frame _ _ _ E5)) by names.
    rewrite (agreeOutside_get _ "service" _ _ (normalizeDuration_frame _ _ _ E4)) by names.
    rewrite (agreeOutside_get _ "service" _ _ (normalizeDuration_frame _ _ _ E3)) by names.
    rewrite (agreeOutside_get _ "service" _ _ (normalizeLookback_frame _ _ E2)) by names.
    now rewrite (agreeOutside_get _ "service" _ _ F1) by names.
  - apply checkService_Normal in Ec.
    now rewrite (agreeOutside_get _ "service" _ _ F1) in Ec by names.
Qed.

(** ** C2: the service *)



(** A name that is not cached is rejected in the same way. *)
Example service_unknown_name_rejected :
  validateQuery (catalog "payment" []) (object [(js "service", VStr (js "ghost"))]) =
  Throw (Error (jsq "Invalid service `ghost`. Available services are: payment")).
Proof. reflexivity. Qed.


(** ** C1: the tags *)

(** C1, as the code has it.  The tags, when they are a non-empty string,
    are cut at every single space, so that the pieces joined by single
    spaces give the tags back and no piece contains a space; a piece is a
    pair with the text before its first [=] as key and the text from
    there to the next [=] as value.  The pairs that are kept are those
    with a non-empty key and a non-empty value for which: the key is
    [http.route], the query has a service and the value is one of the
    cached routes of that service; or the key is another one, or the
    query has no service, and the key is made of letters, digits, points,
    underscores and hyphens.  They are joined by single spaces, and when
    none is kept the value of [tags] is [undefined]. *)
Theorem tags_filtered this query text query' :
  getField query "tags" = VStr text -> text <> [] ->
  validateQuery this query = Normal query' ->
  join (js " ") (split 32 text) = text /\
  Forall (fun pair => ~ In 32 pair) (split 32 text) /\
  getField query' "tags" =
    tagsOf (List.filter (keepsTag (routesFor this query)) (split 32 text)).
Proof.
  intros Htags Hne H.
  split; [apply (join_split 32)|]. split; [apply split_pieces|].
  apply validateQuery_inv in H.
  destruct H as (q1 & q2 & q3 & q4 & E1 & Ec & E2 & E3 & E4 & E5).
  destruct (normalizeLimit_spec _ _ E1) as [F1 _].
  pose proof (normalizeLookback_frame _ _ E2) as F2.
  pose proof (normalizeDuration_frame _ _ _ E3) as F3.
  pose proof (normalizeDuration_frame _ _ _ E4) as F4.
  assert (Hs4 : getField q4 "service" = getField query "service").
  { rewrite (agreeOutside_get _ "service" _ _ F4) by names.
    rewrite (agreeOutside_get _ "service" _ _ F3) by names.
    rewrite (agreeOutside_get _ "service" _ _ F2) by names.
    now rewrite (agreeOutside_get _ "service" _ _ F1) by names. }
  assert (Ht4 : getField q4 "tags" = VStr text).
  { rewrite (agreeOutside_get _ "tags" _ _ F4) by names.
    rewrite (agreeOutside_get _ "tags" _ _ F3) by names.
    rewrite (agreeOutside_get _ "tags" _ _ F2) by names.
    now rewrite (agreeOutside_get _ "tags" _ _ F1) by names. }
  assert (Hr : routesFor this q4 = routesFor this query).
  { unfold routesFor. now rewrite Hs4. }
  rewrite <- Hr. apply normalizeTags_spec; try assumption.
  rewrite Hs4. rewrite <- (agreeOutside_get _ "service" _ _ F1) by names.
  now apply (checkService_shape this).
Qed.

Lemma tags_filtered_witness :
  validateQuery (catalog "auth-service" ["/v1/login"%string])
    (object [(js "service", VStr (js "auth-service"));
             (js "tags", VStr (js "http.route=/v1/login error=true bad= =novalue"))]) =
  Normal (object [(js "service", VStr (js "auth-service"));
                  (js "tags", VStr (js "http.route=/v1/login error=true"));
                  (js "limit", VNum (Integer 100))]) /\
  getField (object [(js "service", VStr (js "auth-service"));
                    (js "tags", VStr (js "http.route=/v1/login error=true"));
                    (js "limit", VNum (Integer 100))]) "tags" =
  tagsOf (List.filter
            (keepsTag (routesFor (catalog "auth-service" ["/v1/login"%string])
                         (object [(js "service", VStr (js "auth-service"));
                                  (js "tags", VStr (js "http.route=/v1/login error=true bad= =novalue"))])))
            (split 32 (js "http.route=/v1/login error=true bad= =novalue"))).
Proof.
  split; [reflexivity|].
  apply (tags_filtered (catalog "auth-service" ["/v1/login"%string])
           (object [(js "service", VStr (js "auth-service"));
                    (js "tags", VStr (js "http.route=/v1/login error=true bad= =novalue"))])
           (js "http.route=/v1/login error=true bad= =novalue")).
  - reflexivity.
  - discriminate.
  - reflexivity.
Defined.

(** C1 as stated fails: without a service, a pair with the key
    [http.route] is kept, whatever its value. *)
Lemma route_tag_kept_without_service :
  validateQuery (catalog "auth-service" ["/v1/login"%string])
    (object [(js "tags", VStr (js "http.route=/nowhere"))]) =
  Normal (object [(js "tags", VStr (js "http.route=/nowhere"));
                  (js "limit", VNum (Integer 100))]).
Proof. reflexivity. Qed.

(** The examples of the specification for the route check. *)
Example route_tag_of_the_service_kept :
  validateQuery (catalog "auth-service" ["/v1/login"%string])
    (object [(js "service", VStr (js "auth-service"));
             (js "tags", VStr (js "http.route=/v1/login"))]) =
  Normal (object [(js "service", VStr (js "auth-service"));
                  (js "tags", VStr (js "http.route=/v1/login"));
                  (js "limit", VNum (Integer 100))]).
Proof. reflexivity. Qed.

Example route_tag_of_another_route_dropped :
  validateQuery (catalog "auth-service" ["/v2/login"%string])
    (object [(js "service", VStr (js "auth-service"));
             (js "tags", VStr (js "http.route=/v1/login"))]) =
  Normal (object [(js "service", VStr (js "auth-service"));
                  (js "tags", VUndefined);
                  (js "limit", VNum (Integer 100))]).
Proof. reflexivity. Qed.

(** A tab is not a separator, and empty tags stay the empty string. *)
Example tags_tab_is_not_a_separator :
  validateQuery noServices (object [(js "tags", VStr (js "a=1" ++ [9] ++ js "b=2"))]) =
  Normal (object [(js "tags", VStr (js "a=1" ++ [9] ++ js "b=2"));
                  (js "limit", VNum (Integer 100))]).
Proof. reflexivity. Qed.

Example tags_empty_string_kept :
  validateQuery noServices (object [(js "tags", VStr [])]) =
  Normal (object [(js "tags", VStr []); (js "limit", VNum (Integer 100))]).
Proof. reflexivity. Qed.

(** ** C6: the JSON object in the text of the model *)

Lemma closingBrace_cons c s : closingBrace (c :: s) = if 125 =? c then Some s else None.
Proof. reflexivity. Qed.

(** Without a closing brace in the text, [[\s\S]*\}] does not match. *)
Lemma star_any_none s :
  ~ In 125 s -> matchHere (Star (fun _ => true)) s closingBrace = None.
Proof.
  induction s as [|c s IH]; intros H; [reflexivity|].
  rewrite matchHere_Star_cons. rewrite IH by (intros Hin; apply H; now right).
  rewrite closingBrace_cons.
  destruct (N.eqb_spec 125 c) as [<-|]; [|reflexivity].
  exfalso. apply H. now left.
Qed.

(** [[\s\S]*\}] matches up to the last closing brace. *)
Lemma star_any_last a post :
  ~ In 125 post ->
  matchHere (Star (fun _ => true)) (a ++ 125 :: post) closingBrace = Some post.
Proof.
  intros H. induction a as [|c a IH]; cbn [app]; rewrite matchHere_Star_cons.
  - now rewrite (star_any_none post H).
  - now rewrite IH.
Qed.

Lemma star_any_sound s rest :
  matchHere (Star (fun _ => true)) s closingBrace = Some rest ->
  exists a, s = a ++ 125 :: rest.
Proof.
  induction s as [|c s IH]; [discriminate|].
  rewrite matchHere_Star_cons.
  destruct (matchHere (Star (fun _ => true)) s closingBrace) as [x|] eqn:E.
  - intros H. injection H as ->. destruct (IH eq_refl) as [a ->].
    now exists (c :: a).
  - rewrite closingBrace_cons. destruct (N.eqb_spec 125 c) as [<-|]; [|discriminate].
    intros H. injection H as ->. now exists [].
Qed.

Lemma jsonRegex_here s :
  matchHere (body jsonRegex) s Some =
  match s with
  | c :: s' => if 123 =? c then matchHere (Star (fun _ => true)) s' closingBrace else None
  | [] => None
  end.
Proof. destruct s; reflexivity. Qed.

Lemma matchAt_jsonRegex mid post :
  ~ In 125 post ->
  matchAt (body jsonRegex) (123 :: mid ++ 125 :: post) = Some (123 :: mid ++ [125]).
Proof.
  intros H. unfold matchAt. rewrite jsonRegex_here.
  change (123 =? 123) with true. cbv iota. rewrite (star_any_last mid post H).
  f_equal.
  assert (E : 123 :: mid ++ 125 :: post = (123 :: mid ++ [125]) ++ post).
  { cbn [app]. now rewrite <- app_assoc. }
  rewrite E, length_app.
  rewrite Nat.add_sub.
  apply take_app_length.
Qed.

Lemma search_jsonRegex pre mid post :
  ~ In 123 pre -> ~ In 125 post ->
  search (body jsonRegex) (pre ++ 123 :: mid ++ 125 :: post) = Some (123 :: mid ++ [125]).
Proof.
  intros Hpre Hpost. induction pre as [|c pre IH]; cbn [app].
  - cbn [search]. now rewrite (matchAt_jsonRegex mid post Hpost).
  - cbn [search].
    assert (Hc : matchAt (body jsonRegex) (c :: pre ++ 123 :: mid ++ 125 :: post) = None).
    { unfold matchAt. rewrite jsonRegex_here.
      destruct (N.eqb_spec 123 c) as [<-|]; [|reflexivity].
      exfalso. apply Hpre. now left. }
    rewrite Hc. apply IH. intros Hin. apply Hpre. now right.
Qed.

Lemma search_jsonRegex_sound s m :
  search (body jsonRegex) s = Some m ->
  exists pre mid post, s = pre ++ 123 :: mid ++ 125 :: post.
Proof.
  induction s as [|c s IH].
  - cbn. discriminate.
  - cbn [search].
    destruct (matchAt (body jsonRegex) (c :: s)) as [x|] eqn:E.
    + intros _. unfold matchAt in E. rewrite jsonRegex_here in E.
      destruct (N.eqb_spec 123 c) as [<-|]; [|discriminate].
      destruct (matchHere (Star (fun _ => true)) s closingBrace) as [rest|] eqn:Er;
        [|discriminate].
      apply star_any_sound in Er. destruct Er as [a ->].
      now exists [], a, rest.
    + intros H. destruct (IH H) as (pre & mid & post & ->).
      now exists (c :: pre), mid, post.
Qed.

(** C6, as the code has it.  A text that parses as JSON is returned as
    parsed, whether or not it is an object.  Otherwise the span from the
    first opening brace to the last closing brace of the text is parsed,
    and its outcome is the outcome; without such a span the error is that
    no JSON object was found.  On the text of the example the result is
    the object with service "order" and limit 10. *)
Theorem json_extracted text :
  (forall result, JSON_parse text = Normal result -> extractJson text = Normal result) /\
  ((exists e, JSON_parse text = Throw e) ->
     (forall pre mid post,
        text = pre ++ 123 :: mid ++ 125 :: post -> ~ In 123 pre -> ~ In 125 post ->
        extractJson text = JSON_parse (123 :: mid ++ [125])) /\
     ((forall pre mid post, text <> pre ++ 123 :: mid ++ 125 :: post) ->
        extractJson text =
        Throw (Error (js "No valid JSON object found in the response")))) /\
  extractJson (jsq "Sure! Here is the JSON: {`service`:`order`,`limit`:10} Hope that helps.") =
    Normal (VObj [(js "service", VStr (js "order")); (js "limit", VNum (Integer 10))]).
Proof.
  split; [|split].
  - intros result H. unfold extractJson. now rewrite H.
  - intros [e He]. unfold extractJson. rewrite He. split.
    + intros pre mid post -> Hpre Hpost.
      unfold strMatch. change (anchored jsonRegex) with false. cbv iota.
      now rewrite search_jsonRegex.
    + intros Hnone. unfold strMatch. change (anchored jsonRegex) with false. cbv iota.
      destruct (search (body jsonRegex) text) as [m|] eqn:E; [|reflexivity].
      apply search_jsonRegex_sound in E. destruct E as (pre & mid & post & E).
      now apply Hnone in E.
  - vm_compute. reflexivity.
Qed.

Lemma json_extracted_witness :
  JSON_parse (jsq "Here: {`limit`:10} ok") = Throw SyntaxError /\
  extractJson (jsq "Here: {`limit`:10} ok") = JSON_parse (jsq "{`limit`:10}").
Proof.
  split; [reflexivity|].
  destruct (json_extracted (jsq "Here: {`limit`:10} ok")) as (_ & H & _).
  destruct H as [H _]; [exists SyntaxError; reflexivity|].
  apply (H (js "Here: ") (jsq "`limit`:10") (js " ok")).
  - reflexivity.
  - vm_compute. intuition discriminate.
  - vm_compute. intuition discriminate.
Defined.

(** C6 as stated fails: a text that is JSON but not an object is returned
    and nothing is thrown, though neither attempt yields an object. *)
Lemma json_number_extracted :
  extractJson (js "42") = Normal (VNum (Integer 42)).
Proof. reflexivity. Qed.

(** The span ends at the last closing brace of the text, not at the brace
    that closes the first object. *)
Example json_span_is_greedy :
  extractJson (jsq "first {`limit`:1} then {`limit`:2} end") = Throw SyntaxError /\
  JSON_parse (jsq "{`limit`:1}") = Normal (VObj [(js "limit", VNum (Integer 1))]).
Proof. split; reflexivity. Qed.

(** ** The effects of the service *)

Lemma bind_Normal {A B} (c : M A) (k : A -> M B) w a w' :
  c w = (Normal a, w') -> bind c k w = k a w'.
Proof. unfold bind. now intros ->. Qed.

Lemma bind_Throw {A B} (c : M A) (k : A -> M B) w e w' :
  c w = (Throw e, w') -> bind c k w = (Throw e, w').
Proof. unfold bind. now intros ->. Qed.

Lemma tryCatch_Normal {A} (c : M A) handler w a w' :
  c w = (Normal a, w') -> tryCatch c handler w = (Normal a, w').
Proof. unfold tryCatch. now intros ->. Qed.

Lemma tryCatch_Throw {A} (c : M A) handler w e w' :
  c w = (Throw e, w') -> tryCatch c handler w = handler e w'.
Proof. unfold tryCatch. now intros ->. Qed.

Lemma logged_logged w a b : logged (logged w a) b = logged w (a ++ b).
Proof. unfold logged. simpl. now rewrite app_assoc. Qed.

Lemma perform_eq e w : perform e w = (Normal tt, logged w [e]).
Proof. reflexivity. Qed.

Lemma fetch_eq {A} r (answer : fetched A) w :
  fetch r answer w =
  (match answer with
   | Unreachable => Throw TypeError
   | TimedOut => Throw TimeoutError
   | Responded h => Normal h
   end, logged w [Fetch r]).
Proof. now destruct answer. Qed.

Lemma checkHealth_eq net w :
  checkHealth net w =
  (if healthFails net then Throw backendUnavailableError else Normal tt,
   logged w [Fetch GetVersion]).
Proof.
  unfold checkHealth, healthFails, tryCatch, bind. rewrite fetch_eq.
  destruct (versionApi net) as [| |h]; try reflexivity.
  now destruct (ok h).
Qed.

(** Two worlds that differ in the bracketing of their logs. *)
Ltac worlds :=
  unfold logged; cbn [this effects services serviceRoutes];
  rewrite <- ?app_assoc, ?app_nil_r; reflexivity.

Lemma setRoutes_eq name routes w :
  setRoutes name routes w =
  (Normal tt,
   {| this := {| services := services (this w);
                 serviceRoutes := <[name := routes]> (serviceRoutes (this w)) |};
      effects := effects w |}).
Proof. reflexivity. Qed.

Lemma fetchServiceOperations_eq net name w :
  fetchServiceOperations net name w =
  (Normal tt,
   {| this := {| services := services (this w);
                 serviceRoutes :=
                   <[name := default [] (operationsOf net name)]> (serviceRoutes (this w)) |};
      effects := effects w ++ operationsEffects net name |}).
Proof.
  unfold fetchServiceOperations, operationsEffects, operationsOf, operationsFailure.
  destruct (isWellFormed name).
  - unfold tryCatch, bind at 1. unfold ret at 1.
    unfold bind at 1. rewrite fetch_eq.
    destruct (operationsApi net name) as [| |h]; cbn [listOf].
    + unfold bind. rewrite perform_eq, setRoutes_eq. worlds.
    + unfold bind. rewrite perform_eq, setRoutes_eq. worlds.
    + destruct (ok h); cbn [negb].
      * unfold readJson, bind. destruct (json h) as [body|].
        -- unfold ret. rewrite setRoutes_eq. worlds.
        -- unfold throw. rewrite perform_eq, setRoutes_eq. worlds.
      * unfold throw, bind. rewrite perform_eq, setRoutes_eq. worlds.
  - unfold tryCatch, bind at 1. unfold throw at 1.
    unfold bind. rewrite perform_eq, setRoutes_eq. worlds.
Qed.

Lemma forEach_operations net names w :
  forEach names (fetchServiceOperations net) w =
  (Normal tt,
   {| this := {| services := services (this w);
                 serviceRoutes := routesAfter net names (serviceRoutes (this w)) |};
      effects := effects w ++ concat (List.map (operationsEffects net) names) |}).
Proof.
  revert w. induction names as [|name names IH]; intros w.
  - destruct w as [[s r] e]. worlds.
  - cbn [forEach]. unfold bind. rewrite fetchServiceOperations_eq, IH. worlds.
Qed.

Lemma fetchServices_eq net w :
  fetchServices net w =
  match listed net with
  | Some names => (Normal names, populated net names w)
  | None =>
      (Throw metadataFetchError,
       logged w [Fetch GetServices; ConsoleError (js "Failed to fetch services:")])
  end.
Proof.
  unfold fetchServices, listed, populated.
  unfold tryCatch, bind at 1. rewrite fetch_eq.
  destruct (servicesApi net) as [| |h]; cbn [listOf].
  - unfold bind. rewrite perform_eq. unfold throw. worlds.
  - unfold bind. rewrite perform_eq. unfold throw. worlds.
  - destruct (ok h); cbn [negb].
    + unfold readJson. destruct (json h) as [body|].
      * unfold bind at 1. unfold ret at 1. unfold bind at 1. unfold getThis at 1.
        unfold bind at 1. unfold setThis at 1. unfold bind at 1. unfold getThis at 1.
        unfold bind at 1. rewrite forEach_operations. worlds.
      * unfold bind at 1. unfold throw at 1. unfold bind. rewrite perform_eq.
        unfold throw. worlds.
    + unfold throw at 1. unfold bind. rewrite perform_eq. unfold throw. worlds.
Qed.

Lemma ensureLoaded_eq net w :
  ensureLoaded net w =
  match services (this w) with
  | [] =>
      match listed net with
      | Some names => (Normal tt, populated net names w)
      | None =>
          (Throw metadataFetchError,
           logged w [Fetch GetServices; ConsoleError (js "Failed to fetch services:")])
      end
  | _ :: _ => (Normal tt, w)
  end.
Proof.
  unfold ensureLoaded, bind at 1, getThis.
  destruct (services (this w)) as [|s l]; [|reflexivity].
  cbn [length Nat.eqb]. unfold bind. rewrite fetchServices_eq.
  now destruct (listed net).
Qed.

(** ** The routes after the population of the catalog *)

Lemma routesAfter_cons net n names routes :
  routesAfter net (n :: names) routes =
  routesAfter net names (<[n := default [] (operationsOf net n)]> routes).
Proof. reflexivity. Qed.

Lemma routesAfter_other net names routes name :
  ~ In name names -> routesAfter net names routes !! name = routes !! name.
Proof.
  revert routes. induction names as [|n names IH]; intros routes H; [reflexivity|].
  rewrite routesAfter_cons.
  rewrite IH by (intros Hin; apply H; now right).
  apply lookup_insert_ne. intros ->. apply H. now left.
Qed.

Lemma routesAfter_listed net names routes name :
  In name names ->
  routesAfter net names routes !! name = Some (default [] (operationsOf net name)).
Proof.
  revert routes. induction names as [|n names IH]; intros routes H; [destruct H|].
  rewrite routesAfter_cons.
  destruct (List.in_dec (fun a b : jsstring => decide (a = b)) name names) as [Hin|Hnot].
  - now apply IH.
  - destruct H as [->|H]; [|contradiction].
    rewrite routesAfter_other by exact Hnot. apply lookup_insert_eq.
Qed.

Lemma operationsEffects_failure net name :
  operationsOf net name = None -> In (operationsFailure name) (operationsEffects net name).
Proof.
  intros H. unfold operationsEffects. rewrite H. apply in_or_app. right. now left.
Qed.

(** ** Computations only add to the log *)

Lemma appendOnly_ret {A} (a : A) : appendOnly (ret a).
Proof. intros w. exists []. cbn. now rewrite app_nil_r. Qed.

Lemma appendOnly_throw {A} e : appendOnly (@throw A e).
Proof. intros w. exists []. cbn. now rewrite app_nil_r. Qed.

Lemma appendOnly_lift {A} (c : completion A) : appendOnly (lift c).
Proof. intros w. exists []. cbn. now rewrite app_nil_r. Qed.

Lemma appendOnly_getThis : appendOnly getThis.
Proof. intros w. exists []. cbn. now rewrite app_nil_r. Qed.

Lemma appendOnly_perform e : appendOnly (perform e).
Proof. intros w. now exists [e]. Qed.

Lemma appendOnly_bind {A B} (c : M A) (k : A -> M B) :
  appendOnly c -> (forall a, appendOnly (k a)) -> appendOnly (bind c k).
Proof.
  intros Hc Hk w. unfold bind. destruct (Hc w) as [a1 E1].
  destruct (c w) as [[a|e] w1]; cbn [snd] in *.
  - destruct (Hk a w1) as [a2 E2]. exists (a1 ++ a2).
    rewrite E2, E1. now rewrite app_assoc.
  - now exists a1.
Qed.

Lemma appendOnly_tryCatch {A} (c : M A) handler :
  appendOnly c -> (forall e, appendOnly (handler e)) -> appendOnly (tryCatch c handler).
Proof.
  intros Hc Hh w. unfold tryCatch. destruct (Hc w) as [a1 E1].
  destruct (c w) as [[a|e] w1]; cbn [snd] in *.
  - now exists a1.
  - destruct (Hh e w1) as [a2 E2]. exists (a1 ++ a2).
    rewrite E2, E1. now rewrite app_assoc.
Qed.

Lemma appendOnly_fetch {A} r (answer : fetched A) : appendOnly (fetch r answer).
Proof. intros w. rewrite fetch_eq. now exists [Fetch r]. Qed.

Lemma appendOnly_readJson {A} (h : httpResponse A) : appendOnly (readJson h).
Proof.
  unfold readJson. destruct (json h); [apply appendOnly_ret | apply appendOnly_throw].
Qed.

Ltac append_only :=
  repeat first
    [ apply appendOnly_ret | apply appendOnly_throw | apply appendOnly_perform
    | apply appendOnly_getThis | apply appendOnly_lift | apply appendOnly_fetch
    | apply appendOnly_readJson
    | apply appendOnly_bind; [|intros ?]
    | apply appendOnly_tryCatch; [|intros ?]
    | match goal with
      | |- appendOnly (if ?b then _ else _) => destruct b
      end ].

(** ** The steps of translateQuery *)

Lemma bind_perform {A} e (k : unit -> M A) w :
  bind (perform e) k w = k tt (logged w [e]).
Proof. reflexivity. Qed.

Lemma bind_getThis {A} (k : service -> M A) w : bind getThis k w = k (this w) w.
Proof. reflexivity. Qed.

Lemma bind_lift {A B} (c : completion A) (k : A -> M B) w :
  bind (lift c) k w =
  match c with
  | Normal a => k a w
  | Throw e => (Throw e, w)
  end.
Proof. now destruct c. Qed.

Lemma tryCatch_bind_Normal {A B} (c : M A) (k : A -> M B) handler w a w' :
  c w = (Normal a, w') ->
  tryCatch (bind c k) handler w = tryCatch (k a) handler w'.
Proof. unfold tryCatch, bind. now intros ->. Qed.

Lemma tryCatch_bind_Throw {A B} (c : M A) (k : A -> M B) handler w e w' :
  c w = (Throw e, w') ->
  tryCatch (bind c k) handler w = handler e w'.
Proof. unfold tryCatch, bind. now intros ->. Qed.

Lemma tryCatch_after_health {A} net (k : unit -> M A) handler w :
  tryCatch (bind (checkHealth net) k) handler w =
  if healthFails net
  then handler backendUnavailableError (logged w [Fetch GetVersion])
  else tryCatch (k tt) handler (logged w [Fetch GetVersion]).
Proof.
  unfold tryCatch, bind. rewrite checkHealth_eq. now destruct (healthFails net).
Qed.

(** The call when the health check fails. *)
Lemma translateQuery_unhealthy net query ctx w :
  healthFails net = true ->
  translateQuery net query ctx w =
  (Throw backendUnavailableError,
   logged w [translationStarted; Fetch GetVersion; translationFailed]).
Proof.
  intros H. unfold translateQuery.
  rewrite bind_perform, tryCatch_after_health, H, bind_perform.
  unfold throw. worlds.
Qed.

(** The call when the population of the catalog fails. *)
Lemma translateQuery_catalog_fails net query ctx w e w3 :
  healthFails net = false ->
  ensureLoaded net (afterHealthCheck w) = (Throw e, w3) ->
  translateQuery net query ctx w = (Throw e, logged w3 [translationFailed]).
Proof.
  intros Hhealth Hload. unfold translateQuery.
  rewrite bind_perform, tryCatch_after_health, Hhealth, logged_logged.
  erewrite tryCatch_bind_Throw by exact Hload.
  now rewrite bind_perform.
Qed.

(** The call when the metadata view cannot be built. *)
Lemma translateQuery_view_fails net query ctx w w3 e :
  healthFails net = false ->
  ensureLoaded net (afterHealthCheck w) = (Normal tt, w3) ->
  servicesInfo (this w3) ctx = Throw e ->
  translateQuery net query ctx w = (Throw e, logged w3 [translationFailed]).
Proof.
  intros Hhealth Hload Hinfo. unfold translateQuery.
  rewrite bind_perform, tryCatch_after_health, Hhealth, logged_logged.
  erewrite tryCatch_bind_Normal by exact Hload.
  unfold tryCatch. rewrite bind_getThis, bind_lift, Hinfo.
  now rewrite bind_perform.
Qed.

Lemma tryCatch_fetch_first {A B} r (answer : fetched A)
    (k : httpResponse A -> M B) handler w :
  (forall h, appendOnly (k h)) -> (forall e, appendOnly (handler e)) ->
  exists added,
    effects (snd (tryCatch (bind (fetch r answer) k) handler w)) =
    effects w ++ Fetch r :: added.
Proof.
  intros Hk Hh.
  assert (Hlog : forall (c : M B), appendOnly c ->
            exists added, effects (snd (c (logged w [Fetch r]))) = effects w ++ Fetch r :: added).
  { intros c Hc. destruct (Hc (logged w [Fetch r])) as [added E]. exists added.
    rewrite E. unfold logged. cbn [effects]. now rewrite <- app_assoc. }
  destruct answer as [| |h].
  - erewrite tryCatch_bind_Throw by reflexivity. now apply Hlog.
  - erewrite tryCatch_bind_Throw by reflexivity. now apply Hlog.
  - erewrite tryCatch_bind_Normal by reflexivity.
    apply Hlog. now apply appendOnly_tryCatch.
Qed.

(** The call when the metadata view is built: the prompt is logged and
    sent. *)
Lemma translateQuery_generates net query ctx w w3 info :
  healthFails net = false ->
  ensureLoaded net (afterHealthCheck w) = (Normal tt, w3) ->
  servicesInfo (this w3) ctx = Normal info ->
  exists added,
    effects (snd (translateQuery net query ctx w)) =
    effects w3 ++
    ConsoleLog (js "Request body:") ::
    Fetch (PostGenerate (js "llama3.1") (renderPrompt SYSTEM_PROMPT info query) false) ::
    added.
Proof.
  intros Hhealth Hload Hinfo. unfold translateQuery.
  rewrite bind_perform, tryCatch_after_health, Hhealth, logged_logged.
  erewrite tryCatch_bind_Normal by exact Hload.
  erewrite tryCatch_bind_Normal by reflexivity. cbv beta. rewrite Hinfo.
  erewrite tryCatch_bind_Normal by reflexivity. cbv beta zeta.
  erewrite tryCatch_bind_Normal by reflexivity.
  match goal with
  | |- context [tryCatch (bind (fetch ?r ?a) ?k) ?h ?w0] =>
      destruct (tryCatch_fetch_first r a k h w0) as [added E]
  end.
  - intros h. append_only.
  - intros e. append_only.
  - exists added. rewrite E. unfold logged. cbn [effects]. now rewrite <- app_assoc.
Qed.

Lemma appendOnly_ensureLoaded net : appendOnly (ensureLoaded net).
Proof.
  intros w. rewrite ensureLoaded_eq.
  destruct (services (this w)).
  - destruct (listed net); eexists; reflexivity.
  - exists []. cbn. now rewrite app_nil_r.
Qed.

(** ** C7: the health check *)

(** C7.  Whatever the cached state, the first request of a call is the
    health check (a GET with a time limit of 5000 ms), sent right after
    the opening console line.  When it fails (no connection, no answer
    within the time limit, or a status outside 200 to 299) the call
    throws the error that tells to install and start Ollama, the cached
    state is unchanged, and the only effects of the call are the opening
    line, the health check and the console line of the failure: no
    generation request is sent. *)
Theorem health_check_first net query ctx w :
  timeLimit GetVersion = Some 5000 /\
  (exists added,
     effects (snd (translateQuery net query ctx w)) =
     effects w ++ translationStarted :: Fetch GetVersion :: added) /\
  (healthFails net = true ->
     fst (translateQuery net query ctx w) =
       Throw (Error (js "Ollama service is not available. Please ensure Ollama is installed and running on port 11434. Visit https://ollama.ai for installation instructions.")) /\
     this (snd (translateQuery net query ctx w)) = this w /\
     effects (snd (translateQuery net query ctx w)) =
       effects w ++ [translationStarted; Fetch GetVersion; translationFailed] /\
     existsb isGenerate [translationStarted; Fetch GetVersion; translationFailed] = false).
Proof.
  split; [reflexivity|]. split.
  - destruct (healthFails net) eqn:Hhealth.
    + rewrite translateQuery_unhealthy by exact Hhealth.
      now exists [translationFailed].
    + unfold translateQuery.
      rewrite bind_perform, tryCatch_after_health, Hhealth, logged_logged.
      match goal with
      | |- context [tryCatch ?c ?h ?w0] =>
          destruct (appendOnly_tryCatch c h) with (w := w0) as [added E]
      end.
      * apply appendOnly_bind; [apply appendOnly_ensureLoaded|]. intros _. append_only.
      * intros e. append_only.
      * exists added. rewrite E. unfold logged. cbn [effects]. now rewrite <- app_assoc.
  - intros Hhealth. rewrite translateQuery_unhealthy by exact Hhealth.
    repeat split.
Qed.

Lemma health_check_first_witness :
  healthFails unreachableNetwork = true /\
  fst (translateQuery unreachableNetwork (js "slow requests") None freshWorld) =
    Throw backendUnavailableError /\
  effects (snd (translateQuery unreachableNetwork (js "slow requests") None freshWorld)) =
    [translationStarted; Fetch GetVersion; translationFailed].
Proof.
  split; [reflexivity|].
  destruct (health_check_first unreachableNetwork (js "slow requests") None freshWorld)
    as (_ & _ & H).
  destruct (H eq_refl) as (Hresult & _ & Heffects & _).
  split; [exact Hresult | exact Heffects].
Defined.

(** ** C8: the population of the catalog *)

Lemma mapC_returns {A B} (f : A -> completion B) l :
  (forall x, In x l -> exists y, f x = Normal y) -> exists l', mapC f l = Normal l'.
Proof.
  induction l as [|x l IH]; intros H; [now exists []|].
  destruct (H x (or_introl eq_refl)) as [y Hy].
  destruct IH as [l' IH]; [intros z Hz; apply H; now right|].
  cbn [mapC]. rewrite Hy, IH. cbn [cbind]. eauto.
Qed.

Lemma servicesInfo_returns self ctx :
  (forall name, In name (services self) ->
     exists routes, serviceRoutes self !! name = Some routes) ->
  (forall name, selected ctx = Some name -> In name (services self)) ->
  exists info, servicesInfo self ctx = Normal info.
Proof.
  intros H Hselected. unfold servicesInfo.
  destruct (selected ctx) as [name|].
  - destruct (H name (Hselected name eq_refl)) as [routes Hroutes].
    unfold joinedRoutes. rewrite Hroutes. cbn [cbind]. eauto.
  - match goal with
    | |- context [mapC ?f ?l] => destruct (mapC_returns f l) as [lines ->]
    end.
    + intros name Hin. destruct (H name Hin) as [routes Hroutes].
      unfold joinedRoutes. rewrite Hroutes. cbn [cbind]. eauto.
    + cbn [cbind]. eauto.
Qed.

(** C8.  When the fetch of the service list fails, [fetchServices] throws
    the error that the services could not be fetched, and so does a call
    of [translateQuery] that has to populate the catalog; nothing is sent
    to the generation endpoint.  When the list is fetched, [fetchServices]
    returns it and never throws: every listed service gets its routes, a
    service whose operations fetch fails gets the empty list and one
    console error line, and a call of [translateQuery] (without a
    selected service, or with a listed one) goes on to send the prompt. *)
Theorem catalog_population net w :
  (listed net = None ->
     fst (fetchServices net w) =
       Throw (Error (js "Failed to fetch available services. Please try again later.")) /\
     (forall query ctx, healthFails net = false -> services (this w) = [] ->
        fst (translateQuery net query ctx w) =
          Throw (Error (js "Failed to fetch available services. Please try again later.")) /\
        effects (snd (translateQuery net query ctx w)) =
          effects w ++ [translationStarted; Fetch GetVersion; Fetch GetServices;
                        ConsoleError (js "Failed to fetch services:"); translationFailed])) /\
  (forall names, listed net = Some names ->
     fst (fetchServices net w) = Normal names /\
     services (this (snd (fetchServices net w))) = names /\
     (forall name, In name names ->
        (forall routes, operationsOf net name = Some routes ->
           serviceRoutes (this (snd (fetchServices net w))) !! name = Some routes) /\
        (operationsOf net name = None ->
           serviceRoutes (this (snd (fetchServices net w))) !! name = Some [] /\
           In (operationsFailure name) (effects (snd (fetchServices net w))))) /\
     (forall query ctx, healthFails net = false -> services (this w) = [] ->
        (forall name, selected ctx = Some name -> In name names) ->
        exists prompt,
          In (Fetch (PostGenerate (js "llama3.1") prompt false))
             (effects (snd (translateQuery net query ctx w))))).
Proof.
  split.
  - intros Hlist. rewrite fetchServices_eq, Hlist. split; [reflexivity|].
    intros query ctx Hhealth Hempty.
    rewrite (translateQuery_catalog_fails net query ctx w metadataFetchError
               (logged (afterHealthCheck w)
                  [Fetch GetServices; ConsoleError (js "Failed to fetch services:")])).
    + split; [reflexivity|]. unfold afterHealthCheck. worlds.
    + exact Hhealth.
    + rewrite ensureLoaded_eq. cbn [afterHealthCheck logged this]. now rewrite Hempty, Hlist.
  - intros names Hlist. rewrite fetchServices_eq, Hlist. cbn [fst snd].
    split; [reflexivity|]. split; [reflexivity|]. split.
    + intros name Hin. cbn [populated this serviceRoutes effects]. split.
      * intros routes Hroutes. rewrite routesAfter_listed by exact Hin. now rewrite Hroutes.
      * intros Hfail. split.
        -- rewrite routesAfter_listed by exact Hin. now rewrite Hfail.
        -- apply in_or_app. right. right. apply in_concat.
           exists (operationsEffects net name). split.
           ++ apply in_map_iff. now exists name.
           ++ now apply operationsEffects_failure.
    + intros query ctx Hhealth Hempty Hselected.
      assert (Hload : ensureLoaded net (afterHealthCheck w) =
                      (Normal tt, populated net names (afterHealthCheck w))).
      { rewrite ensureLoaded_eq. cbn [afterHealthCheck logged this]. now rewrite Hempty, Hlist. }
      destruct (servicesInfo_returns (this (populated net names (afterHealthCheck w))) ctx)
        as [info Hinfo].
      { intros name Hin. cbn [populated this services serviceRoutes] in *.
        rewrite routesAfter_listed by exact Hin. eauto. }
      { exact Hselected. }
      destruct (translateQuery_generates net query ctx w _ info Hhealth Hload Hinfo)
        as [added E].
      exists (renderPrompt SYSTEM_PROMPT info query). rewrite E.
      apply in_or_app. right. right. now left.
Qed.

Lemma catalog_population_witness :
  listed unreachableNetwork = None /\
  fst (fetchServices unreachableNetwork freshWorld) = Throw metadataFetchError.
Proof.
  split; [reflexivity|].
  destruct (catalog_population unreachableNetwork freshWorld) as [H _].
  destruct (H eq_refl) as [Hresult _]. exact Hresult.
Defined.

(** ** C10: a selected service without routes *)

Lemma servicesInfo_selected_missing self name :
  name <> [] -> serviceRoutes self !! name = None ->
  servicesInfo self (Some {| selectedService := Some name |}) = Throw TypeError.
Proof.
  intros Hne Hnone. unfold servicesInfo.
  destruct name as [|c name]; [congruence|]. cbn [selected].
  unfold joinedRoutes. now rewrite Hnone.
Qed.

Lemma operationsEffects_silent net name : Forall silent (operationsEffects net name).
Proof.
  unfold operationsEffects. apply Forall_app. split.
  - destruct (isWellFormed name); repeat constructor. discriminate.
  - destruct (operationsOf net name); repeat constructor. discriminate.
Qed.

(** C10, as the code has it.  When the health check succeeds and the
    catalog is there (already cached, or fetched without the selected
    name in the list), a call that selects a non-empty service name
    without an entry in the cached routes throws a TypeError while it
    builds the metadata view: the prompt is not logged and no generation
    request is sent, and the error is not the invalid-service error.
    (When the health check or the fetch of the list fails, that failure
    comes first.) *)
Theorem selected_service_without_routes net query name w :
  name <> [] ->
  healthFails net = false ->
  serviceRoutes (this w) !! name = None ->
  services (this w) <> [] \/ (exists names, listed net = Some names /\ ~ In name names) ->
  fst (translateQuery net query (Some {| selectedService := Some name |}) w) = Throw TypeError /\
  exists added,
    effects (snd (translateQuery net query (Some {| selectedService := Some name |}) w)) =
      effects w ++ added /\
    Forall silent added.
Proof.
  intros Hne Hhealth Hnone Hcatalog.
  destruct (services (this w)) as [|s l] eqn:Hs.
  - destruct Hcatalog as [H|(names & Hlist & Hnot)]; [congruence|].
    assert (Hload : ensureLoaded net (afterHealthCheck w) =
                    (Normal tt, populated net names (afterHealthCheck w))).
    { rewrite ensureLoaded_eq. cbn [afterHealthCheck logged this]. now rewrite Hs, Hlist. }
    rewrite (translateQuery_view_fails net query _ w _ TypeError Hhealth Hload).
    2:{ apply servicesInfo_selected_missing; [exact Hne|].
        cbn [populated this serviceRoutes afterHealthCheck logged].
        now rewrite routesAfter_other. }
    split; [reflexivity|].
    exists ([translationStarted; Fetch GetVersion] ++
            Fetch GetServices :: concat (List.map (operationsEffects net) names) ++
            [translationFailed]).
    split.
    + unfold afterHealthCheck. unfold populated, logged. cbn [snd effects].
      rewrite <- !app_assoc. reflexivity.
    + apply Forall_app. split; [repeat constructor; discriminate|].
      constructor; [split; [reflexivity | discriminate]|].
      apply Forall_app. split; [|repeat constructor; discriminate].
      apply Forall_concat. apply List.Forall_forall. intros effs Hin.
      apply in_map_iff in Hin. destruct Hin as (n & <- & _).
      apply operationsEffects_silent.
  - assert (Hload : ensureLoaded net (afterHealthCheck w) = (Normal tt, afterHealthCheck w)).
    { rewrite ensureLoaded_eq. cbn [afterHealthCheck logged this]. now rewrite Hs. }
    rewrite (translateQuery_view_fails net query _ w _ TypeError Hhealth Hload).
    2:{ now apply servicesInfo_selected_missing. }
    split; [reflexivity|].
    exists [translationStarted; Fetch GetVersion; translationFailed].
    split.
    + unfold afterHealthCheck, logged. cbn [snd effects]. now rewrite <- app_assoc.
    + repeat constructor; discriminate.
Qed.

Lemma selected_service_without_routes_witness :
  healthFails (healthyNetwork [js "payment"] []) = false /\
  serviceRoutes (this freshWorld) !! js "ghost" = None /\
  fst (translateQuery (healthyNetwork [js "payment"] []) (js "slow requests")
         (Some {| selectedService := Some (js "ghost") |}) freshWorld) = Throw TypeError.
Proof.
  split; [reflexivity|]. split; [reflexivity|].
  apply (selected_service_without_routes (healthyNetwork [js "payment"] [])
           (js "slow requests") (js "ghost") freshWorld).
  - discriminate.
  - reflexivity.
  - reflexivity.
  - right. exists [js "payment"]. split; [reflexivity|].
    intros [E|[]]. discriminate E.
Defined.

(** C10 as stated fails: when the generation endpoint is down, a call
    that selects a service without routes throws the error of the health
    check, not a TypeError. *)
Lemma selected_service_backend_down :
  serviceRoutes (this freshWorld) !! js "ghost" = None /\
  fst (translateQuery unreachableNetwork (js "slow requests")
         (Some {| selectedService := Some (js "ghost") |}) freshWorld) =
    Throw backendUnavailableError /\
  backendUnavailableError <> TypeError.
Proof. repeat split. discriminate. Qed.

(** ** C9: the prompt *)

Lemma SYSTEM_PROMPT_parts :
  SYSTEM_PROMPT =
  promptBefore ++ js "{services}" ++ promptBetween ++ js "{query}" ++ promptAfter.
Proof. vm_compute. reflexivity. Qed.

Lemma GetSubstitution_plain matched before after text :
  ~ In 36 text -> GetSubstitution matched before after text = text.
Proof.
  induction text as [|c text IH]; intros H; [reflexivity|].
  cbn [GetSubstitution].
  destruct (N.eqb_spec c 36) as [->|_].
  - exfalso. apply H. now left.
  - rewrite IH; [reflexivity|]. intros Hin. apply H. now right.
Qed.

(** A text without the first character of the pattern is skipped. *)
Lemma findFirst_skip pattern c pat pre s :
  pattern = c :: pat -> ~ In c pre ->
  findFirst pattern (pre ++ s) =
  match findFirst pattern s with
  | Some (before, after) => Some (pre ++ before, after)
  | None => None
  end.
Proof.
  intros ->. induction pre as [|x pre IH]; intros H.
  - cbn [app]. now destruct (findFirst (c :: pat) s) as [[before after]|].
  - cbn [app findFirst isPrefix].
    destruct (N.eqb_spec c x) as [->|_].
    + exfalso. apply H. now left.
    + cbn [andb]. rewrite IH by (intros Hin; apply H; now right).
      now destruct (findFirst (c :: pat) s) as [[before after]|].
Qed.

(** Where the code and the specification agree: a metadata view and a
    query without dollar signs, and a view without opening braces, are
    put in the template as they are. *)
Lemma renderPrompt_plain info query :
  ~ In 36 info -> ~ In 123 info -> ~ In 36 query ->
  renderPrompt SYSTEM_PROMPT info query = verbatimPrompt info query.
Proof.
  intros Hdollar Hbrace Hquery. unfold renderPrompt, verbatimPrompt.
  assert (E1 : findFirst (js "{services}") SYSTEM_PROMPT =
               Some (promptBefore, promptBetween ++ js "{query}" ++ promptAfter))
    by (vm_compute; reflexivity).
  unfold replace at 2. rewrite E1.
  rewrite GetSubstitution_plain by exact Hdollar.
  assert (E2 : findFirst (js "{query}") (promptBetween ++ js "{query}" ++ promptAfter) =
               Some (promptBetween, promptAfter))
    by (vm_compute; reflexivity).
  assert (Hbefore : ~ In 123 promptBefore).
  { intros Hin.
    assert (Hall : forallb (fun c => negb (c =? 123)) promptBefore = true)
      by (vm_compute; reflexivity).
    rewrite forallb_forall in Hall. apply Hall in Hin.
    rewrite N.eqb_refl in Hin. discriminate. }
  unfold replace.
  rewrite (app_assoc promptBefore info).
  rewrite (findFirst_skip (js "{query}") 123 (js "query}")).
  2:{ reflexivity. }
  2:{ intros Hin. apply in_app_or in Hin. destruct Hin; contradiction. }
  rewrite E2. rewrite GetSubstitution_plain by exact Hquery.
  now rewrite <- !app_assoc.
Qed.

(** C9 fails on the code: [replace] reads the dollar patterns of the text
    that it inserts, and the second [replace] looks for [{query}] in the
    metadata view that the first one has inserted.  A query with [$$]
    reaches the prompt with one dollar sign, a query [$&] is replaced by
    the placeholder itself, and with a service called [{query}] the query
    lands in the metadata view while the placeholder of the template
    stays. *)
Theorem prompt_rewrites_inserted_text :
  renderPrompt SYSTEM_PROMPT (js "payment (routes: )") (js "traces that cost $$5") =
    verbatimPrompt (js "payment (routes: )") (js "traces that cost $5") /\
  renderPrompt SYSTEM_PROMPT (js "payment (routes: )") (js "$&") =
    verbatimPrompt (js "payment (routes: )") (js "{query}") /\
  renderPrompt SYSTEM_PROMPT (js "{query} (routes: )") (js "slow traces") =
    verbatimPrompt (js "slow traces (routes: )") (js "{query}") /\
  renderPrompt SYSTEM_PROMPT (js "payment (routes: )") (js "traces that cost $$5") <>
    verbatimPrompt (js "payment (routes: )") (js "traces that cost $$5").
Proof.
  repeat split; try (vm_compute; reflexivity).
  vm_compute. discriminate.
Qed.

(** ** JSON.parse always has budget enough *)

Lemma skipWhiteSpace_length s : (length (skipWhiteSpace s) <= length s)%nat.
Proof.
  induction s as [|c s IH]; [reflexivity|]. cbn [skipWhiteSpace].
  destruct (isJsonWhiteSpace c); cbn [length]; lia.
Qed.

Lemma consChar_Some c x cs r :
  consChar c x = Some (cs, r) -> exists cs', x = Some (cs', r).
Proof.
  destruct x as [[cs' r']|]; [|discriminate]. cbn. intros H. injection H as _ <-. eauto.
Qed.

Lemma parseChars_length n : forall s cs r,
  (length s <= n)%nat -> parseChars s = Some (cs, r) -> (length r < length s)%nat.
Proof.
  induction n as [|n IH]; intros s cs r Hn H.
  - destruct s; [discriminate H | cbn [length] in Hn; lia].
  - destruct s as [|c s1]; [discriminate H|]. cbn [parseChars] in H. cbn [length] in *.
    destruct (c =? 34).
    + injection H as _ <-. lia.
    + destruct (c =? 92).
      * destruct s1 as [|e s2]; [discriminate H|]. cbn [length] in *.
        destruct (e =? 117).
        -- destruct s2 as [|a [|b [|c' [|d s3]]]]; try discriminate H.
           cbn [length] in *.
           destruct (hex4 a b c' d); [|discriminate H].
           apply consChar_Some in H. destruct H as [cs' H].
           apply IH in H; lia.
        -- destruct (escaped e); [|discriminate H].
           apply consChar_Some in H. destruct H as [cs' H].
           apply IH in H; lia.
      * destruct (c <? 32); [discriminate H|].
        apply consChar_Some in H. destruct H as [cs' H].
        apply IH in H; lia.
Qed.

Lemma spanDigits_length s ds r :
  spanDigits s = (ds, r) -> (length s = length ds + length r)%nat.
Proof.
  revert ds r. induction s as [|c s IH]; intros ds r H.
  - injection H as <- <-. reflexivity.
  - cbn [spanDigits] in H. destruct (isDigit c).
    + destruct (spanDigits s) as [ds' r'] eqn:E. injection H as <- <-.
      cbn [length]. rewrite (IH ds' r' eq_refl). lia.
    + injection H as <- <-. reflexivity.
Qed.

Lemma someDigits_length s ds r :
  someDigits s = Some (ds, r) -> (length r < length s)%nat.
Proof.
  unfold someDigits. destruct (spanDigits s) as [ds' r'] eqn:E.
  apply spanDigits_length in E.
  destruct ds' as [|d ds'']; [discriminate|].
  intros H. injection H as <- <-. cbn [length] in E. lia.
Qed.

Lemma parseInt10_length s ds r :
  parseInt10 s = Some (ds, r) -> (length r < length s)%nat.
Proof.
  unfold parseInt10. destruct s as [|c s']; [discriminate|].
  destruct (c =? 48).
  - intros H. injection H as _ <-. cbn [length]. lia.
  - apply someDigits_length.
Qed.

Lemma parseFraction_length s fs r :
  parseFraction s = Some (fs, r) -> (length r <= length s)%nat.
Proof.
  unfold parseFraction. destruct s as [|c s'].
  - intros H. injection H as _ <-. reflexivity.
  - destruct (c =? 46).
    + intros H. apply someDigits_length in H. cbn [length]. lia.
    + intros H. injection H as _ <-. reflexivity.
Qed.

Lemma parseExponent_length s e r :
  parseExponent s = Some (e, r) -> (length r <= length s)%nat.
Proof.
  unfold parseExponent. destruct s as [|c s'].
  - intros H. injection H as _ <-. reflexivity.
  - destruct ((c =? 101) || (c =? 69)).
    + destruct s' as [|d s''].
      * destruct (someDigits []) as [[es r2]|] eqn:E; [|discriminate].
        apply someDigits_length in E. cbn [length] in E. lia.
      * assert (Hsign : exists sign r1,
                  (if d =? 45 then ((-1)%Z, s'')
                   else if d =? 43 then (1%Z, s'') else (1%Z, d :: s'')) = (sign, r1) /\
                  (length r1 <= length (d :: s''))%nat).
        { destruct (d =? 45); [|destruct (d =? 43)]; eexists; eexists;
            (split; [reflexivity|]); cbn [length]; lia. }
        destruct Hsign as (sign & r1 & -> & Hr1).
        destruct (someDigits r1) as [[es r2]|] eqn:E; [|discriminate].
        apply someDigits_length in E. intros H. injection H as _ <-.
        cbn [length] in *. lia.
    + intros H. injection H as _ <-. reflexivity.
Qed.

Lemma parseNumber_length s n r :
  parseNumber s = Some (n, r) -> (length r < length s)%nat.
Proof.
  unfold parseNumber.
  assert (Hsign : exists negative s1,
            match s with
            | c :: r0 => if c =? 45 then (true, r0) else (false, s)
            | [] => (false, s)
            end = (negative, s1) /\ (length s1 <= length s)%nat).
  { destruct s as [|c r0]; [eauto|].
    destruct (c =? 45); eexists; eexists; (split; [reflexivity|]); cbn [length]; lia. }
  destruct Hsign as (negative & s1 & -> & Hs1).
  destruct (parseInt10 s1) as [[ints s2]|] eqn:E1; [|discriminate].
  destruct (parseFraction s2) as [[fracs s3]|] eqn:E2; [|discriminate].
  destruct (parseExponent s3) as [[e s4]|] eqn:E3; [|discriminate].
  apply parseInt10_length in E1. apply parseFraction_length in E2.
  apply parseExponent_length in E3.
  intros H. injection H as _ <-. lia.
Qed.

Lemma parseValue_S budget s :
  parseValue (S budget) s =
  match skipWhiteSpace s with
  | [] => Unexpected
  | (c :: r) as t =>
      if c =? 123 then
        match skipWhiteSpace r with
        | [] => Unexpected
        | (d :: r') as inner =>
            if d =? 125 then Parsed (VObj []) (skipWhiteSpace r')
            else parseMembers budget inner []
        end
      else if c =? 91 then
        match skipWhiteSpace r with
        | [] => Unexpected
        | (d :: r') as inner =>
            if d =? 93 then Parsed (VArr []) (skipWhiteSpace r')
            else parseElements budget inner []
        end
      else if c =? 34 then
        match parseChars r with
        | Some (cs, r') => Parsed (VStr cs) (skipWhiteSpace r')
        | None => Unexpected
        end
      else if isPrefix (js "true") t then
        Parsed (VBool true) (skipWhiteSpace (drop 4 t))
      else if isPrefix (js "false") t then
        Parsed (VBool false) (skipWhiteSpace (drop 5 t))
      else if isPrefix (js "null") t then
        Parsed VNull (skipWhiteSpace (drop 4 t))
      else
        match parseNumber t with
        | Some (n, r') => Parsed (VNum n) (skipWhiteSpace r')
        | None => Unexpected
        end
  end.
Proof. reflexivity. Qed.

Lemma parseElements_S budget s acc :
  parseElements (S budget) s acc =
  match parseValue budget s with
  | Parsed v [] => Unexpected
  | Parsed v (c :: r) =>
      if c =? 44 then parseElements budget r (acc ++ [v])
      else if c =? 93 then Parsed (VArr (acc ++ [v])) (skipWhiteSpace r)
      else Unexpected
  | Unexpected => Unexpected
  | Exhausted => Exhausted
  end.
Proof. reflexivity. Qed.

Lemma parseMembers_S budget s acc :
  parseMembers (S budget) s acc =
  match skipWhiteSpace s with
  | [] => Unexpected
  | q :: r =>
      if q =? 34 then
        match parseChars r with
        | Some (key, r1) =>
            match skipWhiteSpace r1 with
            | [] => Unexpected
            | colon :: r2 =>
                if colon =? 58 then
                  match parseValue budget r2 with
                  | Parsed v [] => Unexpected
                  | Parsed v (c :: r3) =>
                      if c =? 44 then parseMembers budget r3 (set acc key v)
                      else if c =? 125 then
                        Parsed (VObj (set acc key v)) (skipWhiteSpace r3)
                      else Unexpected
                  | Unexpected => Unexpected
                  | Exhausted => Exhausted
                  end
                else Unexpected
            end
        | None => Unexpected
        end
      else Unexpected
  end.
Proof. reflexivity. Qed.

(** Every parser consumes at least one character. *)
Lemma parse_consumes budget :
  (forall s v r, parseValue budget s = Parsed v r -> (length r < length s)%nat) /\
  (forall s acc v r, parseElements budget s acc = Parsed v r -> (length r < length s)%nat) /\
  (forall s acc v r, parseMembers budget s acc = Parsed v r -> (length r < length s)%nat).
Proof.
  induction budget as [|budget (IHv & IHe & IHm)].
  - repeat split; intros; discriminate.
  - repeat split.
    + intros s v r. rewrite parseValue_S.
      pose proof (skipWhiteSpace_length s) as Hs.
      destruct (skipWhiteSpace s) as [|c t]; [discriminate|]. cbn [length] in Hs.
      destruct (c =? 123).
      { pose proof (skipWhiteSpace_length t) as Ht.
        destruct (skipWhiteSpace t) as [|d t']; [discriminate|]. cbn [length] in Ht.
        destruct (d =? 125).
        - intros H. injection H as _ <-. pose proof (skipWhiteSpace_length t'). lia.
        - intros H. apply IHm in H. cbn [length] in H. lia. }
      destruct (c =? 91).
      { pose proof (skipWhiteSpace_length t) as Ht.
        destruct (skipWhiteSpace t) as [|d t']; [discriminate|]. cbn [length] in Ht.
        destruct (d =? 93).
        - intros H. injection H as _ <-. pose proof (skipWhiteSpace_length t'). lia.
        - intros H. apply IHe in H. cbn [length] in H. lia. }
      destruct (c =? 34).
      { destruct (parseChars t) as [[cs t']|] eqn:E; [|discriminate].
        apply (parseChars_length (length t)) in E; [|reflexivity].
        intros H. injection H as _ <-. pose proof (skipWhiteSpace_length t'). lia. }
      cbv zeta.
      destruct (isPrefix (js "true") (c :: t)).
      { intros H. injection H as _ <-.
        pose proof (skipWhiteSpace_length (drop 3 t)) as Hd.
        rewrite length_drop in Hd. change (drop 4 (c :: t)) with (drop 3 t). lia. }
      destruct (isPrefix (js "false") (c :: t)).
      { intros H. injection H as _ <-.
        pose proof (skipWhiteSpace_length (drop 4 t)) as Hd.
        rewrite length_drop in Hd. change (drop 5 (c :: t)) with (drop 4 t). lia. }
      destruct (isPrefix (js "null") (c :: t)).
      { intros H. injection H as _ <-.
        pose proof (skipWhiteSpace_length (drop 3 t)) as Hd.
        rewrite length_drop in Hd. change (drop 4 (c :: t)) with (drop 3 t). lia. }
      destruct (parseNumber (c :: t)) as [[n t']|] eqn:E; [|discriminate].
      apply parseNumber_length in E. cbn [length] in E.
      intros H. injection H as _ <-. pose proof (skipWhiteSpace_length t'). lia.
    + intros s acc v r. rewrite parseElements_S.
      destruct (parseValue budget s) as [v0 [|c t]| |] eqn:E; try discriminate.
      apply IHv in E. cbn [length] in E.
      destruct (c =? 44).
      * intros H. apply IHe in H. lia.
      * destruct (c =? 93); [|discriminate].
        intros H. injection H as _ <-. pose proof (skipWhiteSpace_length t). lia.
    + intros s acc v r. rewrite parseMembers_S.
      pose proof (skipWhiteSpace_length s) as Hs.
      destruct (skipWhiteSpace s) as [|q t]; [discriminate|]. cbn [length] in Hs.
      destruct (q =? 34); [|discriminate].
      destruct (parseChars t) as [[key t1]|] eqn:E; [|discriminate].
      apply (parseChars_length (length t)) in E; [|reflexivity].
      pose proof (skipWhiteSpace_length t1) as Ht1.
      destruct (skipWhiteSpace t1) as [|colon t2]; [discriminate|]. cbn [length] in Ht1.
      destruct (colon =? 58); [|discriminate].
      destruct (parseValue budget t2) as [v0 [|c t3]| |] eqn:Ev; try discriminate.
      apply IHv in Ev. cbn [length] in Ev.
      destruct (c =? 44).
      * intros H. apply IHm in H. lia.
      * destruct (c =? 125); [|discriminate].
        intros H. injection H as _ <-. pose proof (skipWhiteSpace_length t3). lia.
Qed.

(** With a budget above twice the length of the text the parsers do not
    run out of budget. *)
Lemma parse_within_budget budget :
  (forall s, (2 * length s < budget)%nat -> parseValue budget s <> Exhausted) /\
  (forall s acc, (2 * length s + 1 < budget)%nat -> parseElements budget s acc <> Exhausted) /\
  (forall s acc, (2 * length s + 1 < budget)%nat -> parseMembers budget s acc <> Exhausted).
Proof.
  induction budget as [|budget (IHv & IHe & IHm)].
  - repeat split; intros; lia.
  - repeat split.
    + intros s Hb. rewrite parseValue_S.
      pose proof (skipWhiteSpace_length s) as Hs.
      destruct (skipWhiteSpace s) as [|c t]; [discriminate|]. cbn [length] in Hs.
      destruct (c =? 123).
      { pose proof (skipWhiteSpace_length t) as Ht.
        destruct (skipWhiteSpace t) as [|d t'] eqn:Et; [discriminate|].
        destruct (d =? 125); [discriminate|]. apply IHm. lia. }
      destruct (c =? 91).
      { pose proof (skipWhiteSpace_length t) as Ht.
        destruct (skipWhiteSpace t) as [|d t'] eqn:Et; [discriminate|].
        destruct (d =? 93); [discriminate|]. apply IHe. lia. }
      destruct (c =? 34).
      { destruct (parseChars t) as [[cs t']|]; discriminate. }
      cbv zeta.
      destruct (isPrefix (js "true") (c :: t)); [discriminate|].
      destruct (isPrefix (js "false") (c :: t)); [discriminate|].
      destruct (isPrefix (js "null") (c :: t)); [discriminate|].
      destruct (parseNumber (c :: t)) as [[n t']|]; discriminate.
    + intros s acc Hb. rewrite parseElements_S.
      destruct (parseValue budget s) as [v0 [|c t]| |] eqn:E; try discriminate.
      * pose proof (proj1 (parse_consumes budget) _ _ _ E) as Hlen. cbn [length] in Hlen.
        destruct (c =? 44); [apply IHe; lia|].
        destruct (c =? 93); discriminate.
      * exfalso. revert E. apply IHv. lia.
    + intros s acc Hb. rewrite parseMembers_S.
      pose proof (skipWhiteSpace_length s) as Hs.
      destruct (skipWhiteSpace s) as [|q t]; [discriminate|]. cbn [length] in Hs.
      destruct (q =? 34); [|discriminate].
      destruct (parseChars t) as [[key t1]|] eqn:E; [|discriminate].
      apply (parseChars_length (length t)) in E; [|reflexivity].
      pose proof (skipWhiteSpace_length t1) as Ht1.
      destruct (skipWhiteSpace t1) as [|colon t2]; [discriminate|]. cbn [length] in Ht1.
      destruct (colon =? 58); [|discriminate].
      destruct (parseValue budget t2) as [v0 [|c t3]| |] eqn:Ev; try discriminate.
      * pose proof (proj1 (parse_consumes budget) _ _ _ Ev) as Hlen. cbn [length] in Hlen.
        destruct (c =? 44); [apply IHm; lia|].
        destruct (c =? 125); discriminate.
      * exfalso. revert Ev. apply IHv. lia.
Qed.

(** [JSON.parse] decides: its budget is never what makes it fail. *)
Lemma JSON_parse_budget text :
  parseValue (2 * length text + 2) text <> Exhausted.
Proof. apply parse_within_budget. lia. Qed.

(** ** The end-to-end example of the specification *)

Example translateQuery_end_to_end :
  fst (translateQuery
         (healthyNetwork [js "payment"]
            (jsq "{`service`:`payment`,`lookback`:`2h`,`minDuration`:`1s`,`limit`:100}"))
         (js "slowest traces for payment in the last 2 hours") None freshWorld) =
  Normal (object [(js "service", VStr (js "payment"));
                  (js "lookback", VStr (js "2h"));
                  (js "minDuration", VStr (js "1s"));
                  (js "limit", VNum (Integer 100))]).
Proof. vm_compute. reflexivity. Qed.

(** ** A validated query is a fixed point of validateQuery *)

Lemma set_set_eq (o : props) k v v' : set (set o k v) k v' = set o k v'.
Proof.
  induction o as [|[k0 v0] o IH]; simpl.
  - now rewrite str_eqb_refl.
  - destruct (str_eqb k k0) eqn:E; simpl; rewrite E; [reflexivity | now rewrite IH].
Qed.

Lemma setField_setField_eq q f v v' : setField (setField q f v) f v' = setField q f v'.
Proof. unfold setField. cbn [elements properties]. now rewrite set_set_eq. Qed.

Lemma normalizeLimit_fixed q n :
  getField q "limit" = VNum n -> ToBoolean (VNum n) = true ->
  normalizeLimit q = Normal q.
Proof.
  intros Hl Ht. unfold normalizeLimit. rewrite Hl, Ht. cbn [isNumber negb andb cbind].
  now rewrite Hl, Ht.
Qed.

Lemma normalizeLookback_fixed q q2 q' :
  normalizeLookback q = Normal q2 ->
  getField q' "lookback" = getField q2 "lookback" ->
  normalizeLookback q' = Normal q'.
Proof.
  unfold normalizeLookback at 1. intros H Hq'.
  destruct (ToBoolean (getField q "lookback")) eqn:Ht.
  - step H. injection H as <-. rename a into text.
    destruct (test lookbackRegex text) eqn:Hm; cbn [negb] in Hq'.
    + rewrite (normalizeLookback_truthy q' text) by congruence. now rewrite Hm.
    + rewrite getField_setField_eq in Hq'.
      rewrite (normalizeLookback_truthy q' (js "1h")) by (rewrite Hq'; reflexivity).
      reflexivity.
  - injection H as <-. apply normalizeLookback_falsy. congruence.
Qed.

Lemma normalizeDuration_fixed f q q3 q' :
  normalizeDuration f q = Normal q3 ->
  getField q' f = getField q3 f ->
  normalizeDuration f q' = Normal q'.
Proof.
  unfold normalizeDuration at 1. intros H Hq'.
  destruct (ToBoolean (getField q f)) eqn:Ht.
  - step H. injection H as <-. rename a into text.
    destruct (test durationRegex text) eqn:Hm; cbn [negb] in Hq'.
    + rewrite (normalizeDuration_truthy f q' text) by congruence. now rewrite Hm.
    + rewrite getField_deleteField_eq in Hq'.
      apply normalizeDuration_falsy. now rewrite Hq'.
  - injection H as <-. apply normalizeDuration_falsy. congruence.
Qed.

(** The callback of the filter reads the query for its service only. *)
Lemma validTag_service this q q' pair :
  getField q' "service" = getField q "service" ->
  validTag this q' pair = validTag this q pair.
Proof. unfold validTag. now intros ->. Qed.

(** What the filter has kept passes the filter again. *)
Lemma filterC_kept {A} (f : A -> completion bool) l l' :
  filterC f l = Normal l' -> filterC f l' = Normal l'.
Proof.
  revert l'. induction l as [|x l IH]; intros l' H.
  - now injection H as <-.
  - cbn [filterC] in H. destruct (f x) as [keep|] eqn:Ex; cbn [cbind] in H; [|discriminate].
    destruct (filterC f l) as [rest|] eqn:Er; cbn [cbind] in H; [|discriminate].
    injection H as <-. specialize (IH rest eq_refl).
    destruct keep; [|exact IH].
    cbn [filterC]. now rewrite Ex, IH.
Qed.

Lemma filterC_ext {A} (f g : A -> completion bool) l :
  (forall x, f x = g x) -> filterC f l = filterC g l.
Proof.
  intros H. induction l as [|x l IH]; [reflexivity|].
  cbn [filterC]. now rewrite H, IH.
Qed.

Lemma filterC_sublist {A} (f : A -> completion bool) (P : A -> Prop) l l' :
  filterC f l = Normal l' -> Forall P l -> Forall P l'.
Proof.
  revert l'. induction l as [|x l IH]; intros l' H Hall.
  - injection H as <-. constructor.
  - cbn [filterC] in H. destruct (f x) as [keep|] eqn:Ex; cbn [cbind] in H; [|discriminate].
    destruct (filterC f l) as [rest|] eqn:Er; cbn [cbind] in H; [|discriminate].
    injection H as <-. inversion Hall as [|? ? Hx Hl]; subst.
    destruct keep; [constructor|]; auto.
Qed.

Lemma split_no_separator sep s : ~ In sep s -> split sep s = [s].
Proof.
  induction s as [|c s IH]; intros H; [reflexivity|]. cbn [split].
  destruct (N.eqb_spec c sep) as [->|_].
  - exfalso. apply H. now left.
  - rewrite IH; [reflexivity|]. intros Hin. apply H. now right.
Qed.

Lemma split_app sep a b :
  ~ In sep a -> split sep (a ++ sep :: b) = a :: split sep b.
Proof.
  induction a as [|c a IH]; intros H; cbn [app split].
  - now rewrite N.eqb_refl.
  - destruct (N.eqb_spec c sep) as [->|_].
    + exfalso. apply H. now left.
    + rewrite IH; [reflexivity|]. intros Hin. apply H. now right.
Qed.

(** Cutting a text that was joined from pieces without the separator
    gives the pieces back. *)
Lemma split_join sep pieces :
  pieces <> [] -> Forall (fun piece => ~ In sep piece) pieces ->
  split sep (join [sep] pieces) = pieces.
Proof.
  intros Hne Hall. induction Hall as [|x l Hx Hl IH]; [congruence|].
  destruct l as [|y l'].
  - cbn [join]. now apply split_no_separator.
  - change (join [sep] (x :: y :: l')) with (x ++ sep :: join [sep] (y :: l')).
    rewrite split_app by exact Hx. f_equal. apply IH. discriminate.
Qed.

Lemma normalizeTags_fixed this q q' :
  normalizeTags this q = Normal q' -> normalizeTags this q' = Normal q'.
Proof.
  intros H. pose proof H as Hrun. unfold normalizeTags in H.
  destruct (ToBoolean (getField q "tags")) eqn:Ht.
  2:{ injection H as <-. exact Hrun. }
  destruct (getField q "tags") as [| | | |text| |] eqn:Htags; try discriminate H.
  step H. rename a into kept. injection H as <-.
  unfold normalizeTags. rewrite getField_setField_eq.
  destruct (ToBoolean (VStr (join (js " ") kept))) eqn:Hj; [|reflexivity].
  rewrite Hj.
  assert (Hkept : kept <> []).
  { intros ->. discriminate Hj. }
  assert (Hpieces : Forall (fun piece => ~ In 32 piece) kept).
  { eapply filterC_sublist; [exact E | apply split_pieces]. }
  change (js " ") with [32]. rewrite split_join by assumption.
  assert (Hagain : filterC (validTag this (setField q "tags" (VStr (join [32] kept)))) kept =
                   Normal kept).
  { transitivity (filterC (validTag this q) kept); [|exact (filterC_kept _ _ _ E)].
    apply filterC_ext. intros pair.
    apply validTag_service. apply getField_setField_ne. names. }
  change (js " ") with [32] in Hj. rewrite Hagain. cbn [cbind]. rewrite Hj.
  now rewrite setField_setField_eq.
Qed.

(** Every block finds its field already in the shape it would give it,
    and returns the same object. *)
Lemma validateQuery_fixed this query query' :
  validateQuery this query = Normal query' ->
  validateQuery this query' = Normal query'.
Proof.
  intros H. apply validateQuery_inv in H.
  destruct H as (q1 & q2 & q3 & q4 & E1 & Es & E2 & E3 & E4 & E5).
  pose proof (normalizeLookback_frame _ _ E2) as F2.
  pose proof (normalizeDuration_frame _ _ _ E3) as F3.
  pose proof (normalizeDuration_frame _ _ _ E4) as F4.
  pose proof (normalizeTags_frame _ _ _ E5) as F5.
  destruct (normalizeLimit_spec _ _ E1) as [_ [text [_ Hlimit]]].
  assert (Hl : getField query' "limit" =
               VNum (coercedLimit (getField query "limit") text)).
  { rewrite (agreeOutside_get _ "limit" _ _ F5) by names.
    rewrite (agreeOutside_get _ "limit" _ _ F4) by names.
    rewrite (agreeOutside_get _ "limit" _ _ F3) by names.
    now rewrite (agreeOutside_get _ "limit" _ _ F2) by names. }
  assert (Hs : getField query' "service" = getField q1 "service").
  { rewrite (agreeOutside_get _ "service" _ _ F5) by names.
    rewrite (agreeOutside_get _ "service" _ _ F4) by names.
    rewrite (agreeOutside_get _ "service" _ _ F3) by names.
    now rewrite (agreeOutside_get _ "service" _ _ F2) by names. }
  assert (Hb : getField query' "lookback" = getField q2 "lookback").
  { rewrite (agreeOutside_get _ "lookback" _ _ F5) by names.
    rewrite (agreeOutside_get _ "lookback" _ _ F4) by names.
    now rewrite (agreeOutside_get _ "lookback" _ _ F3) by names. }
  assert (Hmin : getField query' "minDuration" = getField q3 "minDuration").
  { rewrite (agreeOutside_get _ "minDuration" _ _ F5) by names.
    now rewrite (agreeOutside_get _ "minDuration" _ _ F4) by names. }
  assert (Hmax : getField query' "maxDuration" = getField q4 "maxDuration").
  { now rewrite (agreeOutside_get _ "maxDuration" _ _ F5) by names. }
  unfold validateQuery.
  rewrite (normalizeLimit_fixed query' _ Hl (coercedLimit_truthy _ _)). cbn [cbind].
  assert (Hcheck : checkService this query' = Normal tt).
  { apply checkService_Normal. rewrite Hs. now apply checkService_Normal. }
  rewrite Hcheck. cbn [cbind].
  rewrite (normalizeLookback_fixed _ _ query' E2 Hb). cbn [cbind].
  rewrite (normalizeDuration_fixed _ _ _ query' E3 Hmin). cbn [cbind].
  rewrite (normalizeDuration_fixed _ _ _ query' E4 Hmax). cbn [cbind].
  exact (normalizeTags_fixed _ _ _ E5).
Qed.

(** X1.  [validateQuery] is idempotent: validating a query and then
    validating the result is the same as validating it once.  A query
    that [validateQuery] returns is validated to itself, unchanged. *)
Theorem validateQuery_idempotent this query :
  (letc validated := validateQuery this query in validateQuery this validated) =
  validateQuery this query.
Proof.
  destruct (validateQuery this query) as [validated|e] eqn:H; cbn [cbind];
    [exact (validateQuery_fixed _ _ _ H) | reflexivity].
Qed.

(** ** The fields that validateQuery leaves alone *)

(** X2.  [validateQuery] writes the five fields [limit], [lookback],
    [minDuration], [maxDuration] and [tags] and nothing else: every other
    property of the candidate, [service] and the fields that the
    interface does not have among them, is in the result with the value
    it had, no other property is added, and the elements of an array are
    the same. *)
Theorem validateQuery_other_fields this query query' :
  validateQuery this query = Normal query' ->
  elements query' = elements query /\
  forall k, ~ In k normalizedFields ->
    get (properties query') k = get (properties query) k /\
    hasOwn (properties query') k = hasOwn (properties query) k.
Proof.
  intros H. apply validateQuery_inv in H.
  destruct H as (q1 & q2 & q3 & q4 & E1 & _ & E2 & E3 & E4 & E5).
  destruct (normalizeLimit_spec _ _ E1) as [[G1 F1] _].
  destruct (normalizeLookback_frame _ _ E2) as [G2 F2].
  destruct (normalizeDuration_frame _ _ _ E3) as [G3 F3].
  destruct (normalizeDuration_frame _ _ _ E4) as [G4 F4].
  destruct (normalizeTags_frame _ _ _ E5) as [G5 F5].
  split; [congruence|].
  intros k Hk.
  assert (Hne : forall f, In f normalizedFields -> k <> f) by (intros f Hf ->; contradiction).
  destruct (F1 k) as [A1 B1]; [apply Hne; vm_compute; tauto|].
  destruct (F2 k) as [A2 B2]; [apply Hne; vm_compute; tauto|].
  destruct (F3 k) as [A3 B3]; [apply Hne; vm_compute; tauto|].
  destruct (F4 k) as [A4 B4]; [apply Hne; vm_compute; tauto|].
  destruct (F5 k) as [A5 B5]; [apply Hne; vm_compute; tauto|].
  split; congruence.
Qed.

Lemma validateQuery_other_fields_witness :
  let query := object [(js "service", VStr (js "order"));
                       (js "outcome", VStr (js "failed"));
                       (js "lookback", VStr (js "2 hours"))] in
  let query' := object [(js "service", VStr (js "order"));
                        (js "outcome", VStr (js "failed"));
                        (js "lookback", VStr (js "1h"));
                        (js "limit", VNum (Integer 100))] in
  validateQuery (catalog "order" []) query = Normal query' /\
  elements query' = elements query /\
  forall k, ~ In k normalizedFields ->
    get (properties query') k = get (properties query) k /\
    hasOwn (properties query') k = hasOwn (properties query) k.
Proof.
  cbv zeta. split; [vm_compute; reflexivity|].
  apply (validateQuery_other_fields (catalog "order" [])).
  vm_compute. reflexivity.
Defined.

(** ** The validator of the earlier version *)

Lemma filterC_pure {A} (f : A -> completion bool) (g : A -> bool) l :
  Forall (fun x => f x = Normal (g x)) l -> filterC f l = Normal (List.filter g l).
Proof.
  induction 1 as [|x l Hx _ IH]; [reflexivity|].
  cbn [filterC List.filter]. rewrite Hx, IH. reflexivity.
Qed.

Lemma validTag_Earlier this q pair :
  ToBoolean (getField q "service") = false \/ tagKey pair <> js "http.route" ->
  validTag this q pair = Normal (Earlier.validTag pair).
Proof.
  intros H. unfold validTag, Earlier.validTag. cbv zeta.
  destruct (str_eqb (nth 0 (split 61 pair) []) []); [reflexivity|].
  destruct (str_eqb (nth 1 (split 61 pair) []) []); [reflexivity|].
  cbn [orb]. rewrite split_key.
  destruct H as [H|H].
  - rewrite H, andb_false_r. reflexivity.
  - rewrite (str_eqb_ne _ _ H). reflexivity.
Qed.

(** X3.  On a query without a service, and on a query whose tags name no
    route, the validator that knows the routes does what the earlier
    validator does on the same cached names: the same query or the same
    error. *)
Theorem validateQuery_as_earlier this query :
  ToBoolean (getField query "service") = false \/ noRouteTag query ->
  validateQuery this query = Earlier.validateQuery (services this) query.
Proof.
  intros H. unfold validateQuery, Earlier.validateQuery.
  destruct (normalizeLimit query) as [q1|] eqn:E1; [|reflexivity]. cbn [cbind].
  change (checkService {| services := services this; serviceRoutes := ∅ |} q1)
    with (checkService this q1).
  destruct (checkService this q1) as [[]|] eqn:Es; [|reflexivity]. cbn [cbind].
  destruct (normalizeLookback q1) as [q2|] eqn:E2; [|reflexivity]. cbn [cbind].
  destruct (normalizeDuration "minDuration" q2) as [q3|] eqn:E3; [|reflexivity]. cbn [cbind].
  destruct (normalizeDuration "maxDuration" q3) as [q4|] eqn:E4; [|reflexivity]. cbn [cbind].
  destruct (normalizeLimit_spec _ _ E1) as [F1 _].
  pose proof (normalizeLookback_frame _ _ E2) as F2.
  pose proof (normalizeDuration_frame _ _ _ E3) as F3.
  pose proof (normalizeDuration_frame _ _ _ E4) as F4.
  assert (Hs : getField q4 "service" = getField query "service").
  { rewrite (agreeOutside_get _ "service" _ _ F4) by names.
    rewrite (agreeOutside_get _ "service" _ _ F3) by names.
    rewrite (agreeOutside_get _ "service" _ _ F2) by names.
    now rewrite (agreeOutside_get _ "service" _ _ F1) by names. }
  assert (Ht : getField q4 "tags" = getField query "tags").
  { rewrite (agreeOutside_get _ "tags" _ _ F4) by names.
    rewrite (agreeOutside_get _ "tags" _ _ F3) by names.
    rewrite (agreeOutside_get _ "tags" _ _ F2) by names.
    now rewrite (agreeOutside_get _ "tags" _ _ F1) by names. }
  unfold normalizeTags, Earlier.normalizeTags.
  destruct (ToBoolean (getField q4 "tags")); [|reflexivity].
  destruct (getField q4 "tags") as [| | | |text| |] eqn:Htags; try reflexivity.
  rewrite (filterC_pure _ Earlier.validTag); [reflexivity|].
  destruct H as [H|H].
  - apply List.Forall_forall. intros pair _. apply validTag_Earlier. left. congruence.
  - specialize (H text (eq_sym Ht)).
    eapply List.Forall_impl; [|exact H]. intros pair Hp. apply validTag_Earlier. now right.
Qed.

Lemma validateQuery_as_earlier_witness :
  let query := object [(js "tags", VStr (js "http.route=/v9 error=true"))] in
  validateQuery (catalog "order" ["/v1/login"%string]) query =
    Earlier.validateQuery [js "order"] query /\
  validateQuery (catalog "order" ["/v1/login"%string]) query =
    Normal (object [(js "tags", VStr (js "http.route=/v9 error=true"));
                    (js "limit", VNum (Integer 100))]).
Proof.
  cbv zeta. split; [|vm_compute; reflexivity].
  apply (validateQuery_as_earlier (catalog "order" ["/v1/login"%string])).
  left. vm_compute. reflexivity.
Defined.

(** ** The outcomes of translateQuery *)

(** The call from the metadata view on.  The request is sent with the
    rendered prompt; the outcome is decided by the answer of the
    generation API, by the extraction of the JSON and by [validateQuery],
    and every failure is logged before it is thrown again. *)
Lemma translateQuery_after_view net query ctx w w3 info :
  healthFails net = false ->
  ensureLoaded net (afterHealthCheck w) = (Normal tt, w3) ->
  servicesInfo (this w3) ctx = Normal info ->
  translateQuery net query ctx w =
  let prompt := renderPrompt SYSTEM_PROMPT info query in
  match generateApi net prompt with
  | Responded reply =>
      if ok reply then
        match json reply with
        | Some body =>
            match extractJson (response body) with
            | Normal result =>
                match cbind (toObject result) (validateQuery (this w3)) with
                | Normal validated =>
                    (Normal validated,
                     logged w3 (promptSent prompt ++
                                [ConsoleLog (js "Raw response data:");
                                 ConsoleLog (js "Parsed result:")]))
                | Throw e =>
                    (Throw e,
                     logged w3 (promptSent prompt ++
                                [ConsoleLog (js "Raw response data:");
                                 ConsoleLog (js "Parsed result:"); translationFailed]))
                end
            | Throw e =>
                (Throw e,
                 logged w3 (promptSent prompt ++
                            [ConsoleLog (js "Raw response data:"); translationFailed]))
            end
        | None => (Throw SyntaxError, logged w3 (promptSent prompt ++ [translationFailed]))
        end
      else (Throw (Error (js "API request failed: " ++ statusText reply)),
            logged w3 (promptSent prompt ++ [translationFailed]))
  | Unreachable => (Throw TypeError, logged w3 (promptSent prompt ++ [translationFailed]))
  | TimedOut => (Throw TimeoutError, logged w3 (promptSent prompt ++ [translationFailed]))
  end.
Proof.
  intros Hhealth Hload Hinfo. unfold translateQuery.
  rewrite bind_perform, tryCatch_after_health, Hhealth, logged_logged.
  erewrite tryCatch_bind_Normal by exact Hload.
  erewrite tryCatch_bind_Normal by reflexivity. cbv beta. rewrite Hinfo.
  erewrite tryCatch_bind_Normal by reflexivity. cbv beta zeta.
  erewrite tryCatch_bind_Normal by reflexivity.
  unfold tryCatch, bind at 1. rewrite fetch_eq. unfold promptSent.
  destruct (generateApi net (renderPrompt SYSTEM_PROMPT info query)) as [| |reply].
  - rewrite bind_perform. unfold throw. worlds.
  - rewrite bind_perform. unfold throw. worlds.
  - destruct (ok reply); cbn [negb].
    + unfold readJson. destruct (json reply) as [body|].
      * unfold bind at 1. unfold ret at 1. rewrite bind_perform, bind_lift.
        destruct (extractJson (response body)) as [result|e].
        -- rewrite bind_perform, bind_getThis. unfold lift.
           cbn [logged this].
           destruct (cbind (toObject result) (validateQuery (this w3))) as [validated|e].
           ++ worlds.
           ++ rewrite bind_perform. unfold throw. worlds.
        -- rewrite bind_perform. unfold throw. worlds.
      * unfold bind at 1. unfold throw at 1. rewrite bind_perform. unfold throw. worlds.
    + unfold throw at 1. rewrite bind_perform. unfold throw. worlds.
Qed.

(** Case analysis on a call of [translateQuery]: the health check fails,
    the catalog cannot be loaded, the view cannot be built, or the call
    goes through the generation step. *)
Ltac translate_cases net query ctx w :=
  let Hhealth := fresh "Hhealth" in
  let Hload := fresh "Hload" in
  let Hinfo := fresh "Hinfo" in
  let Hanswer := fresh "Hanswer" in
  let Hok := fresh "Hok" in
  let Hbody := fresh "Hbody" in
  let Hjson := fresh "Hjson" in
  let Hvalid := fresh "Hvalid" in
  let w3 := fresh "w3" in
  let info := fresh "info" in
  let reply := fresh "reply" in
  let body := fresh "body" in
  let result := fresh "result" in
  let validated := fresh "validated" in
  destruct (healthFails net) eqn:Hhealth;
  [ rewrite (translateQuery_unhealthy net query ctx w Hhealth)
  | destruct (ensureLoaded net (afterHealthCheck w)) as [[[]|?e] w3] eqn:Hload;
    [ destruct (servicesInfo (this w3) ctx) as [info|?e] eqn:Hinfo;
      [ rewrite (translateQuery_after_view net query ctx w w3 info Hhealth Hload Hinfo);
        cbv zeta;
        destruct (generateApi net (renderPrompt SYSTEM_PROMPT info query))
          as [| |reply] eqn:Hanswer;
        [ | | destruct (ok reply) eqn:Hok;
              [ destruct (json reply) as [body|] eqn:Hbody;
                [ destruct (extractJson (response body)) as [result|?e] eqn:Hjson;
                  [ destruct (cbind (toObject result) (validateQuery (this w3)))
                      as [validated|?e] eqn:Hvalid | ] | ] | ] ]
      | rewrite (translateQuery_view_fails net query ctx w w3 _ Hhealth Hload Hinfo) ]
    | rewrite (translateQuery_catalog_fails net query ctx w _ w3 Hhealth Hload) ] ].

(** The cached fields after a call are those after the load of the
    catalog: no later step writes them. *)
Lemma translateQuery_this net query ctx w :
  this (snd (translateQuery net query ctx w)) =
  if healthFails net then this w
  else this (snd (ensureLoaded net (afterHealthCheck w))).
Proof.
  translate_cases net query ctx w; reflexivity.
Qed.

Lemma ensureLoaded_cached net w :
  services (this w) <> [] -> ensureLoaded net w = (Normal tt, w).
Proof.
  intros H. rewrite ensureLoaded_eq. destruct (services (this w)); [congruence | reflexivity].
Qed.

(** ** A loaded catalog is not fetched again *)

(** X4.  Once the cached list of services is not empty, a call never
    asks the metadata API again and never writes the cache: whatever the
    answers of the network, the cached names and routes after the call
    are those before it, and no request for the services or for the
    operations of a service is among the effects of the call. *)
Theorem loaded_catalog_reused net query ctx w :
  services (this w) <> [] ->
  this (snd (translateQuery net query ctx w)) = this w /\
  exists added,
    effects (snd (translateQuery net query ctx w)) =
      effects w ++ translationStarted :: Fetch GetVersion :: added /\
    Forall (fun e => isMetadataFetch e = false) added.
Proof.
  intros Hloaded. split.
  { rewrite translateQuery_this, (ensureLoaded_cached net (afterHealthCheck w) Hloaded).
    now destruct (healthFails net). }
  translate_cases net query ctx w;
    try (rewrite (ensureLoaded_cached net (afterHealthCheck w) Hloaded) in Hload;
         first [discriminate Hload | injection Hload as <-]);
    cbn [snd logged afterHealthCheck effects promptSent app];
    rewrite <- ?app_assoc; cbn [app];
    eexists; (split; [reflexivity|]); repeat constructor.
Qed.

Lemma loaded_catalog_reused_witness :
  let w := {| this := catalog "order" ["/v1/login"%string]; effects := [] |} in
  services (this w) <> [] /\
  this (snd (translateQuery unreachableNetwork (js "slow traces") None w)) = this w.
Proof.
  cbv zeta. split; [discriminate|].
  apply (loaded_catalog_reused unreachableNetwork (js "slow traces") None
           {| this := catalog "order" ["/v1/login"%string]; effects := [] |}).
  discriminate.
Defined.

(** ** The routes of the cached services *)

Lemma routesAfter_keeps net names routes name :
  is_Some (routes !! name) -> is_Some (routesAfter net names routes !! name).
Proof.
  intros H.
  destruct (List.in_dec (fun a b : jsstring => decide (a = b)) name names) as [Hin|Hnot].
  - rewrite routesAfter_listed by exact Hin. eauto.
  - now rewrite routesAfter_other by exact Hnot.
Qed.

(** X5.  The routes object has an entry for every cached service name,
    and a call keeps it so: if every cached name has its routes before a
    call, every cached name has its routes after it, whatever the network
    answers and whether the call returns or throws.  No call removes an
    entry of the routes object.  (The cache of a new service object is
    empty, where this holds.) *)
Theorem translateQuery_keeps_catalog net query ctx w :
  cataloged (this w) ->
  cataloged (this (snd (translateQuery net query ctx w))) /\
  forall name,
    is_Some (serviceRoutes (this w) !! name) ->
    is_Some (serviceRoutes (this (snd (translateQuery net query ctx w))) !! name).
Proof.
  intros Hcat. rewrite translateQuery_this.
  destruct (healthFails net); [split; auto|].
  rewrite ensureLoaded_eq. cbn [afterHealthCheck logged this].
  destruct (services (this w)) as [|s l] eqn:Hs; [|split; auto].
  destruct (listed net) as [names|]; [|split; auto].
  cbn [snd populated this serviceRoutes]. split.
  - intros name Hin. cbn [services] in Hin. cbn [serviceRoutes].
    rewrite routesAfter_listed by exact Hin. eauto.
  - intros name. apply routesAfter_keeps.
Qed.

Lemma translateQuery_keeps_catalog_witness :
  let net := healthyNetwork [js "order"; js "payment"] (js "{}") in
  cataloged (this freshWorld) /\
  cataloged (this (snd (translateQuery net (js "slow traces") None freshWorld))).
Proof.
  cbv zeta.
  assert (H : cataloged (this freshWorld)) by (intros name []).
  split; [exact H|].
  exact (proj1 (translateQuery_keeps_catalog
                  (healthyNetwork [js "order"; js "payment"] (js "{}"))
                  (js "slow traces") None freshWorld H)).
Defined.

(** ** The empty catalog *)

Lemma populated_nil net w :
  services (this w) = [] -> populated net [] w = logged w [Fetch GetServices].
Proof.
  intros H. unfold populated, logged. cbn [routesAfter fold_left List.map concat].
  destruct w as [[names routes] log]. cbn in *. now subst.
Qed.

Lemma ensureLoaded_empty net w :
  services (this w) = [] -> listed net = Some [] ->
  ensureLoaded net w = (Normal tt, logged w [Fetch GetServices]).
Proof.
  intros Hempty Hlist. rewrite ensureLoaded_eq, Hempty, Hlist.
  now rewrite populated_nil.
Qed.

(** X6.  A list of services that is empty (or missing in the answer) is
    not cached: when the metadata API lists no service, the call asks for
    the list, leaves the cache as it was, and the next call asks again.
    Without a selected service the prompt is then rendered with an empty
    metadata view, and every query that such a call returns has no
    service: an answer of the model that names one is rejected. *)
Theorem empty_catalog_not_cached net query ctx w :
  healthFails net = false ->
  services (this w) = [] ->
  listed net = Some [] ->
  this (snd (translateQuery net query ctx w)) = this w /\
  (exists added,
     effects (snd (translateQuery net query ctx w)) =
       effects w ++ [translationStarted; Fetch GetVersion; Fetch GetServices] ++ added /\
     (selected ctx = None ->
      exists rest, added = promptSent (renderPrompt SYSTEM_PROMPT [] query) ++ rest)) /\
  forall query',
    fst (translateQuery net query ctx w) = Normal query' ->
    ToBoolean (getField query' "service") = false.
Proof.
  intros Hhealthy Hempty Hlist.
  pose proof (ensureLoaded_empty net (afterHealthCheck w) Hempty Hlist) as Hfetch.
  split; [|split].
  - rewrite translateQuery_this, Hhealthy, Hfetch. reflexivity.
  - assert (Hview : selected ctx = None ->
                    servicesInfo (this (logged (afterHealthCheck w) [Fetch GetServices])) ctx =
                    Normal []).
    { intros Hsel. unfold servicesInfo. rewrite Hsel.
      cbn [logged afterHealthCheck this]. now rewrite Hempty. }
    translate_cases net query ctx w; try discriminate;
      rewrite (ensureLoaded_empty net (afterHealthCheck w) Hempty Hlist) in Hload;
      injection Hload as <-;
      try (destruct (selected ctx) eqn:Hsel;
           [|rewrite (Hview eq_refl) in Hinfo; first [discriminate | injection Hinfo as <-]]);
      cbn [snd logged afterHealthCheck effects promptSent app];
      rewrite <- ?app_assoc; cbn [app];
      eexists; (split; [reflexivity|]);
      first [ discriminate | intros _; eexists; reflexivity ].
  - intros query'.
    translate_cases net query ctx w; try discriminate.
    cbn [fst]. intros H. injection H as ->.
    rewrite (ensureLoaded_empty net (afterHealthCheck w) Hempty Hlist) in Hload.
    injection Hload as <-.
    destruct (toObject result) as [candidate|] eqn:Hobj; [|discriminate].
    cbn [cbind] in Hvalid.
    destruct (validateQuery_service _ _ _ Hvalid) as [Hsame [Hfalsy|Hknown]].
    + now rewrite Hsame.
    + cbn [logged afterHealthCheck this] in Hknown. rewrite Hempty in Hknown.
      now destruct (getField candidate "service").
Qed.

Lemma empty_catalog_not_cached_witness :
  let net := healthyNetwork [] (jsq "{`service`:`payment`}") in
  healthFails net = false /\ listed net = Some [] /\
  this (snd (translateQuery net (js "slow traces") None freshWorld)) = this freshWorld.
Proof.
  cbv zeta. split; [reflexivity|]. split; [reflexivity|].
  apply (empty_catalog_not_cached (healthyNetwork [] (jsq "{`service`:`payment`}"))
           (js "slow traces") None freshWorld); reflexivity.
Defined.

(** ** The generation step *)

(** X7.  With the catalog in the cache and the metadata view built, a
    generation request that gets no connection, no answer within its
    time limit of 30000 ms, a status outside 200 to 299 or a body that is
    not JSON makes the call throw: the error of [fetch], the timeout, the
    error [API request failed: ] followed by the status text, or the
    syntax error of the body.  The prompt has then been logged and sent,
    the failure is logged, nothing is validated and the cache is as it
    was. *)
Theorem generation_step_fails net query ctx w info e :
  healthFails net = false ->
  services (this w) <> [] ->
  servicesInfo (this w) ctx = Normal info ->
  generationFailure (generateApi net (renderPrompt SYSTEM_PROMPT info query)) = Some e ->
  translateQuery net query ctx w =
    (Throw e,
     logged w ([translationStarted; Fetch GetVersion] ++
               promptSent (renderPrompt SYSTEM_PROMPT info query) ++
               [translationFailed])) /\
  timeLimit (PostGenerate (js "llama3.1") (renderPrompt SYSTEM_PROMPT info query) false) =
    Some 30000.
Proof.
  intros Hhealthy Hloaded Hview Hfail. split; [|reflexivity].
  rewrite (translateQuery_after_view net query ctx w (afterHealthCheck w) info Hhealthy).
  2:{ apply ensureLoaded_cached. exact Hloaded. }
  2:{ exact Hview. }
  cbv zeta. unfold generationFailure in Hfail.
  destruct (generateApi net (renderPrompt SYSTEM_PROMPT info query)) as [| |reply].
  - injection Hfail as <-. unfold afterHealthCheck. now rewrite logged_logged.
  - injection Hfail as <-. unfold afterHealthCheck. now rewrite logged_logged.
  - destruct (ok reply).
    + destruct (json reply); [discriminate|].
      injection Hfail as <-. unfold afterHealthCheck. now rewrite logged_logged.
    + injection Hfail as <-. unfold afterHealthCheck. now rewrite logged_logged.
Qed.

Lemma generation_step_fails_witness :
  let net := {| versionApi := answer tt;
                servicesApi := Unreachable;
                operationsApi := fun _ => Unreachable;
                generateApi := fun _ =>
                  Responded {| status := 503;
                               statusText := js "Service Unavailable";
                               json := None |} |} in
  let w := {| this := catalog "order" ["/v1/login"%string]; effects := [] |} in
  fst (translateQuery net (js "slow traces") None w) =
    Throw (Error (js "API request failed: Service Unavailable")).
Proof.
  cbv zeta.
  refine (f_equal fst (proj1 (generation_step_fails _ (js "slow traces") None
            {| this := catalog "order" ["/v1/login"%string]; effects := [] |}
            (js "order (routes: /v1/login)") _ _ _ _ _))).
  - reflexivity.
  - discriminate.
  - vm_compute. reflexivity.
  - reflexivity.
Defined.

(** ** What a call returns *)

(** X8.  A call returns a query only along one path: the health check
    passed, the metadata view was built from the cache, the generation
    API answered the rendered prompt with a status from 200 to 299 and a
    JSON body, a JSON value was extracted from its text, and
    [validateQuery] returned the query for that value.  The query that is
    returned is valid for the cache as the call leaves it: validating it
    again returns it unchanged. *)
Theorem translateQuery_returns_validated net query ctx w query' :
  fst (translateQuery net query ctx w) = Normal query' ->
  healthFails net = false /\
  validateQuery (this (snd (translateQuery net query ctx w))) query' = Normal query' /\
  exists info reply body result candidate,
    servicesInfo (this (snd (translateQuery net query ctx w))) ctx = Normal info /\
    generateApi net (renderPrompt SYSTEM_PROMPT info query) = Responded reply /\
    ok reply = true /\
    json reply = Some body /\
    extractJson (response body) = Normal result /\
    toObject result = Normal candidate /\
    validateQuery (this (snd (translateQuery net query ctx w))) candidate = Normal query'.
Proof.
  translate_cases net query ctx w; try discriminate.
  cbn [fst snd logged this]. intros H. injection H as ->.
  destruct (toObject result) as [candidate|] eqn:Hobj; [|discriminate].
  cbn [cbind] in Hvalid.
  split; [reflexivity|]. split.
  - exact (validateQuery_fixed _ _ _ Hvalid).
  - do 5 eexists. repeat split; eassumption.
Qed.

Lemma translateQuery_returns_validated_witness :
  let net := healthyNetwork [js "payment"]
               (jsq "Here it is: {`service`:`payment`,`lookback`:`2 hours`}") in
  let call := translateQuery net (js "slow traces") None freshWorld in
  fst call = Normal (object [(js "service", VStr (js "payment"));
                             (js "lookback", VStr (js "1h"));
                             (js "limit", VNum (Integer 100))]) /\
  validateQuery (this (snd call))
    (object [(js "service", VStr (js "payment"));
             (js "lookback", VStr (js "1h"));
             (js "limit", VNum (Integer 100))]) =
  Normal (object [(js "service", VStr (js "payment"));
                  (js "lookback", VStr (js "1h"));
                  (js "limit", VNum (Integer 100))]).
Proof.
  cbv zeta. split; [vm_compute; reflexivity|].
  apply (translateQuery_returns_validated
           (healthyNetwork [js "payment"]
              (jsq "Here it is: {`service`:`payment`,`lookback`:`2 hours`}"))
           (js "slow traces") None freshWorld).
  vm_compute. reflexivity.
Defined.

(** ** Failures are logged *)

Lemma operationsFailure_not_translationFailed name :
  operationsFailure name <> translationFailed.
Proof.
  unfold operationsFailure, translationFailed. intros H.
  vm_compute in H. discriminate H.
Qed.

Lemma operationsEffects_no_failure net name :
  ~ In translationFailed (operationsEffects net name).
Proof.
  unfold operationsEffects. intros Hin. apply in_app_or in Hin. destruct Hin as [Hin|Hin].
  - destruct (isWellFormed name); [|destruct Hin].
    destruct Hin as [Hin|[]]. discriminate Hin.
  - destruct (operationsOf net name); [destruct Hin|].
    destruct Hin as [Hin|[]]. now apply operationsFailure_not_translationFailed in Hin.
Qed.

(** What the load of the catalog adds to the log. *)
Lemma ensureLoaded_log net w :
  exists loaded,
    effects (snd (ensureLoaded net w)) = effects w ++ loaded /\
    ~ In translationFailed loaded.
Proof.
  rewrite ensureLoaded_eq. destruct (services (this w)).
  - destruct (listed net) as [names|]; cbn [snd populated logged effects].
    + eexists. split; [reflexivity|].
      intros [Hin|Hin]; [discriminate Hin|].
      apply in_concat in Hin. destruct Hin as (l & Hl & Hin).
      apply in_map_iff in Hl. destruct Hl as (name & <- & _).
      now apply operationsEffects_no_failure in Hin.
    + eexists. split; [reflexivity|].
      intros [Hin|[Hin|[]]]; [discriminate Hin|].
      vm_compute in Hin. discriminate Hin.
  - exists []. split; [now rewrite app_nil_r | intros []].
Qed.

(** The log of a call whose steps after the health check added [steps]
    to the log that the load of the catalog left. *)
Ltac call_log loaded Hlog Hnot steps :=
  exists (Fetch GetVersion :: loaded ++ steps);
  cbn [fst snd logged effects];
  split;
  [ rewrite Hlog; cbn [afterHealthCheck logged effects];
    rewrite ?app_nil_r; cbn [app]; rewrite <- ?app_assoc; cbn [app];
    rewrite <- ?app_assoc; reflexivity
  | let Hin := fresh "Hin" in
    intros [Hin|Hin]; [discriminate Hin|];
    apply in_app_or in Hin; destruct Hin as [Hin|Hin]; [exact (Hnot Hin)|];
    unfold promptSent in Hin; cbn [app In] in Hin;
    repeat (destruct Hin as [Hin|Hin]; [discriminate Hin|]); exact Hin ].

(** X9.  The console line [AI translation failed:] is the last effect of
    every call that throws, and it is logged once; a call that returns
    does not log it.  What a call adds to the log always starts with the
    line [Starting translation for query:]. *)
Theorem translation_failure_logged net query ctx w :
  exists before,
    effects (snd (translateQuery net query ctx w)) =
      effects w ++ translationStarted :: before ++
      match fst (translateQuery net query ctx w) with
      | Throw _ => [translationFailed]
      | Normal _ => []
      end /\
    ~ In translationFailed before.
Proof.
  destruct (ensureLoaded_log net (afterHealthCheck w)) as (loaded & Hlog & Hnot).
  translate_cases net query ctx w; cbn [snd] in Hlog.
  - exists [Fetch GetVersion]. split; [reflexivity|].
    intros [Hin|[]]. discriminate Hin.
  - call_log loaded Hlog Hnot (promptSent (renderPrompt SYSTEM_PROMPT info query)).
  - call_log loaded Hlog Hnot (promptSent (renderPrompt SYSTEM_PROMPT info query)).
  - call_log loaded Hlog Hnot
      (promptSent (renderPrompt SYSTEM_PROMPT info query) ++
       [ConsoleLog (js "Raw response data:"); ConsoleLog (js "Parsed result:")]).
  - call_log loaded Hlog Hnot
      (promptSent (renderPrompt SYSTEM_PROMPT info query) ++
       [ConsoleLog (js "Raw response data:"); ConsoleLog (js "Parsed result:")]).
  - call_log loaded Hlog Hnot
      (promptSent (renderPrompt SYSTEM_PROMPT info query) ++
       [ConsoleLog (js "Raw response data:")]).
  - call_log loaded Hlog Hnot (promptSent (renderPrompt SYSTEM_PROMPT info query)).
  - call_log loaded Hlog Hnot (promptSent (renderPrompt SYSTEM_PROMPT info query)).
  - call_log loaded Hlog Hnot (@nil effect).
  - call_log loaded Hlog Hnot (@nil effect).
Qed.

(** ** The search form *)

(** X10.  Whatever the service answers, what the form hands to
    [submitFormHandler] carries the service selected in the form: the
    handler is called only when [translateQuery] returned, its argument
    is the validated query with the field [service] overwritten by the
    selection (every other field as validated), it is the query that the
    form displays, and a selection that is not empty has its routes in
    the cache of the service. *)
Theorem handleSubmit_submits_selection runtimeMessage submitFormHandler net s w fields :
  snd (AISearchForm.handleSubmit runtimeMessage submitFormHandler net s w) = Some fields ->
  getField fields "service" = AISearchForm.undefinedOr (AISearchForm.selectedService s) /\
  (exists validated,
     fst (translateQuery net (AISearchForm.query s)
            (Some (Build_context (AISearchForm.selectedService s))) w) = Normal validated /\
     agreeOutside (js "service") validated fields) /\
  AISearchForm.translatedQuery
    (fst (fst (AISearchForm.handleSubmit runtimeMessage submitFormHandler net s w))) =
    Some fields /\
  forall c name,
    AISearchForm.selectedService s = Some (c :: name) ->
    is_Some (serviceRoutes
               (this (snd (fst (AISearchForm.handleSubmit runtimeMessage submitFormHandler
                                  net s w)))) !! (c :: name)).
Proof.
  unfold AISearchForm.handleSubmit.
  set (ctx := Some (Build_context (AISearchForm.selectedService s))).
  assert (Hview : forall self info c name,
            AISearchForm.selectedService s = Some (c :: name) ->
            servicesInfo self ctx = Normal info ->
            is_Some (serviceRoutes self !! (c :: name))).
  { intros self info c name Hsel. unfold servicesInfo, ctx. rewrite Hsel.
    cbn [selected]. unfold joinedRoutes.
    destruct (serviceRoutes self !! (c :: name)); [eauto | discriminate]. }
  translate_cases net (AISearchForm.query s) ctx w; try discriminate.
  destruct (submitFormHandler _); cbn [fst snd AISearchForm.translatedQuery logged this];
    intros H; injection H as <-;
    (split; [apply getField_setField_eq|]);
    (split; [eexists; split; [reflexivity | apply agreeOutside_setField]|]);
    (split; [reflexivity|]);
    intros c name Hsel; exact (Hview _ _ _ _ Hsel Hinfo).
Qed.

Lemma handleSubmit_submits_selection_witness :
  let net := healthyNetwork [js "payment"; js "order"]
               (jsq "{`service`:`order`,`lookback`:`2h`}") in
  let s := {| AISearchForm.query := js "slow traces";
              AISearchForm.selectedService := Some (js "payment");
              AISearchForm.isTranslating := false;
              AISearchForm.translatedQuery := None;
              AISearchForm.error := None |} in
  let fields := object [(js "service", VStr (js "payment"));
                        (js "lookback", VStr (js "2h"));
                        (js "limit", VNum (Integer 100))] in
  snd (AISearchForm.handleSubmit (fun _ => []) (fun _ => Normal tt) net s freshWorld) =
    Some fields /\
  getField fields "service" = VStr (js "payment").
Proof.
  cbv zeta. split; [vm_compute; reflexivity|].
  refine (proj1 (handleSubmit_submits_selection (fun _ => []) (fun _ => Normal tt)
                   (healthyNetwork [js "payment"; js "order"]
                      (jsq "{`service`:`order`,`lookback`:`2h`}"))
                   {| AISearchForm.query := js "slow traces";
                      AISearchForm.selectedService := Some (js "payment");
                      AISearchForm.isTranslating := false;
                      AISearchForm.translatedQuery := None;
                      AISearchForm.error := None |}
                   freshWorld _ _)).
  vm_compute. reflexivity.
Defined.

(** X11.  When the health check of the service fails, the form submits
    nothing: [submitFormHandler] is not called, the form stops
    translating and shows the message that tells to install and start
    Ollama, and the query it displayed before, if any, stays on display. *)
Theorem handleSubmit_backend_down runtimeMessage submitFormHandler net s w :
  healthFails net = true ->
  AISearchForm.handleSubmit runtimeMessage submitFormHandler net s w =
  ({| AISearchForm.query := AISearchForm.query s;
      AISearchForm.selectedService := AISearchForm.selectedService s;
      AISearchForm.isTranslating := false;
      AISearchForm.translatedQuery := AISearchForm.translatedQuery s;
      AISearchForm.error :=
        Some (js "Ollama service is not available. Please ensure Ollama is installed and running on port 11434. Visit https://ollama.ai for installation instructions.") |},
   logged w [translationStarted; Fetch GetVersion; translationFailed],
   None).
Proof.
  intros H. unfold AISearchForm.handleSubmit.
  rewrite (translateQuery_unhealthy net _ _ w H).
  unfold backendUnavailableError, AISearchForm.message.
  repeat f_equal; vm_compute; reflexivity.
Qed.

Lemma handleSubmit_backend_down_witness :
  let s := {| AISearchForm.query := js "slow traces";
              AISearchForm.selectedService := Some (js "payment");
              AISearchForm.isTranslating := false;
              AISearchForm.translatedQuery := Some (object [(js "limit", VNum (Integer 20))]);
              AISearchForm.error := None |} in
  healthFails unreachableNetwork = true /\
  snd (AISearchForm.handleSubmit (fun _ => []) (fun _ => Normal tt)
         unreachableNetwork s freshWorld) = None /\
  AISearchForm.translatedQuery
    (fst (fst (AISearchForm.handleSubmit (fun _ => []) (fun _ => Normal tt)
                 unreachableNetwork s freshWorld))) =
  Some (object [(js "limit", VNum (Integer 20))]).
Proof.
  cbv zeta. split; [reflexivity|].
  rewrite (handleSubmit_backend_down (fun _ => []) (fun _ => Normal tt) unreachableNetwork
             _ freshWorld eq_refl).
  split; reflexivity.
Defined.

(** X12.  The service that the form selects when it is created is one
    that the form offers: the constructor selects a name exactly when
    the stored last search is an object whose [service] is a string
    that is not empty, is not [-], and is the name of one of the
    services of the form; that string is the selection.  Otherwise no
    service is selected. *)
Theorem lastSearchService_offered lastSearch services name :
  AISearchForm.lastSearchService lastSearch services = Some name <->
  (exists o, lastSearch = VObj o /\ get o (js "service") = VStr name) /\
  name <> [] /\ name <> js "-" /\ In name services.
Proof.
  unfold AISearchForm.lastSearchService. cbv zeta. split.
  - intros H.
    destruct lastSearch as [| | | | | |o]; cbn [AISearchForm.property] in H;
      try (change (ToBoolean VUndefined) with false in H;
           rewrite andb_false_r in H; discriminate H).
    change (ToBoolean (VObj o)) with true in H. cbn [andb] in H.
    destruct (get o (js "service")) as [| | | |text| |] eqn:Hservice;
      try (repeat match type of H with
                  | (if ?b then _ else _) = _ => destruct b
                  end; discriminate H).
    cbn [AISearchForm.strictEquals] in H.
    destruct (ToBoolean (VStr text)) eqn:Ht; cbn [andb] in H; [|discriminate H].
    destruct (str_eqb text (js "-")) eqn:Hdash; cbn [negb] in H; [discriminate H|].
    destruct (existsb (AISearchForm.strictEquals (VStr text)) services) eqn:Hin;
      [|discriminate H].
    injection H as <-.
    split; [eauto|]. split; [intros ->; discriminate Ht|]. split.
    + intros E. rewrite E, str_eqb_refl in Hdash. discriminate.
    + apply existsb_exists in Hin. destruct Hin as (x & Hx & Heq).
      cbn [AISearchForm.strictEquals] in Heq. apply str_eqb_eq in Heq. now subst.
  - intros ((o & -> & Hservice) & Hne & Hdash & Hin).
    cbn [AISearchForm.property]. rewrite Hservice.
    change (ToBoolean (VObj o)) with true.
    assert (Ht : ToBoolean (VStr name) = true) by (destruct name; [congruence|reflexivity]).
    rewrite Ht. cbn [AISearchForm.strictEquals andb]. rewrite (str_eqb_ne _ _ Hdash).
    cbn [negb].
    assert (Hex : existsb (AISearchForm.strictEquals (VStr name)) services = true).
    { apply existsb_exists. exists name. split; [exact Hin|].
      cbn [AISearchForm.strictEquals]. apply str_eqb_refl. }
    now rewrite Hex.
Qed.

(** ** The submit button *)

Lemma trimStart_nil s :
  trimStart s = [] <-> Forall (fun c => isStrWhiteSpaceChar c = true) s.
Proof.
  induction s as [|c s IH]; cbn [trimStart].
  - split; [constructor | reflexivity].
  - destruct (isStrWhiteSpaceChar c) eqn:Ec.
    + rewrite IH. split; [now constructor | now inversion 1].
    + split; [discriminate|]. inversion 1; congruence.
Qed.

Lemma trimStart_Forall s :
  Forall (fun c => isStrWhiteSpaceChar c = true) (trimStart s) <->
  Forall (fun c => isStrWhiteSpaceChar c = true) s.
Proof.
  induction s as [|c s IH]; cbn [trimStart]; [reflexivity|].
  destruct (isStrWhiteSpaceChar c) eqn:Ec; [|reflexivity].
  rewrite IH. split; [now constructor | now inversion 1].
Qed.

Lemma trim_nil s :
  AISearchForm.trim s = [] <-> Forall (fun c => isStrWhiteSpaceChar c = true) s.
Proof.
  unfold AISearchForm.trim. split.
  - intros H. apply (f_equal (@rev N)) in H. rewrite rev_involutive in H.
    cbn [rev] in H. apply trimStart_nil in H. apply List.Forall_rev in H.
    rewrite rev_involutive in H. now apply trimStart_Forall.
  - intros H. apply trimStart_Forall, List.Forall_rev, trimStart_nil in H.
    now rewrite H.
Qed.

(** X13.  The submit button of the form is disabled exactly when the
    query consists of white space only (the empty query among them) or
    no service is selected; an empty name counts as no selection. *)
Theorem submitDisabled_iff s :
  AISearchForm.submitDisabled s = true <->
  Forall (fun c => isStrWhiteSpaceChar c = true) (AISearchForm.query s) \/
  AISearchForm.selectedService s = None \/
  AISearchForm.selectedService s = Some [].
Proof.
  unfold AISearchForm.submitDisabled. rewrite orb_true_iff, !negb_true_iff.
  rewrite <- trim_nil.
  assert (Hq : ToBoolean (VStr (AISearchForm.trim (AISearchForm.query s))) = false <->
               AISearchForm.trim (AISearchForm.query s) = []).
  { destruct (AISearchForm.trim (AISearchForm.query s)); split; try reflexivity; discriminate. }
  assert (Hs : ToBoolean (AISearchForm.undefinedOr (AISearchForm.selectedService s)) = false <->
               AISearchForm.selectedService s = None \/
               AISearchForm.selectedService s = Some []).
  { destruct (AISearchForm.selectedService s) as [[|c name]|]; cbn; split; auto;
      try discriminate; intros [H|H]; discriminate. }
  now rewrite Hq, Hs.
Qed.

(** ** The shape of a validated query *)

Lemma normalizeLookback_post q q2 :
  normalizeLookback q = Normal q2 -> falsyOr lookbackShape (getField q2 "lookback").
Proof.
  unfold normalizeLookback. intros H.
  destruct (ToBoolean (getField q "lookback")) eqn:Ht.
  - step H. injection H as <-. rename a into text.
    destruct (test lookbackRegex text) eqn:Hm; cbn [negb]; right.
    + exists text. split; [exact E | now apply test_lookbackRegex].
    + rewrite getField_setField_eq. exists (js "1h").
      split; [reflexivity | now apply test_lookbackRegex].
  - injection H as <-. now left.
Qed.

Lemma normalizeDuration_post f q q3 :
  normalizeDuration f q = Normal q3 -> falsyOr durationShape (getField q3 f).
Proof.
  unfold normalizeDuration. intros H.
  destruct (ToBoolean (getField q f)) eqn:Ht.
  - step H. injection H as <-. rename a into text.
    destruct (test durationRegex text) eqn:Hm; cbn [negb].
    + right. exists text. split; [exact E | now apply test_durationRegex].
    + left. now rewrite getField_deleteField_eq.
  - injection H as <-. now left.
Qed.

Lemma normalizeTags_post this q q' :
  (ToBoolean (getField q "service") = true -> exists name, getField q "service" = VStr name) ->
  normalizeTags this q = Normal q' ->
  ToBoolean (getField q' "tags") = false \/
  exists text,
    getField q' "tags" = VStr text /\
    text <> [] /\
    Forall (fun pair => keepsTag (routesFor this q') pair = true) (split 32 text).
Proof.
  intros Hservice H. unfold normalizeTags in H.
  destruct (ToBoolean (getField q "tags")) eqn:Ht.
  2:{ injection H as <-. now left. }
  destruct (getField q "tags") as [| | | |text| |] eqn:Htags; try discriminate H.
  step H. rename a into kept. injection H as <-.
  rewrite getField_setField_eq.
  destruct (ToBoolean (VStr (join (js " ") kept))) eqn:Hj; [right | now left].
  exists (join (js " ") kept). split; [reflexivity|].
  split; [intros Hnil; rewrite Hnil in Hj; discriminate Hj|].
  assert (Hkept : kept <> []) by (intros ->; discriminate Hj).
  assert (Hpieces : Forall (fun piece => ~ In 32 piece) kept).
  { eapply filterC_sublist; [exact E | apply split_pieces]. }
  change (js " ") with [32]. rewrite split_join by assumption.
  apply (filterC_filter _ (keepsTag (routesFor this q))) in E.
  2:{ intros x b. now apply validTag_keepsTag. }
  assert (Hroutes : routesFor this (setField q "tags" (VStr (join [32] kept))) =
                    routesFor this q).
  { unfold routesFor. now rewrite getField_setField_ne by names. }
  rewrite Hroutes, E. apply List.Forall_forall. intros pair Hin.
  now apply filter_In in Hin.
Qed.

(** X14.  Every query that [validateQuery] returns has this shape: its
    limit is a number other than zero and NaN; its service is falsy or
    the name of a cached service; its lookback is falsy or reads as
    digits and a unit; each of its two durations is falsy or reads as
    digits, possibly a point and digits, and a unit; its tags are falsy
    or a non-empty string, and every piece of that string between
    single spaces is a pair that the filter keeps.  A field that is not
    a string passes by the text it reads as. *)
Theorem validateQuery_postcondition this query query' :
  validateQuery this query = Normal query' ->
  (exists n, getField query' "limit" = VNum n /\ ToBoolean (VNum n) = true) /\
  (ToBoolean (getField query' "service") = false \/
   exists name, getField query' "service" = VStr name /\ In name (services this)) /\
  falsyOr lookbackShape (getField query' "lookback") /\
  falsyOr durationShape (getField query' "minDuration") /\
  falsyOr durationShape (getField query' "maxDuration") /\
  (ToBoolean (getField query' "tags") = false \/
   exists text,
     getField query' "tags" = VStr text /\
     text <> [] /\
     Forall (fun pair => keepsTag (routesFor this query') pair = true) (split 32 text)).
Proof.
  intros H. pose proof (validateQuery_service _ _ _ H) as [Hsame Hknown].
  apply validateQuery_inv in H.
  destruct H as (q1 & q2 & q3 & q4 & E1 & Es & E2 & E3 & E4 & E5).
  pose proof (normalizeLookback_frame _ _ E2) as F2.
  pose proof (normalizeDuration_frame _ _ _ E3) as F3.
  pose proof (normalizeDuration_frame _ _ _ E4) as F4.
  pose proof (normalizeTags_frame _ _ _ E5) as F5.
  destruct (normalizeLimit_spec _ _ E1) as [F1 [text [_ Hlimit]]].
  split; [|split; [|split; [|split; [|split]]]].
  - exists (coercedLimit (getField query "limit") text).
    split; [|apply coercedLimit_truthy].
    rewrite (agreeOutside_get _ "limit" _ _ F5) by names.
    rewrite (agreeOutside_get _ "limit" _ _ F4) by names.
    rewrite (agreeOutside_get _ "limit" _ _ F3) by names.
    now rewrite (agreeOutside_get _ "limit" _ _ F2) by names.
  - rewrite Hsame. destruct Hknown as [Hfalsy|Hin]; [now left|].
    right. now apply includesValue_VStr.
  - rewrite (agreeOutside_get _ "lookback" _ _ F5) by names.
    rewrite (agreeOutside_get _ "lookback" _ _ F4) by names.
    rewrite (agreeOutside_get _ "lookback" _ _ F3) by names.
    exact (normalizeLookback_post _ _ E2).
  - rewrite (agreeOutside_get _ "minDuration" _ _ F5) by names.
    rewrite (agreeOutside_get _ "minDuration" _ _ F4) by names.
    exact (normalizeDuration_post _ _ _ E3).
  - rewrite (agreeOutside_get _ "maxDuration" _ _ F5) by names.
    exact (normalizeDuration_post _ _ _ E4).
  - apply (normalizeTags_post this q4); [|exact E5].
    assert (Hs : getField q4 "service" = getField q1 "service").
    { rewrite (agreeOutside_get _ "service" _ _ F4) by names.
      rewrite (agreeOutside_get _ "service" _ _ F3) by names.
      now rewrite (agreeOutside_get _ "service" _ _ F2) by names. }
    rewrite Hs. exact (checkService_shape this q1 Es).
Qed.

Lemma validateQuery_postcondition_witness :
  let query := object [(js "service", VStr (js "order"));
                       (js "lookback", VArr [VStr (js "2h")]);
                       (js "minDuration", VNum (Integer 5));
                       (js "tags", VStr (js "a=1 =bad novalue"))] in
  let query' := object [(js "service", VStr (js "order"));
                        (js "lookback", VArr [VStr (js "2h")]);
                        (js "tags", VStr (js "a=1"));
                        (js "limit", VNum (Integer 100))] in
  validateQuery (catalog "order" []) query = Normal query' /\
  falsyOr lookbackShape (getField query' "lookback") /\
  (ToBoolean (getField query' "tags") = false \/
   exists text,
     getField query' "tags" = VStr text /\
     text <> [] /\
     Forall (fun pair => keepsTag (routesFor (catalog "order" []) query') pair = true)
            (split 32 text)).
Proof.
  cbv zeta. split; [vm_compute; reflexivity|].
  destruct (validateQuery_postcondition (catalog "order" [])
              (object [(js "service", VStr (js "order"));
                       (js "lookback", VArr [VStr (js "2h")]);
                       (js "minDuration", VNum (Integer 5));
                       (js "tags", VStr (js "a=1 =bad novalue"))])
              (object [(js "service", VStr (js "order"));
                       (js "lookback", VArr [VStr (js "2h")]);
                       (js "tags", VStr (js "a=1"));
                       (js "limit", VNum (Integer 100))]))
    as (_ & _ & Hlookback & _ & _ & Htags).
  - vm_compute. reflexivity.
  - split; [exact Hlookback | exact Htags].
Defined.

(** A text with pairs that the filter drops is not the tags of a
    validated query. *)
Example tags_with_dropped_pairs_not_validated :
  ~ Forall (fun pair => keepsTag None pair = true) (split 32 (js "a=1 =bad novalue")).
Proof.
  vm_compute. intros H. inversion H as [|? ? _ H1]; subst.
  inversion H1 as [|? ? Hbad _]; subst. discriminate Hbad.
Qed.

(** ** The operations of one service *)

(** X15.  The fetch of the operations of a service never throws and
    writes the routes of that service only: the cached names and the
    routes of every other service are as before.  For a name that
    [encodeURIComponent] rejects (a lone surrogate) no request is sent:
    the failure is logged and the service gets the empty list of
    routes. *)
Theorem fetchServiceOperations_own_entry net name w :
  fst (fetchServiceOperations net name w) = Normal tt /\
  services (this (snd (fetchServiceOperations net name w))) = services (this w) /\
  (forall other, other <> name ->
     serviceRoutes (this (snd (fetchServiceOperations net name w))) !! other =
     serviceRoutes (this w) !! other) /\
  (isWellFormed name = false ->
     serviceRoutes (this (snd (fetchServiceOperations net name w))) !! name = Some [] /\
     effects (snd (fetchServiceOperations net name w)) =
       effects w ++ [operationsFailure name]).
Proof.
  rewrite fetchServiceOperations_eq. cbn [fst snd this services serviceRoutes effects].
  split; [reflexivity|]. split; [reflexivity|]. split.
  - intros other Hne. apply lookup_insert_ne. congruence.
  - intros Hill. unfold operationsOf, operationsEffects, operationsOf. rewrite Hill.
    split; [apply lookup_insert_eq | reflexivity].
Qed.

(** ** The prompt for plain texts *)

(** X16.  With the catalog in the cache, a metadata view without dollar
    signs and opening braces and a query text without dollar signs reach
    the generation API as they are: the prompt of the request is the
    template with the view in the place of [{services}] and the query in
    the place of [{query}]. *)
Theorem plain_prompt_sent net query ctx w info :
  healthFails net = false ->
  services (this w) <> [] ->
  servicesInfo (this w) ctx = Normal info ->
  ~ In 36 info -> ~ In 123 info -> ~ In 36 query ->
  In (Fetch (PostGenerate (js "llama3.1") (verbatimPrompt info query) false))
     (effects (snd (translateQuery net query ctx w))).
Proof.
  intros Hhealthy Hloaded Hview Hdollar Hbrace Hquery.
  destruct (translateQuery_generates net query ctx w (afterHealthCheck w) info Hhealthy)
    as [added E].
  - apply ensureLoaded_cached. exact Hloaded.
  - exact Hview.
  - rewrite E, (renderPrompt_plain info query Hdollar Hbrace Hquery).
    apply in_or_app. right. right. now left.
Qed.

Lemma plain_prompt_sent_witness :
  let net := healthyNetwork [js "order"] (js "{}") in
  let w := {| this := catalog "order" ["/v1/login"%string]; effects := [] |} in
  In (Fetch (PostGenerate (js "llama3.1")
               (verbatimPrompt (js "order (routes: /v1/login)") (js "slow traces")) false))
     (effects (snd (translateQuery net (js "slow traces") None w))).
Proof.
  cbv zeta. apply plain_prompt_sent.
  - reflexivity.
  - discriminate.
  - vm_compute. reflexivity.
  - vm_compute. intuition discriminate.
  - vm_compute. intuition discriminate.
  - vm_compute. intuition discriminate.
Defined.
